(** * Dexcom data viewer: a shallow embedding of
    [dexcom_streamlit_app.py] and [working_dexcom_app.py].

    The Streamlit runtime, [requests], pandas and plotly are external
    collaborators.  A script run is modelled as a function of the
    session state, the query parameters of the page, the clock and an
    oracle for the HTTP server; what the script shows or sends is
    recorded as a list of events. *)

From Stdlib Require Import String Ascii List ZArith QArith Bool Lia.
From Stdlib Require Import Permutation Sorted Qround.
Import ListNotations.

Local Open Scope Z_scope.
Local Open Scope string_scope.
Set Warnings "-register-all".

(* ------------------------------------------------------------------ *)
(** ** Python values produced by [response.json()]

    JSON numbers with a fraction or an exponent, which [json.loads]
    turns into [float]s, are not represented: the statements below are
    about responses whose numbers are integers. *)

Inductive pyval : Type :=
| PNone
| PBool (b : bool)
| PInt (z : Z)
| PStr (s : string)
| PList (xs : list pyval)
| PDict (kvs : list (string * pyval)).

(** [d.get(k, default)] on a decoded JSON object (keys are unique). *)
Fixpoint dict_get (kvs : list (string * pyval)) (k : string) (default : pyval)
  : pyval :=
  match kvs with
  | [] => default
  | (k', v) :: rest => if String.eqb k k' then v else dict_get rest k default
  end.

Fixpoint dict_has (kvs : list (string * pyval)) (k : string) : bool :=
  match kvs with
  | [] => false
  | (k', _) :: rest => String.eqb k k' || dict_has rest k
  end.

(** Python truthiness, as used by [if token_data:]. *)
Definition truthy (v : pyval) : bool :=
  match v with
  | PNone => false
  | PBool b => b
  | PInt z => negb (Z.eqb z 0)
  | PStr s => negb (String.eqb s "")
  | PList [] => false
  | PList _ => true
  | PDict [] => false
  | PDict _ => true
  end.

Definition is_None (v : pyval) : bool :=
  match v with PNone => true | _ => false end.

(* ------------------------------------------------------------------ *)
(** ** Configuration and the HTTP boundary *)

Record config := mk_config {
  CLIENT_ID : string;
  CLIENT_SECRET : string;
  REDIRECT_URI : string
}.

Definition BASE_URL : string := "https://sandbox-api.dexcom.com".
Definition TOKEN_URL : string := BASE_URL ++ "/v2/oauth2/token".

(** Form fields of a POST body. *)
Definition payload := list (string * pyval).

(** What [requests.post] yields: a response (status code, and the body
    when it decodes as JSON), a timeout, or a connection-level failure. *)
Inductive http_outcome :=
| HResp (status : Z) (body : option pyval)
| HTimeout
| HConnError.

(** The token server, as seen by the script. *)
Definition server := string -> payload -> http_outcome.

(** [response.raise_for_status()] raises for 4xx and 5xx. *)
Definition raise_for_status (status : Z) : bool :=
  Z.leb 400 status && Z.ltb status 600.

(** Messages shown with [st.error] / [st.success]. *)
Inductive ui_error :=
| ESecurityState        (* "Security error: Invalid state parameter" *)
| ETimeout              (* "Request timed out" *)
| EInvalidCode          (* HTTP 400 on the code exchange *)
| EAuthFailed           (* HTTP 401 on the code exchange *)
| EHttp (status : Z)    (* any other HTTP error *)
| EConnection           (* other [RequestException] *)
| ERefresh              (* "Error refreshing token" *)
| EGetToken             (* "Error getting token" (second definition) *)
| EExchangeFailed.      (* working app: any failure of the exchange *)

Inductive event :=
| EvPost (url : string) (data : payload)
| EvError (e : ui_error)
| EvSuccess.

Fixpoint count_posts (evs : list event) : nat :=
  match evs with
  | [] => 0
  | EvPost _ _ :: rest => S (count_posts rest)
  | _ :: rest => count_posts rest
  end.

(* ------------------------------------------------------------------ *)
(** ** The OAuth client of [dexcom_streamlit_app.py] *)

Definition auth_code_payload (cfg : config) (auth_code : string) : payload :=
  [("grant_type", PStr "authorization_code");
   ("code", PStr auth_code);
   ("redirect_uri", PStr (REDIRECT_URI cfg));
   ("client_id", PStr (CLIENT_ID cfg));
   ("client_secret", PStr (CLIENT_SECRET cfg))].

Definition refresh_payload (cfg : config) (refresh_token : pyval) : payload :=
  [("grant_type", PStr "refresh_token");
   ("refresh_token", refresh_token);
   ("client_id", PStr (CLIENT_ID cfg));
   ("client_secret", PStr (CLIENT_SECRET cfg))].

(** Lines 55-88: the first definition, with the state check.
    [oauth_state] is [st.session_state.oauth_state], [None] when the key
    is absent.  A [response.json()] decoding failure is a
    [RequestException] and lands in the last handler. *)
Definition exchange_code_for_token_v1 (cfg : config) (net : server)
    (oauth_state : option string) (auth_code state : string)
  : list event * option pyval :=
  let check :=
    match oauth_state with
    | None => false
    | Some s0 => String.eqb state s0
    end in
  if negb check then ([EvError ESecurityState], None)
  else
    let p := auth_code_payload cfg auth_code in
    match net TOKEN_URL p with
    | HTimeout => ([EvPost TOKEN_URL p; EvError ETimeout], None)
    | HConnError => ([EvPost TOKEN_URL p; EvError EConnection], None)
    | HResp st body =>
        if raise_for_status st then
          ([EvPost TOKEN_URL p;
            EvError (if Z.eqb st 400 then EInvalidCode
                     else if Z.eqb st 401 then EAuthFailed
                     else EHttp st)], None)
        else
          match body with
          | Some v => ([EvPost TOKEN_URL p], Some v)
          | None => ([EvPost TOKEN_URL p; EvError EConnection], None)
          end
    end.

(** Lines 90-107: first [refresh_access_token]; every failure is a
    [RequestException]. *)
Definition refresh_access_token_v1 (cfg : config) (net : server)
    (refresh_token : pyval) : list event * option pyval :=
  let p := refresh_payload cfg refresh_token in
  match net TOKEN_URL p with
  | HResp st (Some v) =>
      if raise_for_status st then ([EvPost TOKEN_URL p; EvError ERefresh], None)
      else ([EvPost TOKEN_URL p], Some v)
  | _ => ([EvPost TOKEN_URL p; EvError ERefresh], None)
  end.

(** Lines 414-432: the second definition, which replaces the first
    binding of the name; it takes only the code. *)
Definition exchange_code_for_token_v2 (cfg : config) (net : server)
    (auth_code : string) : list event * option pyval :=
  let p := auth_code_payload cfg auth_code in
  match net TOKEN_URL p with
  | HResp st (Some v) =>
      if raise_for_status st then ([EvPost TOKEN_URL p; EvError EGetToken], None)
      else ([EvPost TOKEN_URL p], Some v)
  | _ => ([EvPost TOKEN_URL p; EvError EGetToken], None)
  end.

(** [working_dexcom_app.py] lines 36-54: [except Exception]. *)
Definition exchange_code_for_token_w (cfg : config) (net : server)
    (auth_code : string) : list event * option pyval :=
  let p := auth_code_payload cfg auth_code in
  match net TOKEN_URL p with
  | HResp st (Some v) =>
      if raise_for_status st then ([EvPost TOKEN_URL p; EvError EExchangeFailed], None)
      else ([EvPost TOKEN_URL p], Some v)
  | _ => ([EvPost TOKEN_URL p; EvError EExchangeFailed], None)
  end.

(* ------------------------------------------------------------------ *)
(** ** Session state, query parameters and the clock *)

(** [st.session_state]: the keys the scripts use.  [token_expires_at]
    is a [datetime] in microseconds since 0001-01-01 00:00:00;
    [oauth_state] is [None] while the key is absent. *)
Record session := mk_session {
  access_token : pyval;
  refresh_token : pyval;
  token_expires_at : option Z;
  oauth_state : option string;
  processing_callback : bool
}.

Definition set_access_token (v : pyval) (s : session) : session :=
  mk_session v (refresh_token s) (token_expires_at s) (oauth_state s)
    (processing_callback s).
Definition set_refresh_token (v : pyval) (s : session) : session :=
  mk_session (access_token s) v (token_expires_at s) (oauth_state s)
    (processing_callback s).
Definition set_token_expires_at (t : option Z) (s : session) : session :=
  mk_session (access_token s) (refresh_token s) t (oauth_state s)
    (processing_callback s).
Definition set_processing_callback (b : bool) (s : session) : session :=
  mk_session (access_token s) (refresh_token s) (token_expires_at s)
    (oauth_state s) b.

(** [st.query_params]: the [code] and [state] entries of the page URL. *)
Record query := mk_query { q_code : option string; q_state : option string }.
Definition query_cleared : query := mk_query None None.

(** How a script run ends: it falls through, calls [st.rerun()], or
    raises an uncaught exception (the session keeps what was written). *)
Inductive run_end := RunDone | RunRerun | RunCrash.

Definition USEC : Z := 1000000.
(** Largest [datetime] (9999-12-31 23:59:59.999999), in microseconds. *)
Definition DT_MAX : Z := 3652059 * 86400 * USEC - 1.

(** [timedelta(seconds=v)] in microseconds on the values of [pyval]:
    an [int] (a [bool] is an [int] in Python) is converted, and [None],
    a [str], a [list] or a [dict] raise [TypeError].  A [float], which
    [timedelta] would accept, has no [pyval]. *)
Definition timedelta_seconds (v : pyval) : option Z :=
  match v with
  | PInt z => Some (z * USEC)
  | PBool b => Some (if b then USEC else 0)
  | _ => None
  end.

(** [datetime + timedelta]; [OverflowError] out of the [datetime] range. *)
Definition datetime_add (t d : Z) : option Z :=
  let r := t + d in
  if Z.leb 0 r && Z.leb r DT_MAX then Some r else None.

(** The three assignments shared by the callback (lines 243-247) and the
    refresh button (lines 297-300):
<<
    st.session_state.access_token = token_data.get('access_token')
    st.session_state.refresh_token = token_data.get('refresh_token')
    expires_in = token_data.get('expires_in', 7200)
    st.session_state.token_expires_at = datetime.now() + timedelta(seconds=expires_in)
>>
    The boolean is [false] when a statement raises; the assignments
    made before it are kept. *)
Definition store_token (now : Z) (token_data : pyval) (s : session)
  : session * bool :=
  match token_data with
  | PDict kvs =>
      let s1 := set_access_token (dict_get kvs "access_token" PNone) s in
      let s2 := set_refresh_token (dict_get kvs "refresh_token" PNone) s1 in
      let expires_in := dict_get kvs "expires_in" (PInt 7200) in
      match timedelta_seconds expires_in with
      | Some d =>
          match datetime_add now d with
          | Some t => (set_token_expires_at (Some t) s2, true)
          | None => (s2, false)
          end
      | None => (s2, false)
      end
  | _ => (s, false)
  end.

(* ------------------------------------------------------------------ *)
(** ** Session controller of [dexcom_streamlit_app.py] (first [main]) *)

(** Lines 236-253: the authorization callback. *)
Definition handle_callback_v1 (cfg : config) (net : server) (now : Z)
    (q : query) (s : session) : session * query * list event * run_end :=
  match q_code q, q_state q with
  | Some auth_code, Some state =>
      if is_None (access_token s) then
        let '(evs, token_data) :=
          exchange_code_for_token_v1 cfg net (oauth_state s) auth_code state in
        match token_data with
        | Some td =>
            if truthy td then
              let '(s', ok) := store_token now td s in
              if ok then (s', query_cleared, (evs ++ [EvSuccess])%list, RunRerun)
              else (s', q, evs, RunCrash)
            else (s, q, evs, RunDone)
        | None => (s, q, evs, RunDone)
        end
      else (s, q, [], RunDone)
  | _, _ => (s, q, [], RunDone)
  end.

(** Lines 293-302: the "Refresh Token" button, once pressed. *)
Definition handle_refresh_v1 (cfg : config) (net : server) (now : Z)
    (s : session) : session * list event * run_end :=
  if truthy (refresh_token s) then
    let '(evs, token_data) :=
      refresh_access_token_v1 cfg net (refresh_token s) in
    match token_data with
    | Some td =>
        if truthy td then
          let '(s', ok) := store_token now td s in
          if ok then (s', (evs ++ [EvSuccess])%list, RunRerun)
          else (s', evs, RunCrash)
        else (s, evs, RunDone)
    | None => (s, evs, RunDone)
    end
  else (s, [], RunDone).

(* ------------------------------------------------------------------ *)
(** ** Session controller of [working_dexcom_app.py] *)

(** Lines 160-183: the callback, guarded by [processing_callback];
    the query parameters are cleared before the exchange. *)
Definition handle_callback_w (cfg : config) (net : server)
    (q : query) (s : session) : session * query * list event * run_end :=
  match q_code q with
  | Some auth_code =>
      if negb (processing_callback s) && is_None (access_token s) then
        let s0 := set_processing_callback true s in
        let '(evs, token_data) := exchange_code_for_token_w cfg net auth_code in
        let stored :=
          match token_data with
          | Some td =>
              if truthy td then
                match td with
                | PDict kvs =>
                    Some (set_refresh_token (dict_get kvs "refresh_token" PNone)
                            (set_access_token (dict_get kvs "access_token" PNone) s0),
                          [EvSuccess])
                | _ => None
                end
              else Some (s0, [EvError EExchangeFailed])
          | None => Some (s0, [EvError EExchangeFailed])
          end in
        match stored with
        | Some (s1, evs') =>
            (set_processing_callback false s1, query_cleared,
             (evs ++ evs')%list, RunRerun)
        | None => (s0, query_cleared, evs, RunCrash)
        end
      else (s, q, [], RunDone)
  | None => (s, q, [], RunDone)
  end.



(* ------------------------------------------------------------------ *)
(** ** Module loading of [dexcom_streamlit_app.py]

    The file defines [get_auth_url], [exchange_code_for_token],
    [refresh_access_token], [get_glucose_data], [plot_glucose_data] and
    [main] twice.  Executing the module runs its top-level statements in
    order; a [def] rebinds the name in the module's globals, and a call
    of [main()] looks its callees up at the time of the call. *)

Inductive exchange_binding :=
| ExchangeWithState
    (f : config -> server -> option string -> string -> string ->
         list event * option pyval)
| ExchangeCodeOnly
    (f : config -> server -> string -> list event * option pyval).

(** A function object; bodies that no claim depends on are named by
    their source lines. *)
Inductive func_def :=
| DExchange (b : exchange_binding)
| DBody (first_line last_line : Z).

Inductive toplevel :=
| TDef (name : string) (d : func_def)
| TRunMain (line : Z)             (* [if __name__ == "__main__": main()] *)
| TStmt (line : Z).               (* imports, assignments, set_page_config *)

Definition dexcom_streamlit_module : list toplevel :=
  [TStmt 13; TStmt 16; TStmt 17; TStmt 18; TStmt 21; TStmt 23; TStmt 24;
   TStmt 25; TStmt 27;
   TDef "validate_credentials" (DBody 34 38);
   TDef "get_auth_url" (DBody 40 53);
   TDef "exchange_code_for_token"
     (DExchange (ExchangeWithState exchange_code_for_token_v1));
   TDef "refresh_access_token" (DBody 90 107);
   TDef "get_glucose_data" (DBody 109 131);
   TDef "plot_glucose_data" (DBody 133 205);
   TDef "main" (DBody 207 397);
   TRunMain 399;
   TStmt 402;
   TDef "get_auth_url" (DBody 404 412);
   TDef "exchange_code_for_token"
     (DExchange (ExchangeCodeOnly exchange_code_for_token_v2));
   TDef "refresh_access_token" (DBody 434 451);
   TDef "get_glucose_data" (DBody 453 468);
   TDef "plot_glucose_data" (DBody 470 522);
   TDef "main" (DBody 524 615);
   TRunMain 617].

Definition globals := list (string * func_def).

Fixpoint lookup_global (g : globals) (name : string) : option func_def :=
  match g with
  | [] => None
  | (n, d) :: rest => if String.eqb name n then Some d else lookup_global rest name
  end.

(** The globals once every statement has run. *)
Fixpoint exec_module (g : globals) (body : list toplevel) : globals :=
  match body with
  | [] => g
  | TDef n d :: rest => exec_module ((n, d) :: g) rest
  | _ :: rest => exec_module g rest
  end.

(** The globals seen by the [main()] call of the guard at [line]. *)
Fixpoint globals_at_main (line : Z) (g : globals) (body : list toplevel)
  : option globals :=
  match body with
  | [] => None
  | TDef n d :: rest => globals_at_main line ((n, d) :: g) rest
  | TRunMain l :: rest =>
      if Z.eqb l line then Some g else globals_at_main line g rest
  | TStmt _ :: rest => globals_at_main line g rest
  end.

(** The function a call of [name] inside [main()] reaches, for the call
    of [main()] at [line], and once the module has finished loading. *)
Definition binding_seen_by_main (line : Z) (name : string) : option func_def :=
  match globals_at_main line [] dexcom_streamlit_module with
  | Some g => lookup_global g name
  | None => None
  end.

Definition binding_after_load (name : string) : option func_def :=
  lookup_global (exec_module [] dexcom_streamlit_module) name.

(* ------------------------------------------------------------------ *)
(** ** Readings *)

(** A pandas [Timestamp] by its broken-down fields ([npy_datetimestruct]);
    [ts_nanosecond] is [us * 1000 + ps / 1000], the part below the second. *)
Record timestamp := mk_ts {
  ts_year : Z; ts_month : Z; ts_day : Z;
  ts_hour : Z; ts_minute : Z; ts_second : Z; ts_nanosecond : Z
}.

(** One row of [pd.DataFrame(data['egvs'])] after
    [df['displayTime'] = pd.to_datetime(df['displayTime'])]. *)
Record reading := mk_reading { displayTime : timestamp; value : Z }.

Definition is_leapyear (y : Z) : bool :=
  Z.eqb (Z.rem y 4) 0 && (negb (Z.eqb (Z.rem y 100) 0) || Z.eqb (Z.rem y 400) 0).

Definition days_per_month (leap : bool) : list Z :=
  [31; if leap then 29 else 28; 31; 30; 31; 30; 31; 31; 30; 31; 30; 31].

(** numpy's [get_datetimestruct_days]: days since 1970-01-01 (C division
    truncates, hence [Z.quot]). *)
Definition get_datetimestruct_days (t : timestamp) : Z :=
  let year0 := ts_year t - 1970 in
  let days0 := year0 * 365 in
  let days1 :=
    if Z.leb 0 days0 then
      let y1 := year0 + 1 in
      let d1 := days0 + Z.quot y1 4 in
      let y2 := y1 + 68 in
      let d2 := d1 - Z.quot y2 100 in
      let y3 := y2 + 300 in
      d2 + Z.quot y3 400
    else
      let y1 := year0 - 2 in
      let d1 := days0 + Z.quot y1 4 in
      let y2 := y1 - 28 in
      let d2 := d1 - Z.quot y2 100 in
      d2 + Z.quot y2 400 in
  let months := firstn (Z.to_nat (ts_month t - 1))
                  (days_per_month (is_leapyear (ts_year t))) in
  days1 + fold_left Z.add months 0 + (ts_day t - 1).

(** The [datetime64[ns]] value pandas stores and numpy compares. *)
Definition ts_key (t : timestamp) : Z :=
  (((get_datetimestruct_days t * 24 + ts_hour t) * 60 + ts_minute t) * 60
   + ts_second t) * 1000000000 + ts_nanosecond t.

(* ------------------------------------------------------------------ *)
(** ** Colour coding and statistics ([plot_glucose_data], lines 133-205;
    [working_dexcom_app.py] lines 73-143 has the same code) *)

Inductive color := Red | Orange | Green.

(** Lines 153-159. *)
Definition classify (v : Z) : color :=
  if Z.ltb v 70 then Red            (* Low *)
  else if Z.ltb 180 v then Orange   (* High *)
  else Green.                       (* In range *)

Definition in_range (v : Z) : bool := Z.leb 70 v && Z.leb v 180.

Record stats := mk_stats {
  avg_glucose : Q;
  min_glucose : Z;
  max_glucose : Z;
  time_in_range : Q;
  total_readings : Z
}.

Definition values_of (df : list reading) : list Z := map value df.

(** Lines 190-194, exact arithmetic in place of floating point:
<<
    in_range_count = ((df['value'] >= 70) & (df['value'] <= 180)).sum()
    time_in_range = (in_range_count / len(df) * 100) if len(df) > 0 else 0
>> *)
Definition in_range_count (df : list reading) : Z :=
  Z.of_nat (length (filter in_range (values_of df))).

Definition compute_time_in_range (df : list reading) : Q :=
  let n := Z.of_nat (length df) in
  if Z.ltb 0 n then (inject_Z (in_range_count df) / inject_Z n * 100)%Q
  else 0%Q.

Definition compute_stats (df : list reading) : stats :=
  let vs := values_of df in
  let n := Z.of_nat (length df) in
  mk_stats (inject_Z (fold_left Z.add vs 0%Z) / inject_Z n)%Q
    (fold_left Z.min vs (hd 0 vs)) (fold_left Z.max vs (hd 0 vs))
    (compute_time_in_range df) n.

(** [f"{x:.1f}"] on the values met below: the nearest tenth, in tenths. *)
Definition round_tenths (q : Q) : Z := Qfloor (q * inject_Z 10 + (1 # 2))%Q.

(* ------------------------------------------------------------------ *)
(** ** numpy's generic [aquicksort_] ([npysort/quicksort.cpp]), reached by
    [df.sort_values('displayTime')] with its default [kind='quicksort']:
    pandas argsorts the [datetime64] values and takes the rows in that
    order.  [a] is the index array [tosort], [v] the values; positions
    are [Z] so that pointer arithmetic reads as in C. *)

Section Aquicksort.
Variable v : nat -> Z.

Definition at_ (a : list nat) (p : Z) : nat := nth (Z.to_nat p) a 0%nat.

Definition upd (a : list nat) (p : Z) (x : nat) : list nat :=
  firstn (Z.to_nat p) a ++ x :: skipn (S (Z.to_nat p)) a.

Definition swap_at (a : list nat) (p q : Z) : list nat :=
  let x := at_ a p in let y := at_ a q in upd (upd a p y) q x.

Definition less_at (a : list nat) (p q : Z) : bool := Z.ltb (v (at_ a p)) (v (at_ a q)).

(** [npysort_common.h]: [#define SMALL_QUICKSORT 15]. *)
Definition SMALL_QUICKSORT : Z := 15.

(** [do ++pi; while (v[*pi] < vp);] *)
Fixpoint scan_up (fuel : nat) (a : list nat) (vp : Z) (pi : Z) : Z :=
  match fuel with
  | O => pi
  | S f => if Z.ltb (v (at_ a (pi + 1))) vp then scan_up f a vp (pi + 1) else pi + 1
  end.

(** [do --pj; while (vp < v[*pj]);] *)
Fixpoint scan_down (fuel : nat) (a : list nat) (vp : Z) (pj : Z) : Z :=
  match fuel with
  | O => pj
  | S f => if Z.ltb vp (v (at_ a (pj - 1))) then scan_down f a vp (pj - 1) else pj - 1
  end.

(** The inner [for (;;)] of the partition. *)
Fixpoint partition_loop (fuel : nat) (a : list nat) (vp : Z) (pi pj : Z)
  : list nat * Z :=
  match fuel with
  | O => (a, pi)
  | S f =>
      let pi' := scan_up (length a) a vp pi in
      let pj' := scan_down (length a) a vp pj in
      if Z.leb pj' pi' then (a, pi')
      else partition_loop f (swap_at a pi' pj') vp pi' pj'
  end.

(** The [while ((pr - pl) > SMALL_QUICKSORT)] loop: partition, push the
    larger part with the decremented depth, continue with the smaller. *)
Fixpoint partition_phase (fuel : nat) (a : list nat) (pl pr cdepth : Z)
    (stack : list (Z * Z * Z)) : list nat * Z * Z * Z * list (Z * Z * Z) :=
  match fuel with
  | O => (a, pl, pr, cdepth, stack)
  | S f =>
      if Z.ltb SMALL_QUICKSORT (pr - pl) then
        let pm := pl + Z.shiftr (pr - pl) 1 in
        let a1 := if less_at a pm pl then swap_at a pm pl else a in
        let a2 := if less_at a1 pr pm then swap_at a1 pr pm else a1 in
        let a3 := if less_at a2 pm pl then swap_at a2 pm pl else a2 in
        let vp := v (at_ a3 pm) in
        let a4 := swap_at a3 pm (pr - 1) in
        let '(a5, pi) := partition_loop (length a) a4 vp pl (pr - 1) in
        let a6 := swap_at a5 pi (pr - 1) in
        let cdepth' := cdepth - 1 in
        if Z.ltb (pi - pl) (pr - pi) then
          partition_phase f a6 pl (pi - 1) cdepth' ((pi + 1, pr, cdepth') :: stack)
        else
          partition_phase f a6 (pi + 1) pr cdepth' ((pl, pi - 1, cdepth') :: stack)
      else (a, pl, pr, cdepth, stack)
  end.

(** [while (pj > pl && vp < v[*pk]) { *pj-- = *pk--; } *pj = vi;] *)
Fixpoint insert_shift (fuel : nat) (a : list nat) (pl : Z) (vi : nat) (pj : Z)
  : list nat :=
  match fuel with
  | O => upd a pj vi
  | S f =>
      if Z.ltb pl pj && Z.ltb (v vi) (v (at_ a (pj - 1))) then
        insert_shift f (upd a pj (at_ a (pj - 1))) pl vi (pj - 1)
      else upd a pj vi
  end.

(** [for (pi = pl + 1; pi <= pr; ++pi) ...] *)
Fixpoint insertion_sort_from (fuel : nat) (a : list nat) (pl pi pr : Z)
  : list nat :=
  match fuel with
  | O => a
  | S f =>
      if Z.leb pi pr then
        insertion_sort_from f (insert_shift (length a) a pl (at_ a pi) pi) pl (pi + 1) pr
      else a
  end.

(** [aheapsort_] on the [n] entries from [pl]; heap index [i] (from 1)
    is position [pl + i - 1]. *)
Fixpoint sift_down (fuel : nat) (a : list nat) (pl n : Z) (tmp : nat) (i j : Z)
  : list nat :=
  match fuel with
  | O => upd a (pl + i - 1) tmp
  | S f =>
      if Z.leb j n then
        let j' := if Z.ltb j n && less_at a (pl + j - 1) (pl + j) then j + 1 else j in
        if Z.ltb (v tmp) (v (at_ a (pl + j' - 1))) then
          sift_down f (upd a (pl + i - 1) (at_ a (pl + j' - 1))) pl n tmp j' (j' + j')
        else upd a (pl + i - 1) tmp
      else upd a (pl + i - 1) tmp
  end.

Fixpoint heapify (fuel : nat) (a : list nat) (pl n l : Z) : list nat :=
  match fuel with
  | O => a
  | S f =>
      if Z.ltb 0 l then
        heapify f (sift_down (length a) a pl n (at_ a (pl + l - 1)) l (Z.shiftl l 1)) pl n (l - 1)
      else a
  end.

Fixpoint heap_extract (fuel : nat) (a : list nat) (pl n : Z) : list nat :=
  match fuel with
  | O => a
  | S f =>
      if Z.ltb 1 n then
        let tmp := at_ a (pl + n - 1) in
        let a1 := upd a (pl + n - 1) (at_ a pl) in
        heap_extract f (sift_down (length a) a1 pl (n - 1) tmp 1 2) pl (n - 1)
      else a
  end.

Definition aheapsort (a : list nat) (pl n : Z) : list nat :=
  heap_extract (length a) (heapify (length a) a pl n (Z.shiftr n 1)) pl n.

(** The outer [for (;;)] with its explicit stack. *)
Fixpoint aquicksort_loop (fuel : nat) (a : list nat) (pl pr cdepth : Z)
    (stack : list (Z * Z * Z)) : list nat :=
  match fuel with
  | O => a
  | S f =>
      let '(a', stack') :=
        if Z.ltb cdepth 0 then (aheapsort a pl (pr - pl + 1), stack)
        else
          let '(a1, pl1, pr1, _, stack1) :=
            partition_phase (length a) a pl pr cdepth stack in
          (insertion_sort_from (length a) a1 pl1 (pl1 + 1) pr1, stack1) in
      match stack' with
      | [] => a'
      | (pl', pr', cd') :: rest => aquicksort_loop f a' pl' pr' cd' rest
      end
  end.

(** [npy_get_msb]. *)
Definition npy_get_msb (n : Z) : Z := Z.log2 n.

Definition aquicksort (num : nat) : list nat :=
  let n := Z.of_nat num in
  aquicksort_loop (S num) (seq 0 num) 0 (n - 1) (npy_get_msb n * 2) [].

End Aquicksort.

(** Vocabulary for reasoning about [aquicksort]: the key found at a
    position, the positions a step leaves as they were, and a stretch of
    positions whose keys are in order. *)
Definition key (v : nat -> Z) (a : list nat) (p : Z) : Z := v (at_ a p).

Definition same_out (a b : list nat) (lo hi : Z) : Prop :=
  length b = length a /\
  forall q, 0 <= q -> q < lo \/ hi < q -> at_ b q = at_ a q.

Definition sorted_seg (v : nat -> Z) (a : list nat) (lo hi : Z) : Prop :=
  forall i j, lo <= i -> i <= j -> j <= hi -> key v a i <= key v a j.

(** [aheapsort_] numbers the [n] entries from [pl] as a heap from 1:
    entry [c] sits at [pl + c - 1] and its parent is [c / 2].  The heap
    order holds from node [l] on when no parent from [l] on has a smaller
    key than its child. *)
Definition heap_from (v : nat -> Z) (a : list nat) (pl l n : Z) : Prop :=
  forall c, 2 <= c -> c <= n -> l <= c / 2 ->
    key v a (pl + c - 1) <= key v a (pl + c / 2 - 1).

(** The stretches [[lo, hi]] still to be sorted (the current one and the
    stack), and the order already reached: two positions that no pending
    stretch holds both of are in order. *)
Definition covers (segs : list (Z * Z)) (i j : Z) : Prop :=
  exists s, In s segs /\ fst s <= i /\ j <= snd s.

Definition ordered_except (v : nat -> Z) (a : list nat) (segs : list (Z * Z)) : Prop :=
  forall i j, 0 <= i -> i < j -> j < Z.of_nat (length a) -> ~ covers segs i j ->
    key v a i <= key v a j.

Fixpoint segs_disjoint (segs : list (Z * Z)) : Prop :=
  match segs with
  | [] => True
  | s :: r => Forall (fun t => snd t < fst s \/ snd s < fst t) r /\ segs_disjoint r
  end.

Definition segs_in (n : Z) (segs : list (Z * Z)) : Prop :=
  Forall (fun s => 0 <= fst s /\ fst s <= snd s + 1 /\ snd s < n) segs.

(** The fuel [aquicksort_loop] still needs: one round per pending stretch
    and one per position in it. *)
Fixpoint pending_weight (segs : list (Z * Z)) : Z :=
  match segs with
  | [] => 0
  | s :: r => snd s - fst s + 2 + pending_weight r
  end.

(** [df.sort_values('displayTime')]: the rows in argsort order. *)
Definition sort_values (df : list reading) : list reading :=
  let v := fun i => ts_key (displayTime (nth i df (mk_reading (mk_ts 0 0 0 0 0 0 0) 0))) in
  map (fun i => nth i df (mk_reading (mk_ts 0 0 0 0 0 0 0) 0)) (aquicksort v (length df)).

(** The chart series: sorted rows with their marker colours
    (lines 146-169). *)
Definition to_chart_series (df : list reading) : list (reading * color) :=
  let sorted := sort_values df in
  map (fun r => (r, classify (value r))) sorted.

Inductive plot_result :=
| NoDataWarning                 (* line 136 *)
| NoReadingsWarning             (* line 141 *)
| Plotted (series : list (reading * color)) (st : stats).

(** [plot_glucose_data(data)]; [None] stands for a falsy [data] or one
    without an ['egvs'] key. *)
Definition plot_glucose_data (egvs : option (list reading)) : plot_result :=
  match egvs with
  | None => NoDataWarning
  | Some [] => NoReadingsWarning
  | Some df =>
      let sorted := sort_values df in
      Plotted (to_chart_series df) (compute_stats sorted)
  end.

(* ------------------------------------------------------------------ *)
(** ** CSV export ([df.to_csv(index=False)], lines 336-349;
    [working_dexcom_app.py] lines 235-248)

    The CSV text is a list of characters.  pandas formats the
    [datetime64] column with [format_array_from_datetime] and hands the
    rows to Python's [csv.writer] (QUOTE_MINIMAL, comma delimiter,
    double-quote quote character, line terminator LF). *)

Local Open Scope list_scope.

Definition QUOTE : ascii := ascii_of_nat 34.
Definition NL : ascii := ascii_of_nat 10.
Definition CR : ascii := ascii_of_nat 13.
Definition COMMA : ascii := ","%char.

Definition chars (s : string) : list ascii := list_ascii_of_string s.

Definition digit_char (d : Z) : ascii := ascii_of_nat (48 + Z.to_nat d).
Definition is_digit (c : ascii) : bool :=
  Nat.leb 48 (nat_of_ascii c) && Nat.leb (nat_of_ascii c) 57.
Definition digit_val (c : ascii) : Z := Z.of_nat (nat_of_ascii c) - 48.

(** Decimal digits of [z >= 0], most significant first. *)
Fixpoint dec_digits (fuel : nat) (z : Z) (acc : list ascii) : list ascii :=
  match fuel with
  | O => acc
  | S f =>
      let acc' := digit_char (z mod 10) :: acc in
      if Z.ltb z 10 then acc' else dec_digits f (z / 10) acc'
  end.

Definition show_nonneg (z : Z) : list ascii :=
  dec_digits (S (Z.to_nat (Z.log2 z))) z [].

(** [str(z)] for a Python [int]. *)
Definition show_int (z : Z) : list ascii :=
  if Z.ltb z 0 then "-"%char :: show_nonneg (- z) else show_nonneg z.

(** [f"{z:0nd}"] for [z >= 0]. *)
Definition show_padded (n : nat) (z : Z) : list ascii :=
  let ds := show_nonneg z in
  repeat "0"%char (n - length ds) ++ ds.

(** Resolutions, finest first ([Resolution.RESO_NS] = 0, ...). *)
Inductive reso := RESO_NS | RESO_US | RESO_MS | RESO_SEC | RESO_MIN | RESO_HR | RESO_DAY.

Definition reso_rank (r : reso) : nat :=
  match r with
  | RESO_NS => 0 | RESO_US => 1 | RESO_MS => 2 | RESO_SEC => 3
  | RESO_MIN => 4 | RESO_HR => 5 | RESO_DAY => 6
  end.

(** [_reso_stamp]: [dts.us = ns / 1000], [dts.ps = (ns mod 1000) * 1000]. *)
Definition reso_stamp (t : timestamp) : reso :=
  let us := ts_nanosecond t / 1000 in
  let ps := (ts_nanosecond t mod 1000) * 1000 in
  if negb (Z.eqb ps 0) then RESO_NS
  else if negb (Z.eqb us 0) then
    (if Z.eqb (us mod 1000) 0 then RESO_MS else RESO_US)
  else if negb (Z.eqb (ts_second t) 0) then RESO_SEC
  else if negb (Z.eqb (ts_minute t) 0) then RESO_MIN
  else if negb (Z.eqb (ts_hour t) 0) then RESO_HR
  else RESO_DAY.

(** [get_resolution]: the finest resolution of the column. *)
Definition get_resolution (ts : list timestamp) : reso :=
  fold_left (fun r t => if Nat.ltb (reso_rank (reso_stamp t)) (reso_rank r)
                        then reso_stamp t else r) ts RESO_DAY.

(** One value of [format_array_from_datetime]: [day_only] is the
    [_is_dates_only] case (format ["%Y-%m-%d"]), otherwise the basic
    format with the fraction chosen by the column's resolution. *)
Definition format_ts (day_only : bool) (r : reso) (t : timestamp) : list ascii :=
  let date := show_int (ts_year t) ++ "-"%char :: show_padded 2 (ts_month t)
              ++ "-"%char :: show_padded 2 (ts_day t) in
  if day_only then date
  else
    let us := ts_nanosecond t / 1000 in
    let base := date ++ " "%char :: show_padded 2 (ts_hour t) ++ ":"%char
                  :: show_padded 2 (ts_minute t) ++ ":"%char
                  :: show_padded 2 (ts_second t) in
    match r with
    | RESO_NS => base ++ "."%char :: show_padded 9 (ts_nanosecond t)
    | RESO_US => base ++ "."%char :: show_padded 6 us
    | RESO_MS => base ++ "."%char :: show_padded 3 (us / 1000)
    | _ => base
    end.

(** [DatetimeArray._is_dates_only]: every value at midnight. *)
Definition is_dates_only (ts : list timestamp) : bool :=
  forallb (fun t => Z.eqb (ts_hour t) 0 && Z.eqb (ts_minute t) 0
                    && Z.eqb (ts_second t) 0 && Z.eqb (ts_nanosecond t) 0) ts.

Definition format_ts_column (ts : list timestamp) : list (list ascii) :=
  map (format_ts (is_dates_only ts) (get_resolution ts)) ts.

(** QUOTE_MINIMAL: quote a field holding the delimiter, the quote
    character or a line break, doubling the quotes inside. *)
Definition needs_quote (f : list ascii) : bool :=
  existsb (fun c => Ascii.eqb c COMMA || Ascii.eqb c QUOTE
                    || Ascii.eqb c NL || Ascii.eqb c CR) f.

Definition csv_field (f : list ascii) : list ascii :=
  if needs_quote f then
    QUOTE :: flat_map (fun c => if Ascii.eqb c QUOTE then [QUOTE; QUOTE] else [c]) f
          ++ [QUOTE]
  else f.

Fixpoint join_fields (fs : list (list ascii)) : list ascii :=
  match fs with
  | [] => []
  | [f] => csv_field f
  | f :: rest => csv_field f ++ COMMA :: join_fields rest
  end.

Definition csv_row (fs : list (list ascii)) : list ascii := join_fields fs ++ [NL].

(** [df.to_csv(index=False)] for the columns [displayTime] and [value]. *)
Definition to_csv (df : list reading) : list ascii :=
  let tcol := format_ts_column (map displayTime df) in
  let vcol := map (fun r => show_int (value r)) df in
  csv_row [chars "displayTime"; chars "value"]
  ++ flat_map (fun '(t, x) => csv_row [t; x]) (combine tcol vcol).

(* ------------------------------------------------------------------ *)
(** ** Reading the CSV back ([pd.read_csv(..., parse_dates=['displayTime'])])

    A tokenizer in the manner of Python's [csv] reader (blank lines are
    skipped), then the ISO timestamp and the integer of each row. *)

Inductive tok_state := StartRecord | StartField | InField | InQuoted | QuoteInQuoted.

Fixpoint csv_tokenize (cs : list ascii) (st : tok_state) (fld : list ascii)
    (row : list (list ascii)) : option (list (list (list ascii))) :=
  match cs with
  | [] =>
      match st with
      | StartRecord => Some []
      | InQuoted => None
      | _ => Some [row ++ [fld]]
      end
  | c :: cs' =>
      match st with
      | StartRecord =>
          if Ascii.eqb c NL then csv_tokenize cs' StartRecord [] []
          else if Ascii.eqb c QUOTE then csv_tokenize cs' InQuoted [] row
          else if Ascii.eqb c COMMA then csv_tokenize cs' StartField [] (row ++ [[]])
          else csv_tokenize cs' InField [c] row
      | StartField =>
          if Ascii.eqb c NL then
            option_map (cons (row ++ [[]])) (csv_tokenize cs' StartRecord [] [])
          else if Ascii.eqb c QUOTE then csv_tokenize cs' InQuoted [] row
          else if Ascii.eqb c COMMA then csv_tokenize cs' StartField [] (row ++ [[]])
          else csv_tokenize cs' InField [c] row
      | InField =>
          if Ascii.eqb c NL then
            option_map (cons (row ++ [fld])) (csv_tokenize cs' StartRecord [] [])
          else if Ascii.eqb c COMMA then csv_tokenize cs' StartField [] (row ++ [fld])
          else csv_tokenize cs' InField (fld ++ [c]) row
      | InQuoted =>
          if Ascii.eqb c QUOTE then csv_tokenize cs' QuoteInQuoted fld row
          else csv_tokenize cs' InQuoted (fld ++ [c]) row
      | QuoteInQuoted =>
          if Ascii.eqb c QUOTE then csv_tokenize cs' InQuoted (fld ++ [c]) row
          else if Ascii.eqb c NL then
            option_map (cons (row ++ [fld])) (csv_tokenize cs' StartRecord [] [])
          else if Ascii.eqb c COMMA then csv_tokenize cs' StartField [] (row ++ [fld])
          else csv_tokenize cs' InField (fld ++ [c]) row
      end
  end.

(** The longest prefix of digits, and the rest. *)
Fixpoint span_digits (cs : list ascii) : list ascii * list ascii :=
  match cs with
  | c :: rest =>
      if is_digit c then let '(ds, r) := span_digits rest in (c :: ds, r)
      else ([], cs)
  | [] => ([], [])
  end.

Definition digits_value (ds : list ascii) : Z :=
  fold_left (fun acc c => acc * 10 + digit_val c) ds 0.

(** [int(s)] on an optional minus sign followed by digits. *)
Definition parse_int (cs : list ascii) : option Z :=
  let '(neg, body) :=
    match cs with
    | c :: rest => if Ascii.eqb c "-"%char then (true, rest) else (false, cs)
    | [] => (false, cs)
    end in
  match span_digits body with
  | ([], _) => None
  | (ds, []) => Some (if neg then - digits_value ds else digits_value ds)
  | _ => None
  end.

(** Exactly [n] digits, then the rest. *)
Definition fixed_digits (n : nat) (cs : list ascii) : option (Z * list ascii) :=
  let '(ds, rest) := span_digits cs in
  if Nat.eqb (length ds) n then Some (digits_value ds, rest) else None.

(** [YYYY-MM-DD[ HH:MM:SS[.fraction]]], the fraction of 1 to 9 digits. *)
Definition parse_ts (cs : list ascii) : option timestamp :=
  let '(yd, r1) := span_digits cs in
  match yd, r1 with
  | _ :: _, "-"%char :: r2 =>
      match fixed_digits 2 r2 with
      | Some (mo, "-"%char :: r3) =>
          match fixed_digits 2 r3 with
          | Some (d, []) => Some (mk_ts (digits_value yd) mo d 0 0 0 0)
          | Some (d, " "%char :: r4) =>
              match fixed_digits 2 r4 with
              | Some (h, ":"%char :: r5) =>
                  match fixed_digits 2 r5 with
                  | Some (mi, ":"%char :: r6) =>
                      match fixed_digits 2 r6 with
                      | Some (s, []) => Some (mk_ts (digits_value yd) mo d h mi s 0)
                      | Some (s, "."%char :: r7) =>
                          match span_digits r7 with
                          | (fd, []) =>
                              if Nat.leb 1 (length fd) && Nat.leb (length fd) 9 then
                                Some (mk_ts (digits_value yd) mo d h mi s
                                        (digits_value fd * 10 ^ Z.of_nat (9 - length fd)))
                              else None
                          | _ => None
                          end
                      | _ => None
                      end
                  | _ => None
                  end
              | _ => None
              end
          | _ => None
          end
      | _ => None
      end
  | _, _ => None
  end.

Definition parse_row (fs : list (list ascii)) : option (timestamp * Z) :=
  match fs with
  | [t; x] =>
      match parse_ts t, parse_int x with
      | Some t', Some x' => Some (t', x')
      | _, _ => None
      end
  | _ => None
  end.

Fixpoint parse_rows (rows : list (list (list ascii))) : option (list (timestamp * Z)) :=
  match rows with
  | [] => Some []
  | r :: rest =>
      match parse_row r, parse_rows rest with
      | Some p, Some ps => Some (p :: ps)
      | _, _ => None
      end
  end.

Definition read_csv (cs : list ascii) : option (list (timestamp * Z)) :=
  match csv_tokenize cs StartRecord [] [] with
  | Some (header :: rows) =>
      if list_eq_dec (list_eq_dec ascii_dec) header [chars "displayTime"; chars "value"]
      then parse_rows rows else None
  | _ => None
  end.

(** The field ranges of a [Timestamp]. *)
Definition valid_ts (t : timestamp) : Prop :=
  1 <= ts_year t /\ 1 <= ts_month t <= 12 /\ 1 <= ts_day t <= 31 /\
  0 <= ts_hour t < 24 /\ 0 <= ts_minute t < 60 /\ 0 <= ts_second t < 60 /\
  0 <= ts_nanosecond t < 1000000000.

(* ------------------------------------------------------------------ *)
(** ** The login URL ([get_auth_url], lines 40-53 and 404-412;
    [working_dexcom_app.py] lines 26-34)

    Strings stand for the UTF-8 bytes of Python's [str]. *)

Definition AUTH_URL : string := (BASE_URL ++ "/v2/oauth2/login")%string.

(** [urllib.parse._ALWAYS_SAFE]: ASCII letters, digits and [_.-~]. *)
Definition always_safe (c : ascii) : bool :=
  let n := nat_of_ascii c in
  (Nat.leb 65 n && Nat.leb n 90) || (Nat.leb 97 n && Nat.leb n 122)
  || (Nat.leb 48 n && Nat.leb n 57)
  || Nat.eqb n 95 || Nat.eqb n 46 || Nat.eqb n 45 || Nat.eqb n 126.

(** An upper-case hex digit, as ["%{:02X}"] writes it. *)
Definition hex_upper (d : nat) : ascii :=
  if Nat.ltb d 10 then ascii_of_nat (48 + d) else ascii_of_nat (55 + d).

(** [quote_plus(s, safe='')], byte by byte: a safe byte is kept, a space
    becomes [+], any other byte [%XX]. *)
Definition quote_byte (c : ascii) : list ascii :=
  if always_safe c then [c]
  else if Ascii.eqb c " "%char then ["+"%char]
  else ["%"%char; hex_upper (nat_of_ascii c / 16); hex_upper (nat_of_ascii c mod 16)].

Definition quote_plus (s : list ascii) : list ascii := flat_map quote_byte s.

(** ['&'.join(l)]. *)
Fixpoint join_amp (xs : list (list ascii)) : list ascii :=
  match xs with
  | [] => []
  | [x] => x
  | x :: rest => x ++ "&"%char :: join_amp rest
  end.

(** [urllib.parse.urlencode(params)] on string keys and values (its
    default [quote_via=quote_plus]), in the dict's insertion order. *)
Definition urlencode (params : list (string * string)) : list ascii :=
  join_amp (map (fun '(k, v) => quote_plus (chars k) ++ "="%char :: quote_plus (chars v))
                params).

Definition set_oauth_state (st : option string) (s : session) : session :=
  mk_session (access_token s) (refresh_token s) (token_expires_at s) st
    (processing_callback s).

Definition auth_params (cfg : config) : list (string * string) :=
  [("client_id", CLIENT_ID cfg); ("redirect_uri", REDIRECT_URI cfg);
   ("response_type", "code"); ("scope", "offline_access")].

(** Lines 40-53, the first definition: [token_urlsafe] is the value
    [secrets.token_urlsafe(32)] returns, used only when the key
    [oauth_state] is absent. *)
Definition get_auth_url_v1 (cfg : config) (token_urlsafe : string) (s : session)
  : session * string :=
  let s1 := match oauth_state s with
            | Some _ => s
            | None => set_oauth_state (Some token_urlsafe) s
            end in
  let st := match oauth_state s1 with Some x => x | None => token_urlsafe end in
  (s1, (AUTH_URL ++ "?"
        ++ string_of_list_ascii (urlencode (auth_params cfg ++ [("state", st)])))%string).

(** Lines 404-412, the second definition, and [working_dexcom_app.py]
    lines 26-34: the same parameters without [state]. *)
Definition get_auth_url_v2 (cfg : config) : string :=
  (AUTH_URL ++ "?" ++ string_of_list_ascii (urlencode (auth_params cfg)))%string.

(** Reading a query string back with [urllib.parse.parse_qsl(qs)] and
    its defaults ([keep_blank_values=False], separator [&]).  [unquote]
    turns [%XX] (either case) into its byte and keeps any other [%]; the
    final UTF-8 decoding is the identity on the bytes of a [str]. *)
Definition is_hex (c : ascii) : bool :=
  let n := nat_of_ascii c in
  (Nat.leb 48 n && Nat.leb n 57) || (Nat.leb 65 n && Nat.leb n 70)
  || (Nat.leb 97 n && Nat.leb n 102).

Definition hex_val (c : ascii) : nat :=
  let n := nat_of_ascii c in
  if Nat.leb n 57 then n - 48 else if Nat.leb n 70 then n - 55 else n - 87.

Fixpoint unquote (cs : list ascii) : list ascii :=
  match cs with
  | [] => []
  | c :: rest =>
      match rest with
      | a :: b :: r =>
          if Ascii.eqb c "%"%char && is_hex a && is_hex b
          then ascii_of_nat (hex_val a * 16 + hex_val b) :: unquote r
          else c :: unquote rest
      | _ => c :: unquote rest
      end
  end.

(** [s.split(sep)]. *)
Fixpoint split_on (sep : ascii) (cs : list ascii) : list (list ascii) :=
  match cs with
  | [] => [[]]
  | c :: rest =>
      if Ascii.eqb c sep then [] :: split_on sep rest
      else match split_on sep rest with
           | x :: xs => (c :: x) :: xs
           | [] => [[c]]
           end
  end.

(** [s.split('=', 1)], when it has two parts. *)
Fixpoint split_eq (cs : list ascii) : option (list ascii * list ascii) :=
  match cs with
  | [] => None
  | c :: rest =>
      if Ascii.eqb c "="%char then Some ([], rest)
      else option_map (fun '(n, v) => (c :: n, v)) (split_eq rest)
  end.

Definition plus_to_space (cs : list ascii) : list ascii :=
  map (fun c => if Ascii.eqb c "+"%char then " "%char else c) cs.

(** One field: an empty one, one without [=] and one with an empty
    value are dropped. *)
Definition parse_qsl_field (name_value : list ascii) : list (string * string) :=
  match name_value with
  | [] => []
  | _ =>
      match split_eq name_value with
      | None => []
      | Some (_, []) => []
      | Some (n, v) =>
          [(string_of_list_ascii (unquote (plus_to_space n)),
            string_of_list_ascii (unquote (plus_to_space v)))]
      end
  end.

Definition parse_qsl (qs : list ascii) : list (string * string) :=
  let query_args := match qs with [] => [] | _ => split_on "&"%char qs end in
  flat_map parse_qsl_field query_args.

(* ------------------------------------------------------------------ *)
(** ** The rest of the first [main()] *)

(** Line 256: the dashboard is shown when the access token is truthy;
    otherwise the login link of lines 350-397. *)
Definition shows_dashboard_v1 (s : session) : bool := truthy (access_token s).

(* ------------------------------------------------------------------ *)
(** ** A page load of [dexcom_streamlit_app.py]

    Streamlit executes the whole file in every run.  The call [main()]
    at line 400 runs the first [main]; when it returns, lines 402-522
    rebind the names and line 618 calls the second [main] (lines
    524-615) in the same run.  [st.rerun()] ends the run and starts the
    next one from the top with the session and the query parameters as
    they are.  The runs modelled here are those in which no button is
    pressed. *)

(** Lines 34-38, tested by the first [main] at line 212; the second
    [main] tests the same at line 529.  An unset variable reads as the
    empty string here, both being falsy. *)
Definition validate_credentials (cfg : config) : bool :=
  negb (String.eqb (CLIENT_ID cfg) "") && negb (String.eqb (CLIENT_SECRET cfg) "").

(** The first definitions pass [timeout=30] to [requests.post]; the
    second ones wait for the answer however long it takes.  [net] is the
    token endpoint's answer and [late] tells whether it comes after more
    than 30 s, which a request with [timeout=30] sees as a timeout. *)
Definition with_timeout_30 (net : server) (late : string -> payload -> bool) : server :=
  fun url data => if late url data then HTimeout else net url data.

(** Lines 547-558, the callback of the second [main]: no [state]
    argument, the query parameters stay, no expiry is stored and the
    check is [access_token is None].  [token_data.get] raises
    [AttributeError] on a truthy body that is not a JSON object. *)
Definition handle_callback_v2 (cfg : config) (net : server) (q : query) (s : session)
  : session * list event * run_end :=
  match q_code q with
  | Some auth_code =>
      if is_None (access_token s) then
        let '(evs, token_data) := exchange_code_for_token_v2 cfg net auth_code in
        match token_data with
        | Some td =>
            if truthy td then
              match td with
              | PDict kvs =>
                  (set_refresh_token (dict_get kvs "refresh_token" PNone)
                     (set_access_token (dict_get kvs "access_token" PNone) s),
                   (evs ++ [EvSuccess])%list, RunRerun)
              | _ => (s, evs, RunCrash)
              end
            else (s, evs, RunDone)
        | None => (s, evs, RunDone)
        end
      else (s, [], RunDone)
  | None => (s, [], RunDone)
  end.

(** One run of the file with the page's query [q]: the first [main]
    (its callback, lines 236-253, then the dashboard at line 256 or the
    login link of lines 350-397, whose [get_auth_url] may store a
    state), then, when it returns, the second [main].  [tok] is what
    [secrets.token_urlsafe(32)] returns when it is called. *)
Definition page_run_dx (cfg : config) (net : server) (late : string -> payload -> bool)
    (tok : string) (now : Z) (q : query) (s : session)
  : session * query * list event * run_end :=
  if negb (validate_credentials cfg) then (s, q, [], RunDone)
  else
    let '(s1, q1, evs1, e1) := handle_callback_v1 cfg (with_timeout_30 net late) now q s in
    match e1 with
    | RunDone =>
        let s2 := if shows_dashboard_v1 s1 then s1 else fst (get_auth_url_v1 cfg tok s1) in
        let '(s3, evs3, e3) := handle_callback_v2 cfg net q1 s2 in
        (s3, q1, (evs1 ++ evs3)%list, e3)
    | _ => (s1, q1, evs1, e1)
    end.

(** A page load: the first run and the reruns that [st.rerun()]
    starts, at most [fuel] of them. *)
Fixpoint page_load_dx (cfg : config) (net : server) (late : string -> payload -> bool)
    (tok : string) (now : Z) (fuel : nat) (q : query) (s : session)
  : session * query * list event :=
  let '(s1, q1, evs1, e1) := page_run_dx cfg net late tok now q s in
  match e1, fuel with
  | RunRerun, S f =>
      let '(s2, q2, evs2) := page_load_dx cfg net late tok now f q1 s1 in
      (s2, q2, (evs1 ++ evs2)%list)
  | _, _ => (s1, q1, evs1)
  end.


(** A naive [datetime] and a [date]. *)
Record datetime := mk_datetime {
  dt_year : Z; dt_month : Z; dt_day : Z;
  dt_hour : Z; dt_minute : Z; dt_second : Z; dt_microsecond : Z
}.

Record date := mk_date { d_year : Z; d_month : Z; d_day : Z }.

(** [datetime.combine(d, datetime.min.time())] and
    [datetime.combine(d, datetime.max.time())] (lines 327-328). *)
Definition combine_min (d : date) : datetime :=
  mk_datetime (d_year d) (d_month d) (d_day d) 0 0 0 0.
Definition combine_max (d : date) : datetime :=
  mk_datetime (d_year d) (d_month d) (d_day d) 23 59 59 999999.

(** [datetime.isoformat()] of a naive [datetime]: the microseconds are
    written only when they are not zero. *)
Definition isoformat (t : datetime) : list ascii :=
  show_padded 4 (dt_year t) ++ "-"%char :: show_padded 2 (dt_month t)
  ++ "-"%char :: show_padded 2 (dt_day t)
  ++ "T"%char :: show_padded 2 (dt_hour t) ++ ":"%char
  :: show_padded 2 (dt_minute t) ++ ":"%char :: show_padded 2 (dt_second t)
  ++ (if Z.eqb (dt_microsecond t) 0 then []
      else "."%char :: show_padded 6 (dt_microsecond t)).

Definition API_URL : string := (BASE_URL ++ "/v2/users/self")%string.

(** The data API as seen by [requests.get]: URL, [Authorization] header
    and query parameters. *)
Definition api_server := string -> string -> list (string * list ascii) -> http_outcome.

(** Messages of [get_glucose_data]. *)
Inductive fetch_error :=
| FExpired              (* "Access token expired" (401) *)
| FForbidden            (* "Access forbidden" (403) *)
| FApiError (status : Z)
| FFetchError.          (* any other [RequestException] *)

Definition egvs_url : string := (API_URL ++ "/egvs")%string.

Definition egvs_params (start_date end_date : datetime) : list (string * list ascii) :=
  [("startDate", isoformat start_date); ("endDate", isoformat end_date)].

(** Lines 109-131, the first definition; [access_token] is the token
    string of the session.  A body that is not JSON makes
    [response.json()] raise [requests.exceptions.JSONDecodeError], a
    [RequestException].  The error paths return [None], the same value
    as a JSON [null] body. *)
Definition get_glucose_data_v1 (api : api_server) (access_token : string)
    (start_date end_date : datetime) : list fetch_error * pyval :=
  match api egvs_url ("Bearer " ++ access_token)%string
          (egvs_params start_date end_date) with
  | HResp st body =>
      if raise_for_status st then
        ([if Z.eqb st 401 then FExpired
          else if Z.eqb st 403 then FForbidden
          else FApiError st], PNone)
      else
        match body with
        | Some v => ([], v)
        | None => ([FFetchError], PNone)
        end
  | HTimeout | HConnError => ([FFetchError], PNone)
  end.

(* ------------------------------------------------------------------ *)
(** ** [plot_glucose_data], second definition (lines 470-522) *)

Inductive plot_result_v2 :=
| NoDataWarning2
| NoReadingsWarning2
| Plotted2 (series : list reading) (avg : Q) (min max : Z) (in_range_pct : Q).

(** The rows are plotted in the order received, with no colours; the
    in-range share has no guard, the empty frame having returned. *)
Definition plot_glucose_data_v2 (egvs : option (list reading)) : plot_result_v2 :=
  match egvs with
  | None => NoDataWarning2
  | Some [] => NoReadingsWarning2
  | Some df =>
      let vs := values_of df in
      let n := Z.of_nat (length df) in
      Plotted2 df (inject_Z (fold_left Z.add vs 0%Z) / inject_Z n)%Q
        (fold_left Z.min vs (hd 0 vs)) (fold_left Z.max vs (hd 0 vs))
        (inject_Z (in_range_count df) / inject_Z n * 100)%Q
  end.

(* ================================================================== *)
(** * Properties *)

(** Concrete configuration and sessions used by the examples. *)
Definition cfg0 : config := mk_config "client" "secret" "http://localhost:8501".
Definition now0 : Z := 63871286400 * USEC.   (* 2025-01-01 00:00:00 *)
Definition fresh_session (st : option string) : session :=
  mk_session PNone PNone None st false.

(** A reading at 08:[minute] on 2025-01-01. *)
Definition reading_at (minute v : Z) : reading :=
  mk_reading (mk_ts 2025 1 1 8 minute 0 0) v.

(** The token response of a successful exchange. *)
Definition ok_server (kvs : list (string * pyval)) : server :=
  fun _ _ => HResp 200 (Some (PDict kvs)).

Definition authed_session : session :=
  mk_session (PStr "old-access") (PStr "old-refresh") (Some now0) (Some "s0") false.


Definition invalid_grant_server : server :=
  fun _ _ => HResp 400 (Some (PDict [("error", PStr "invalid_grant")])).

Definition no_access_token_server : server :=
  ok_server [("refresh_token", PStr "r"); ("expires_in", PInt 7200)].

Definition full_token_response : list (string * pyval) :=
  [("access_token", PStr "a"); ("refresh_token", PStr "r");
   ("expires_in", PInt 3600)].

(** Seventeen readings taken at the same minute, with values 0 to 16 in
    their original order. *)
Definition tied_readings : list reading :=
  map (fun k => reading_at 0 (Z.of_nat k)) (seq 0 17).

(** Token responses: one whose [access_token] is the empty string, and
    one whose [expires_in] is a string. *)
Definition empty_token_kvs : list (string * pyval) :=
  [("access_token", PStr ""); ("refresh_token", PStr "r"); ("expires_in", PInt 3600)].

Definition string_expiry_kvs : list (string * pyval) :=
  [("access_token", PStr "a"); ("refresh_token", PStr "r"); ("expires_in", PStr "3600")].

(* ------------------------------------------------------------------ *)
(** ** C1 *)

(** C1: In the first [main()] (the call at line 400) the name
    [exchange_code_for_token] is bound to the definition of lines 55-88.
    For every code, whenever the callback's [state] differs from the
    stored [oauth_state] or no state was ever stored, that function
    answers with the security error and no POST, and the callback
    handling of lines 236-253 leaves the session as it was and makes no
    request to the token endpoint. *)
Theorem exchange_rejects_state_mismatch :
  forall (cfg : config) (net : server) (stored : option string)
         (auth_code state : string),
    stored <> Some state ->
    binding_seen_by_main 399 "exchange_code_for_token"
      = Some (DExchange (ExchangeWithState exchange_code_for_token_v1)) /\
    exchange_code_for_token_v1 cfg net stored auth_code state
      = ([EvError ESecurityState], None) /\
    (forall now s,
        oauth_state s = stored ->
        let '(s', _, evs, e) :=
          handle_callback_v1 cfg net now (mk_query (Some auth_code) (Some state)) s in
        s' = s /\ count_posts evs = 0%nat /\ e = RunDone).
Proof.
  intros cfg net stored auth_code state Hne.
  assert (Hx : exchange_code_for_token_v1 cfg net stored auth_code state
               = ([EvError ESecurityState], None)).
  { unfold exchange_code_for_token_v1.
    destruct stored as [s0|]; [|reflexivity].
    destruct (String.eqb state s0) eqn:E; [|reflexivity].
    apply String.eqb_eq in E; subst. congruence. }
  split; [reflexivity|]. split; [exact Hx|].
  intros now s Hs. unfold handle_callback_v1; simpl.
  destruct (is_None (access_token s)); [|auto].
  rewrite Hs, Hx. auto.
Qed.

Lemma exchange_rejects_state_mismatch_witness :
  Some "issued" <> Some "forged" /\
  exchange_code_for_token_v1 cfg0 (fun _ _ => HResp 200 (Some (PDict [])))
    (Some "issued") "code" "forged" = ([EvError ESecurityState], None).
Proof.
  assert (H : Some "issued" <> Some "forged") by discriminate.
  split; [exact H|].
  exact (proj1 (proj2 (exchange_rejects_state_mismatch cfg0
           (fun _ _ => HResp 200 (Some (PDict []))) (Some "issued") "code" "forged" H))).
Defined.

(* ------------------------------------------------------------------ *)
(** ** C10 *)

(** C10: Once [dexcom_streamlit_app.py] has finished loading, the name
    [exchange_code_for_token] is bound to the second definition (lines
    414-432), which takes only the authorization code: for every code it
    first POSTs the code to the token endpoint, makes exactly one request,
    and never answers with the security (state) error. *)
Theorem final_exchange_binding_skips_state_check :
  binding_after_load "exchange_code_for_token"
    = Some (DExchange (ExchangeCodeOnly exchange_code_for_token_v2)) /\
  (forall (cfg : config) (net : server) (auth_code : string),
      let '(evs, _) := exchange_code_for_token_v2 cfg net auth_code in
      hd_error evs = Some (EvPost TOKEN_URL (auth_code_payload cfg auth_code)) /\
      count_posts evs = 1%nat /\
      ~ In (EvError ESecurityState) evs).
Proof.
  split; [reflexivity|].
  intros cfg net auth_code. unfold exchange_code_for_token_v2.
  destruct (net TOKEN_URL (auth_code_payload cfg auth_code)) as [st [v|]| |];
    try (destruct (raise_for_status st));
    simpl; repeat split; intros H; repeat (destruct H as [H|H]; try discriminate H);
    contradiction.
Qed.

(* ------------------------------------------------------------------ *)
(** ** C6 *)

(** C6: The colour of a reading is a total three-way classification:
    red (low) exactly below 70, green (in range) exactly on [70, 180] --
    the same band [in_range_count] counts -- and orange (high) exactly
    above 180.  The readings 60, 100, 190 are plotted red, green, orange
    and their time in range is 100/3, shown as 33.3. *)
Theorem classify_three_way :
  (forall v, classify v = Red <-> v < 70) /\
  (forall v, classify v = Green <-> 70 <= v <= 180) /\
  (forall v, classify v = Orange <-> 180 < v) /\
  (forall v, classify v = Green <-> in_range v = true) /\
  match plot_glucose_data
          (Some [reading_at 0 60; reading_at 5 100; reading_at 10 190]) with
  | Plotted series st =>
      map snd series = [Red; Green; Orange] /\
      (time_in_range st == 100 # 3)%Q /\
      round_tenths (time_in_range st) = 333
  | _ => False
  end.
Proof.
  assert (Hc : forall v,
             (v < 70 /\ classify v = Red) \/
             (70 <= v <= 180 /\ classify v = Green) \/
             (180 < v /\ classify v = Orange)).
  { intros v. unfold classify.
    destruct (Z.ltb_spec v 70); [left; split; [lia|reflexivity]|].
    destruct (Z.ltb_spec 180 v); [right; right; split; [lia|reflexivity]|].
    right; left; split; [lia|reflexivity]. }
  assert (Hr : forall v, in_range v = true <-> 70 <= v <= 180).
  { intros v. unfold in_range. rewrite andb_true_iff, !Z.leb_le. tauto. }
  split; [|split; [|split; [|split]]].
  - intros v. destruct (Hc v) as [[H1 H2]|[[H1 H2]|[H1 H2]]]; rewrite H2;
      split; intros H; try discriminate; try lia; reflexivity.
  - intros v. destruct (Hc v) as [[H1 H2]|[[H1 H2]|[H1 H2]]]; rewrite H2;
      split; intros H; try discriminate; try lia; reflexivity.
  - intros v. destruct (Hc v) as [[H1 H2]|[[H1 H2]|[H1 H2]]]; rewrite H2;
      split; intros H; try discriminate; try lia; reflexivity.
  - intros v. rewrite Hr.
    destruct (Hc v) as [[H1 H2]|[[H1 H2]|[H1 H2]]]; rewrite H2;
      split; intros H; try discriminate; try lia; reflexivity.
  - vm_compute. split; [reflexivity|]. split; reflexivity.
Qed.

(* ------------------------------------------------------------------ *)
(** ** C4 *)

(** The [expires_in] of a token response, in microseconds: its value
    when present, 7200 seconds when the key is absent. *)
Lemma store_token_expiry :
  forall now kvs s s' d,
    store_token now (PDict kvs) s = (s', true) ->
    timedelta_seconds (dict_get kvs "expires_in" (PInt 7200)) = Some d ->
    token_expires_at s' = Some (now + d).
Proof.
  intros now kvs s s' d Hst Hd. unfold store_token in Hst. rewrite Hd in Hst.
  unfold datetime_add in Hst.
  destruct (Z.leb 0 (now + d) && Z.leb (now + d) DT_MAX); inversion Hst; reflexivity.
Qed.

Lemma dict_get_absent :
  forall kvs k d, dict_has kvs k = false -> dict_get kvs k d = d.
Proof.
  induction kvs as [|[k' v] rest IH]; intros k d H; simpl in *; [reflexivity|].
  apply orb_false_iff in H. destruct H as [H1 H2]. rewrite H1. auto.
Qed.

Lemma dict_get_present :
  forall kvs k d1 d2 v, dict_get kvs k d1 = v -> dict_has kvs k = true ->
    dict_get kvs k d2 = v.
Proof.
  induction kvs as [|[k' w] rest IH]; intros k d1 d2 v H Hh; simpl in *;
    [discriminate|].
  destruct (String.eqb k k'); [exact H|]. simpl in Hh. eauto.
Qed.

Lemma callback_success_stores :
  forall cfg net now q s s' q' evs,
    handle_callback_v1 cfg net now q s = (s', q', evs, RunRerun) ->
    exists auth_code state kvs,
      q_code q = Some auth_code /\ q_state q = Some state /\
      snd (exchange_code_for_token_v1 cfg net (oauth_state s) auth_code state)
        = Some (PDict kvs) /\
      store_token now (PDict kvs) s = (s', true).
Proof.
  intros cfg net now q s s' q' evs H. unfold handle_callback_v1 in H.
  destruct (q_code q) as [c|]; [|discriminate].
  destruct (q_state q) as [st|]; [|discriminate].
  destruct (is_None (access_token s)); [|discriminate].
  destruct (exchange_code_for_token_v1 cfg net (oauth_state s) c st) as [e [td|]] eqn:Ex;
    [|discriminate].
  destruct (truthy td); [|discriminate].
  destruct (store_token now td s) as [s1 ok] eqn:Hs.
  destruct ok; [|discriminate]. inversion H; subst.
  destruct td; try (simpl in Hs; discriminate).
  exists c, st, kvs. rewrite Ex. auto.
Qed.

Lemma refresh_success_stores :
  forall cfg net now s s' evs,
    handle_refresh_v1 cfg net now s = (s', evs, RunRerun) ->
    exists kvs,
      snd (refresh_access_token_v1 cfg net (refresh_token s)) = Some (PDict kvs) /\
      store_token now (PDict kvs) s = (s', true).
Proof.
  intros cfg net now s s' evs H. unfold handle_refresh_v1 in H.
  destruct (truthy (refresh_token s)); [|discriminate].
  destruct (refresh_access_token_v1 cfg net (refresh_token s)) as [e [td|]] eqn:Ex;
    [|discriminate].
  destruct (truthy td); [|discriminate].
  destruct (store_token now td s) as [s1 ok] eqn:Hs.
  destruct ok; [|discriminate]. inversion H; subst.
  destruct td; try (simpl in Hs; discriminate).
  exists kvs. auto.
Qed.

(** C4: After every successful token exchange (callback, lines 241-253)
    and every successful refresh (lines 293-302), the stored
    [token_expires_at] is the clock reading [now] plus the response's
    [expires_in] seconds, and [now] plus 7200 seconds when the response
    has no [expires_in] field. *)
Theorem token_expiry_now_plus_expires_in :
  forall (cfg : config) (net : server) (now : Z),
    (forall q s s' q' evs auth_code state kvs,
        handle_callback_v1 cfg net now q s = (s', q', evs, RunRerun) ->
        q_code q = Some auth_code -> q_state q = Some state ->
        snd (exchange_code_for_token_v1 cfg net (oauth_state s) auth_code state)
          = Some (PDict kvs) ->
        (dict_has kvs "expires_in" = false ->
           token_expires_at s' = Some (now + 7200 * USEC)) /\
        (forall n, dict_get kvs "expires_in" PNone = PInt n ->
           token_expires_at s' = Some (now + n * USEC))) /\
    (forall s s' evs kvs,
        handle_refresh_v1 cfg net now s = (s', evs, RunRerun) ->
        snd (refresh_access_token_v1 cfg net (refresh_token s)) = Some (PDict kvs) ->
        (dict_has kvs "expires_in" = false ->
           token_expires_at s' = Some (now + 7200 * USEC)) /\
        (forall n, dict_get kvs "expires_in" PNone = PInt n ->
           token_expires_at s' = Some (now + n * USEC))).
Proof.
  intros cfg net now. split.
  - intros q s s' q' evs c st kvs H Hc Hs Hx.
    destruct (callback_success_stores _ _ _ _ _ _ _ _ H)
      as (c' & st' & kvs' & Hc' & Hs' & Hx' & Hst).
    rewrite Hc in Hc'; inversion Hc'; subst c'.
    rewrite Hs in Hs'; inversion Hs'; subst st'.
    rewrite Hx in Hx'; inversion Hx'; subst kvs'.
    split.
    + intros Ha. apply (store_token_expiry now kvs s s'); [exact Hst|].
      rewrite dict_get_absent by exact Ha. reflexivity.
    + intros n Hn. apply (store_token_expiry now kvs s s'); [exact Hst|].
      destruct (dict_has kvs "expires_in") eqn:Hh.
      * rewrite (dict_get_present kvs "expires_in" PNone (PInt 7200) (PInt n) Hn Hh).
        reflexivity.
      * rewrite dict_get_absent in Hn by exact Hh. discriminate.
  - intros s s' evs kvs H Hx.
    destruct (refresh_success_stores _ _ _ _ _ _ H) as (kvs' & Hx' & Hst).
    rewrite Hx in Hx'; inversion Hx'; subst kvs'.
    split.
    + intros Ha. apply (store_token_expiry now kvs s s'); [exact Hst|].
      rewrite dict_get_absent by exact Ha. reflexivity.
    + intros n Hn. apply (store_token_expiry now kvs s s'); [exact Hst|].
      destruct (dict_has kvs "expires_in") eqn:Hh.
      * rewrite (dict_get_present kvs "expires_in" PNone (PInt 7200) (PInt n) Hn Hh).
        reflexivity.
      * rewrite dict_get_absent in Hn by exact Hh. discriminate.
Qed.

Lemma token_expiry_now_plus_expires_in_witness :
  handle_callback_v1 cfg0 (ok_server full_token_response) now0
      (mk_query (Some "c") (Some "s0")) (fresh_session (Some "s0"))
    = (mk_session (PStr "a") (PStr "r") (Some (now0 + 3600 * USEC)) (Some "s0") false,
       query_cleared,
       [EvPost TOKEN_URL (auth_code_payload cfg0 "c"); EvSuccess], RunRerun) /\
  token_expires_at
    (mk_session (PStr "a") (PStr "r") (Some (now0 + 3600 * USEC)) (Some "s0") false)
    = Some (now0 + 3600 * USEC).
Proof.
  assert (H : handle_callback_v1 cfg0 (ok_server full_token_response) now0
                (mk_query (Some "c") (Some "s0")) (fresh_session (Some "s0"))
              = (mk_session (PStr "a") (PStr "r") (Some (now0 + 3600 * USEC))
                   (Some "s0") false,
                 query_cleared,
                 [EvPost TOKEN_URL (auth_code_payload cfg0 "c"); EvSuccess], RunRerun))
    by (vm_compute; reflexivity).
  split; [exact H|].
  exact (proj2 (proj1 (token_expiry_now_plus_expires_in cfg0
                         (ok_server full_token_response) now0)
                  _ _ _ _ _ "c" "s0" full_token_response H eq_refl eq_refl eq_refl)
           3600 eq_refl).
Defined.

(* ------------------------------------------------------------------ *)
(** ** C2 *)


(** Replays against any callback handler that makes at most one request
    per run, clears the URL when it reruns, and does nothing on a cleared
    URL or in a session that holds an access token. *)
Section Replay.
Variable step : query -> session -> session * query * list event * run_end.
Hypothesis step_posts : forall q s s' q' evs e,
  step q s = (s', q', evs, e) -> (count_posts evs <= 1)%nat.
Hypothesis step_rerun_clears : forall q s s' q' evs,
  step q s = (s', q', evs, RunRerun) -> q' = query_cleared.
Hypothesis step_cleared : forall s, step query_cleared s = (s, query_cleared, [], RunDone).
Hypothesis step_authed : forall q s,
  access_token s <> PNone -> step q s = (s, q, [], RunDone).


End Replay.






Lemma get_auth_url_v1_session_kept cfg tok s x :
  oauth_state s = Some x -> fst (get_auth_url_v1 cfg tok s) = s.
Proof. intros H. unfold get_auth_url_v1. rewrite H. reflexivity. Qed.







(* ------------------------------------------------------------------ *)
(** ** C3 *)

(** C3 (as the code behaves): whenever the refresh request fails -- a
    timeout, a connection error, an error status such as the 400 that an
    invalid refresh token draws, or a body that is not JSON -- pressing
    "Refresh Token" shows the refresh error and leaves the whole session
    as it was: the old access token, refresh token and expiry are kept. *)
Theorem failed_refresh_keeps_token_state :
  forall (cfg : config) (net : server) (now : Z) (s : session),
    truthy (refresh_token s) = true ->
    match net TOKEN_URL (refresh_payload cfg (refresh_token s)) with
    | HResp st (Some _) => raise_for_status st = true
    | _ => True
    end ->
    handle_refresh_v1 cfg net now s
      = (s, [EvPost TOKEN_URL (refresh_payload cfg (refresh_token s)); EvError ERefresh],
         RunDone).
Proof.
  intros cfg net now s Ht Hf. unfold handle_refresh_v1, refresh_access_token_v1.
  rewrite Ht.
  destruct (net TOKEN_URL (refresh_payload cfg (refresh_token s))) as [st [b|]| |];
    try reflexivity.
  rewrite Hf. reflexivity.
Qed.

Lemma failed_refresh_keeps_token_state_witness :
  handle_refresh_v1 cfg0 invalid_grant_server now0 authed_session
    = (authed_session,
       [EvPost TOKEN_URL (refresh_payload cfg0 (PStr "old-refresh")); EvError ERefresh],
       RunDone).
Proof.
  exact (failed_refresh_keeps_token_state cfg0 invalid_grant_server now0 authed_session
           eq_refl eq_refl).
Defined.

(** C3 fails as stated: the token server rejects the refresh token with
    [400 invalid_grant], and the session still holds the old access token,
    refresh token and expiry instead of becoming unauthenticated. *)
Lemma invalid_refresh_token_keeps_old_tokens :
  let '(s', _, _) := handle_refresh_v1 cfg0 invalid_grant_server now0 authed_session in
  access_token s' = PStr "old-access" /\ refresh_token s' = PStr "old-refresh" /\
  token_expires_at s' = Some now0.
Proof. vm_compute. repeat split. Qed.

(* ------------------------------------------------------------------ *)
(** ** C9 *)

(** C9 (as the code behaves): a 2xx token response that is a non-empty
    JSON object is accepted whatever fields it has, by the first
    [main]'s callback (lines 236-253) and by [working_dexcom_app.py]
    (lines 160-183).  The tokens are read with [dict.get], so a missing
    [access_token] or [refresh_token] is stored as [None]; no error is
    shown, the success message is, and the script reruns.  In the first
    script this needs [expires_in] to give an expiry (absent, or an
    integer keeping it in the [datetime] range).  A truthy body that is
    not a JSON object is no [ApiError] either: [.get] raises. *)
Theorem token_response_fields_read_with_get :
  forall (cfg : config) (net : server) (now : Z) (auth_code state : string)
         (s : session) (st : Z),
    raise_for_status st = false -> access_token s = PNone ->
    (forall kvs, net TOKEN_URL (auth_code_payload cfg auth_code) = HResp st (Some (PDict kvs)) ->
       kvs <> [] ->
       (forall d t, oauth_state s = Some state ->
          timedelta_seconds (dict_get kvs "expires_in" (PInt 7200)) = Some d ->
          datetime_add now d = Some t ->
          handle_callback_v1 cfg net now (mk_query (Some auth_code) (Some state)) s
            = (mk_session (dict_get kvs "access_token" PNone)
                 (dict_get kvs "refresh_token" PNone) (Some t) (oauth_state s)
                 (processing_callback s),
               query_cleared,
               [EvPost TOKEN_URL (auth_code_payload cfg auth_code); EvSuccess], RunRerun)) /\
       (processing_callback s = false ->
          handle_callback_w cfg net (mk_query (Some auth_code) (Some state)) s
            = (mk_session (dict_get kvs "access_token" PNone)
                 (dict_get kvs "refresh_token" PNone) (token_expires_at s) (oauth_state s)
                 false,
               query_cleared,
               [EvPost TOKEN_URL (auth_code_payload cfg auth_code); EvSuccess], RunRerun))) /\
    (forall v, net TOKEN_URL (auth_code_payload cfg auth_code) = HResp st (Some v) ->
       truthy v = true -> (forall kvs, v <> PDict kvs) -> oauth_state s = Some state ->
       handle_callback_v1 cfg net now (mk_query (Some auth_code) (Some state)) s
         = (s, mk_query (Some auth_code) (Some state),
            [EvPost TOKEN_URL (auth_code_payload cfg auth_code)], RunCrash)).
Proof.
  intros cfg net now c state s st Hr Ha. split.
  - intros kvs Hn Hk. split.
    + intros d t Hs Hd Ht.
      unfold handle_callback_v1. simpl. rewrite Ha. simpl.
      unfold exchange_code_for_token_v1. rewrite Hs, String.eqb_refl. simpl.
      rewrite Hn, Hr.
      destruct kvs as [|kv kvs']; [congruence|].
      cbn -[dict_get timedelta_seconds datetime_add].
      rewrite Hd, Ht. destruct s; simpl in *; subst; reflexivity.
    + intros Hp. unfold handle_callback_w. cbn [q_code]. rewrite Hp, Ha. simpl.
      unfold exchange_code_for_token_w. rewrite Hn, Hr.
      destruct kvs as [|kv kvs']; [congruence|].
      destruct s; simpl in *; subst; reflexivity.
  - intros v Hn Ht Hd Hs. unfold handle_callback_v1. cbn [q_code q_state]. rewrite Ha.
    cbn [is_None]. unfold exchange_code_for_token_v1. rewrite Hs, String.eqb_refl.
    cbn [negb]. rewrite Hn, Hr. rewrite Ht.
    destruct v; try (exfalso; eapply Hd; reflexivity); reflexivity.
Qed.

Lemma token_response_fields_read_with_get_witness :
  handle_callback_v1 cfg0 no_access_token_server now0
      (mk_query (Some "code") (Some "s0")) (fresh_session (Some "s0"))
    = (mk_session PNone (PStr "r") (Some (now0 + 7200 * USEC)) (Some "s0") false,
       query_cleared,
       [EvPost TOKEN_URL (auth_code_payload cfg0 "code"); EvSuccess], RunRerun) /\
  handle_callback_w cfg0 no_access_token_server
      (mk_query (Some "code") (Some "s0")) (fresh_session (Some "s0"))
    = (mk_session PNone (PStr "r") None (Some "s0") false,
       query_cleared,
       [EvPost TOKEN_URL (auth_code_payload cfg0 "code"); EvSuccess], RunRerun) /\
  handle_callback_v1 cfg0 (fun _ _ => HResp 200 (Some (PStr "ok"))) now0
      (mk_query (Some "code") (Some "s0")) (fresh_session (Some "s0"))
    = (fresh_session (Some "s0"), mk_query (Some "code") (Some "s0"),
       [EvPost TOKEN_URL (auth_code_payload cfg0 "code")], RunCrash).
Proof.
  pose proof (token_response_fields_read_with_get cfg0 no_access_token_server now0 "code" "s0"
                (fresh_session (Some "s0")) 200 eq_refl eq_refl) as [A _].
  destruct (A [("refresh_token", PStr "r"); ("expires_in", PInt 7200)] eq_refl
              ltac:(discriminate)) as [A1 A2].
  split; [|split].
  - exact (A1 (7200 * USEC) (now0 + 7200 * USEC) eq_refl eq_refl eq_refl).
  - exact (A2 eq_refl).
  - exact (proj2 (token_response_fields_read_with_get cfg0
             (fun _ _ => HResp 200 (Some (PStr "ok"))) now0 "code" "s0"
             (fresh_session (Some "s0")) 200 eq_refl eq_refl)
             (PStr "ok") eq_refl eq_refl ltac:(discriminate) eq_refl).
Defined.

(** C9 fails as stated: a 200 token response without [access_token] is
    reported as a successful connection, with [None] stored as the access
    token and no error shown. *)
Lemma token_response_without_access_token_accepted :
  let '(s', _, evs, e) :=
    handle_callback_v1 cfg0 no_access_token_server now0
      (mk_query (Some "code") (Some "s0")) (fresh_session (Some "s0")) in
  access_token s' = PNone /\ In EvSuccess evs /\
  (forall err, ~ In (EvError err) evs) /\ e = RunRerun.
Proof.
  vm_compute. split; [reflexivity|]. split; [right; left; reflexivity|].
  split; [|reflexivity]. intros err [H|[H|[]]]; discriminate.
Qed.

(* ------------------------------------------------------------------ *)
(** ** The index array of [aquicksort]: updates and swaps *)

Lemma nth_upd_nat (a : list nat) (k n d x : nat) :
  (k < length a)%nat ->
  nth n (firstn k a ++ x :: skipn (S k) a) d = if Nat.eqb n k then x else nth n a d.
Proof.
  intros Hk.
  assert (Hl : length (firstn k a) = k) by (rewrite length_firstn; lia).
  destruct (Nat.lt_trichotomy n k) as [Hn|[Hn|Hn]].
  - rewrite app_nth1 by lia. rewrite nth_firstn.
    replace (Nat.eqb n k) with false by (symmetry; apply Nat.eqb_neq; lia).
    replace (Nat.ltb n k) with true by (symmetry; apply Nat.ltb_lt; lia). reflexivity.
  - subst n. rewrite app_nth2 by lia. rewrite Hl, Nat.sub_diag, Nat.eqb_refl. reflexivity.
  - rewrite app_nth2 by lia. rewrite Hl.
    replace (n - k)%nat with (S (n - k - 1)) by lia. cbn [nth]. rewrite nth_skipn.
    replace (Nat.eqb n k) with false by (symmetry; apply Nat.eqb_neq; lia).
    f_equal. lia.
Qed.

Lemma skipn_nth_cons (a : list nat) (k : nat) (d : nat) :
  (k < length a)%nat -> skipn k a = nth k a d :: skipn (S k) a.
Proof.
  revert k. induction a as [|x a IH]; intros k Hk; simpl in Hk; [lia|].
  destruct k as [|k]; [reflexivity|]. simpl. apply IH. lia.
Qed.

Lemma upd_length a p x :
  0 <= p < Z.of_nat (length a) -> length (upd a p x) = length a.
Proof.
  intros H. unfold upd. rewrite length_app, length_firstn. cbn [length].
  rewrite length_skipn. lia.
Qed.

Lemma at_upd a p q x :
  0 <= p < Z.of_nat (length a) -> 0 <= q ->
  at_ (upd a p x) q = if Z.eqb q p then x else at_ a q.
Proof.
  intros Hp Hq. unfold at_, upd. rewrite nth_upd_nat by lia.
  destruct (Nat.eqb_spec (Z.to_nat q) (Z.to_nat p)); destruct (Z.eqb_spec q p);
    try reflexivity; lia.
Qed.

Lemma upd_perm a p x :
  0 <= p < Z.of_nat (length a) -> Permutation (at_ a p :: upd a p x) (x :: a).
Proof.
  intros Hp. unfold at_, upd.
  assert (Hk : (Z.to_nat p < length a)%nat) by lia.
  set (k := Z.to_nat p) in *.
  assert (Ha : a = firstn k a ++ nth k a 0%nat :: skipn (S k) a)
    by (rewrite <- (skipn_nth_cons a k 0 Hk); symmetry; apply firstn_skipn).
  set (F := firstn k a) in *. set (R := skipn (S k) a) in *.
  set (y := nth k a 0%nat) in *.
  apply perm_trans with (x :: (F ++ y :: R));
    [|rewrite <- Ha; apply Permutation_refl].
  eapply perm_trans; [apply perm_skip, Permutation_sym, Permutation_middle|].
  eapply perm_trans; [apply perm_swap|].
  apply perm_skip, Permutation_middle.
Qed.

Lemma swap_length a p q :
  0 <= p < Z.of_nat (length a) -> 0 <= q < Z.of_nat (length a) ->
  length (swap_at a p q) = length a.
Proof.
  intros Hp Hq. unfold swap_at. rewrite !upd_length; try lia.
  rewrite upd_length; lia.
Qed.

Lemma at_swap a p q r :
  0 <= p < Z.of_nat (length a) -> 0 <= q < Z.of_nat (length a) -> 0 <= r ->
  at_ (swap_at a p q) r =
    if Z.eqb r q then at_ a p else if Z.eqb r p then at_ a q else at_ a r.
Proof.
  intros Hp Hq Hr. unfold swap_at.
  rewrite at_upd; [|rewrite upd_length; lia|lia].
  rewrite at_upd by lia.
  destruct (Z.eqb_spec r q); destruct (Z.eqb_spec r p); subst; reflexivity.
Qed.

Lemma swap_perm a p q :
  0 <= p < Z.of_nat (length a) -> 0 <= q < Z.of_nat (length a) ->
  Permutation (swap_at a p q) a.
Proof.
  intros Hp Hq. unfold swap_at.
  set (b := upd a p (at_ a q)).
  assert (Hb : at_ b q = at_ a q).
  { unfold b. rewrite at_upd by lia. destruct (Z.eqb q p); reflexivity. }
  assert (Hl : length b = length a) by (apply upd_length; lia).
  pose proof (upd_perm b q (at_ a p)) as P1. rewrite Hb, Hl in P1.
  pose proof (upd_perm a p (at_ a q)) as P2. fold b in P2.
  apply Permutation_cons_inv with (a := at_ a q).
  eapply perm_trans; [apply P1; lia|]. apply P2; lia.
Qed.

Lemma same_out_refl a lo hi : same_out a a lo hi.
Proof. split; auto. Qed.

Lemma same_out_trans a b c lo hi :
  same_out a b lo hi -> same_out b c lo hi -> same_out a c lo hi.
Proof.
  intros [L1 E1] [L2 E2]. split; [congruence|].
  intros q Hq Ho. rewrite E2, E1; auto.
Qed.

Lemma same_out_widen a b lo hi lo' hi' :
  lo' <= lo -> hi <= hi' -> same_out a b lo hi -> same_out a b lo' hi'.
Proof.
  intros H1 H2 [L E]. split; auto. intros q Hq Ho. apply E; lia.
Qed.

Lemma same_out_upd a p x lo hi :
  0 <= p < Z.of_nat (length a) -> lo <= p <= hi -> same_out a (upd a p x) lo hi.
Proof.
  intros Hp Hs. split; [apply upd_length; lia|].
  intros q Hq Ho. rewrite at_upd by lia.
  destruct (Z.eqb_spec q p); [lia|reflexivity].
Qed.

Lemma same_out_swap a p q lo hi :
  0 <= p < Z.of_nat (length a) -> 0 <= q < Z.of_nat (length a) ->
  lo <= p <= hi -> lo <= q <= hi -> same_out a (swap_at a p q) lo hi.
Proof.
  intros Hp Hq Hsp Hsq. split; [apply swap_length; lia|].
  intros r Hr Ho. rewrite at_swap by lia.
  destruct (Z.eqb_spec r q); [lia|]. destruct (Z.eqb_spec r p); [lia|reflexivity].
Qed.

Lemma list_split3 (l : list nat) (L M : nat) :
  l = firstn L l ++ firstn M (skipn L l) ++ skipn (M + L) l.
Proof.
  rewrite <- skipn_skipn, (firstn_skipn M (skipn L l)), firstn_skipn. reflexivity.
Qed.

Lemma same_out_prefix a b lo hi :
  same_out a b lo hi -> 0 <= lo -> firstn (Z.to_nat lo) b = firstn (Z.to_nat lo) a.
Proof.
  intros [L E] Hlo. apply nth_ext with (d := 0%nat) (d' := 0%nat).
  - rewrite !length_firstn. lia.
  - intros n Hn. rewrite length_firstn in Hn. rewrite !nth_firstn.
    destruct (Nat.ltb_spec n (Z.to_nat lo)); [|reflexivity].
    pose proof (E (Z.of_nat n) ltac:(lia) ltac:(lia)) as Eq.
    unfold at_ in Eq. rewrite Nat2Z.id in Eq. exact Eq.
Qed.

Lemma same_out_suffix a b lo hi m :
  same_out a b lo hi -> hi < Z.of_nat m -> skipn m b = skipn m a.
Proof.
  intros [L E] Hm. apply nth_ext with (d := 0%nat) (d' := 0%nat).
  - rewrite !length_skipn. lia.
  - intros n Hn. rewrite !nth_skipn.
    pose proof (E (Z.of_nat (m + n)) ltac:(lia) ltac:(lia)) as Eq.
    unfold at_ in Eq. rewrite Nat2Z.id in Eq. exact Eq.
Qed.

(** What a step that permutes the array and leaves everything outside
    [[lo, hi]] alone puts inside [[lo, hi]] was already there. *)
Lemma seg_from_perm a b lo hi :
  Permutation a b -> same_out a b lo hi -> 0 <= lo -> hi < Z.of_nat (length a) ->
  forall k, lo <= k <= hi -> exists k', lo <= k' <= hi /\ at_ b k = at_ a k'.
Proof.
  intros P S Hlo Hhi k Hk.
  set (L := Z.to_nat lo). set (M := Z.to_nat (hi - lo + 1)).
  assert (Hlb : length b = length a) by (destruct S; assumption).
  assert (Pm : Permutation (firstn M (skipn L b)) (firstn M (skipn L a))).
  { pose proof P as P'.
    rewrite (list_split3 a L M), (list_split3 b L M) in P'.
    rewrite (same_out_prefix a b lo hi S Hlo : firstn L b = firstn L a) in P'.
    rewrite (same_out_suffix a b lo hi (M + L) S ltac:(lia)) in P'.
    apply Permutation_app_inv_l in P'. apply Permutation_app_inv_r in P'.
    apply Permutation_sym. exact P'. }
  assert (Hkb : at_ b k = nth (Z.to_nat k - L) (firstn M (skipn L b)) 0%nat).
  { rewrite nth_firstn. destruct (Nat.ltb_spec (Z.to_nat k - L) M); [|lia].
    rewrite nth_skipn. unfold at_. f_equal. lia. }
  assert (Hin : In (at_ b k) (firstn M (skipn L a))).
  { apply (Permutation_in _ Pm). rewrite Hkb. apply nth_In.
    rewrite length_firstn, length_skipn. lia. }
  destruct (In_nth _ _ 0%nat Hin) as [n [Hn Hnth]].
  rewrite length_firstn, length_skipn in Hn.
  exists (lo + Z.of_nat n). split; [lia|].
  rewrite <- Hnth, nth_firstn. destruct (Nat.ltb_spec n M); [|lia].
  rewrite nth_skipn. unfold at_. f_equal. lia.
Qed.

Lemma upd_same a p :
  0 <= p < Z.of_nat (length a) -> upd a p (at_ a p) = a.
Proof.
  intros Hp. apply nth_ext with (d := 0%nat) (d' := 0%nat).
  - apply upd_length; lia.
  - intros n Hn. rewrite upd_length in Hn by lia.
    assert (E : at_ (upd a p (at_ a p)) (Z.of_nat n) = at_ a (Z.of_nat n)).
    { rewrite at_upd by lia. destruct (Z.eqb_spec (Z.of_nat n) p) as [->|]; reflexivity. }
    set (x := at_ a p) in *.
    unfold at_ in E. rewrite !Nat2Z.id in E. exact E.
Qed.

(** Moving the entry at [q] into [p] and then filling [q] leaves the same
    entries as filling [p] directly. *)
Lemma upd_upd_perm a p q x :
  0 <= p < Z.of_nat (length a) -> 0 <= q < Z.of_nat (length a) -> p <> q ->
  Permutation (upd (upd a p (at_ a q)) q x) (upd a p x).
Proof.
  intros Hp Hq Hpq.
  set (y := at_ a q). set (c := upd a p y).
  assert (Hc : at_ c q = y).
  { unfold c. rewrite at_upd by lia. destruct (Z.eqb_spec q p); [lia|reflexivity]. }
  assert (Hl : length c = length a) by (apply upd_length; lia).
  pose proof (upd_perm c q x) as P1. rewrite Hc, Hl in P1.
  specialize (P1 Hq).
  pose proof (upd_perm a p y Hp) as P2. fold c in P2.
  pose proof (upd_perm a p x Hp) as P3.
  apply Permutation_cons_inv with (a := at_ a p).
  apply Permutation_cons_inv with (a := y).
  transitivity (at_ a p :: y :: upd c q x); [apply perm_swap|].
  transitivity (at_ a p :: x :: c); [apply perm_skip, P1|].
  transitivity (x :: at_ a p :: c); [apply perm_swap|].
  transitivity (x :: y :: a); [apply perm_skip, P2|].
  transitivity (y :: x :: a); [apply perm_swap|].
  apply perm_skip. symmetry. exact P3.
Qed.

Lemma sorted_seg_adjacent v a lo hi :
  (forall k, lo <= k -> k < hi -> key v a k <= key v a (k + 1)) -> sorted_seg v a lo hi.
Proof.
  intros H i j Hi Hij Hj.
  replace j with (i + Z.of_nat (Z.to_nat (j - i))) by lia.
  assert (Hn : i + Z.of_nat (Z.to_nat (j - i)) <= hi) by lia.
  induction (Z.to_nat (j - i)) as [|n IH]; [rewrite Z.add_0_r; lia|].
  rewrite Nat2Z.inj_succ in *.
  specialize (IH ltac:(lia)).
  specialize (H (i + Z.of_nat n) ltac:(lia) ltac:(lia)).
  replace (i + Z.succ (Z.of_nat n)) with (i + Z.of_nat n + 1) by lia. lia.
Qed.

Lemma sorted_seg_mono v a lo hi lo' hi' :
  sorted_seg v a lo hi -> lo <= lo' -> hi' <= hi -> sorted_seg v a lo' hi'.
Proof. intros H H1 H2 i j Hi Hij Hj. apply H; lia. Qed.

(* ------------------------------------------------------------------ *)
(** ** [aquicksort]: partition and insertion sort *)

Section SortProof.
Variable v : nat -> Z.

Lemma scan_up_spec fuel a vp pi pj :
  0 <= pi -> pi < pj -> pj < Z.of_nat (length a) -> vp <= key v a pj ->
  pj - pi <= Z.of_nat fuel ->
  pi < scan_up v fuel a vp pi <= pj /\ vp <= key v a (scan_up v fuel a vp pi) /\
  (forall k, pi < k < scan_up v fuel a vp pi -> key v a k < vp).
Proof.
  revert pi. induction fuel as [|f IH]; intros pi H0 H1 H2 H3 H4; [lia|].
  cbn [scan_up]. destruct (Z.ltb_spec (v (at_ a (pi + 1))) vp) as [Hlt|Hge].
  - assert (pi + 1 <> pj) by (intro E; rewrite <- E in H3; unfold key in H3; lia).
    destruct (IH (pi + 1)) as (A & B & C); try lia.
    split; [lia|]. split; [exact B|].
    intros k Hk. destruct (Z.eq_dec k (pi + 1)) as [->|]; [exact Hlt|]. apply C; lia.
  - split; [lia|]. split; [exact Hge|]. intros; lia.
Qed.

Lemma scan_down_spec fuel a vp pi pj :
  0 <= pi -> pi < pj -> pj < Z.of_nat (length a) -> key v a pi <= vp ->
  pj - pi <= Z.of_nat fuel ->
  pi <= scan_down v fuel a vp pj < pj /\ key v a (scan_down v fuel a vp pj) <= vp /\
  (forall k, scan_down v fuel a vp pj < k < pj -> vp < key v a k).
Proof.
  revert pj. induction fuel as [|f IH]; intros pj H0 H1 H2 H3 H4; [lia|].
  cbn [scan_down]. destruct (Z.ltb_spec vp (v (at_ a (pj - 1)))) as [Hlt|Hge].
  - assert (pj - 1 <> pi) by (intro E; rewrite E in Hlt; unfold key in H3; lia).
    destruct (IH (pj - 1)) as (A & B & C); try lia.
    split; [lia|]. split; [exact B|].
    intros k Hk. destruct (Z.eq_dec k (pj - 1)) as [->|]; [exact Hlt|]. apply C; lia.
  - split; [lia|]. split; [exact Hge|]. intros; lia.
Qed.

Lemma partition_loop_spec fuel a vp pl pr pi pj :
  0 <= pl -> pr < Z.of_nat (length a) ->
  pl <= pi -> pi < pj -> pj <= pr - 1 ->
  (forall k, pl <= k <= pi -> key v a k <= vp) ->
  (forall k, pj <= k <= pr -> vp <= key v a k) ->
  key v a (pr - 1) = vp ->
  pj - pi <= Z.of_nat fuel ->
  forall b p, partition_loop v fuel a vp pi pj = (b, p) ->
  Permutation b a /\ same_out a b pl pr /\ pl < p <= pr - 1 /\
  (forall k, pl <= k <= p - 1 -> key v b k <= vp) /\
  (forall k, p <= k <= pr -> vp <= key v b k) /\
  key v b (pr - 1) = vp.
Proof.
  revert a pi pj.
  induction fuel as [|f IH]; intros a pi pj H0 H1 H2 H3 H4 Hl Hr Hp Hf b p E; [lia|].
  cbn [partition_loop] in E.
  destruct (scan_up_spec (length a) a vp pi pj ltac:(lia) H3 ltac:(lia)
              (Hr pj ltac:(lia)) ltac:(lia)) as (U1 & U2 & U3).
  destruct (scan_down_spec (length a) a vp pi pj ltac:(lia) H3 ltac:(lia)
              (Hl pi ltac:(lia)) ltac:(lia)) as (D1 & D2 & D3).
  set (pi' := scan_up v (length a) a vp pi) in *.
  set (pj' := scan_down v (length a) a vp pj) in *.
  revert E. destruct (Z.leb_spec pj' pi') as [Hle|Hgt]; intros E.
  - inversion E; subst b p.
    split; [apply Permutation_refl|]. split; [apply same_out_refl|].
    split; [lia|]. split.
    + intros k Hk. destruct (Z.le_gt_cases k pi); [apply Hl; lia|].
      specialize (U3 k ltac:(lia)); lia.
    + split; [|exact Hp]. intros k Hk.
      destruct (Z.eq_dec k pi') as [->|]; [exact U2|].
      destruct (Z.lt_ge_cases k pj); [specialize (D3 k ltac:(lia)); lia|]. apply Hr; lia.
  - set (a1 := swap_at a pi' pj') in *.
    assert (La : length a1 = length a) by (apply swap_length; lia).
    assert (K : forall k, 0 <= k -> key v a1 k =
              if Z.eqb k pj' then key v a pi' else if Z.eqb k pi' then key v a pj'
              else key v a k).
    { intros k Hk. unfold key, a1. rewrite at_swap by lia.
      destruct (Z.eqb k pj'), (Z.eqb k pi'); reflexivity. }
    assert (Hl' : forall k, pl <= k <= pi' -> key v a1 k <= vp).
    { intros k Hk. rewrite K by lia.
      destruct (Z.eqb_spec k pj'); [lia|]. destruct (Z.eqb_spec k pi'); [lia|].
      destruct (Z.le_gt_cases k pi); [apply Hl; lia|]. specialize (U3 k ltac:(lia)); lia. }
    assert (Hr' : forall k, pj' <= k <= pr -> vp <= key v a1 k).
    { intros k Hk. rewrite K by lia.
      destruct (Z.eqb_spec k pj'); [lia|]. destruct (Z.eqb_spec k pi'); [lia|].
      destruct (Z.lt_ge_cases k pj); [specialize (D3 k ltac:(lia)); lia|]. apply Hr; lia. }
    assert (Hp' : key v a1 (pr - 1) = vp).
    { rewrite K by lia. destruct (Z.eqb_spec (pr - 1) pj'); [lia|].
      destruct (Z.eqb_spec (pr - 1) pi'); [lia|]. exact Hp. }
    destruct (IH a1 pi' pj' H0 ltac:(rewrite La; lia) ltac:(lia) Hgt ltac:(lia)
                Hl' Hr' Hp' ltac:(lia) b p E) as (P & S & R).
    split; [eapply perm_trans; [exact P|apply swap_perm; lia]|].
    split; [apply same_out_trans with a1; [apply same_out_swap; lia|exact S]|exact R].
Qed.

Lemma cswap_spec a p q b :
  0 <= p < Z.of_nat (length a) -> 0 <= q < Z.of_nat (length a) -> p <> q ->
  b = (if less_at v a q p then swap_at a q p else a) ->
  Permutation b a /\ length b = length a /\
  (forall r, 0 <= r -> r <> p -> r <> q -> at_ b r = at_ a r) /\
  key v b p <= key v b q /\
  ((at_ b p = at_ a p /\ at_ b q = at_ a q) \/ (at_ b p = at_ a q /\ at_ b q = at_ a p)).
Proof.
  intros Hp Hq Hpq ->. unfold less_at.
  destruct (Z.ltb_spec (v (at_ a q)) (v (at_ a p))) as [Hlt|Hge].
  - split; [apply swap_perm; lia|]. split; [apply swap_length; lia|].
    split.
    { intros r Hr H1 H2. rewrite at_swap by lia.
      destruct (Z.eqb_spec r p); [lia|]. destruct (Z.eqb_spec r q); [lia|reflexivity]. }
    unfold key. rewrite !at_swap by lia. rewrite Z.eqb_refl.
    destruct (Z.eqb_spec q p); [lia|]. rewrite Z.eqb_refl.
    split; [lia|]. right; split; reflexivity.
  - split; [apply Permutation_refl|]. split; [reflexivity|].
    split; [reflexivity|]. unfold key. split; [lia|]. left; split; reflexivity.
Qed.

Lemma median3_spec a pl pm pr a1 a2 a3 :
  0 <= pl -> pl < pm -> pm < pr -> pr < Z.of_nat (length a) ->
  a1 = (if less_at v a pm pl then swap_at a pm pl else a) ->
  a2 = (if less_at v a1 pr pm then swap_at a1 pr pm else a1) ->
  a3 = (if less_at v a2 pm pl then swap_at a2 pm pl else a2) ->
  Permutation a3 a /\ length a3 = length a /\ same_out a a3 pl pr /\
  key v a3 pl <= key v a3 pm /\ key v a3 pm <= key v a3 pr.
Proof.
  intros H0 H1 H2 H3 E1 E2 E3.
  destruct (cswap_spec a pl pm a1 ltac:(lia) ltac:(lia) ltac:(lia) E1)
    as (P1 & L1 & F1 & K1 & C1).
  destruct (cswap_spec a1 pm pr a2 ltac:(lia) ltac:(lia) ltac:(lia) E2)
    as (P2 & L2 & F2 & K2 & C2).
  destruct (cswap_spec a2 pl pm a3 ltac:(lia) ltac:(lia) ltac:(lia) E3)
    as (P3 & L3 & F3 & K3 & C3).
  split; [eapply perm_trans; [exact P3|eapply perm_trans; [exact P2|exact P1]]|].
  split; [congruence|].
  split.
  { split; [congruence|]. intros r Hr Ho.
    rewrite F3, F2, F1 by lia. reflexivity. }
  split; [exact K3|].
  unfold key in *.
  rewrite (F3 pr) by lia. rewrite (F2 pl) in C3 by lia.
  destruct C3 as [[E4 E5]|[E4 E5]]; rewrite E5; [lia|].
  destruct C2 as [[E6 E7]|[E6 E7]]; rewrite ?E6, ?E7 in *; lia.
Qed.

Lemma shiftr_1 (x : Z) : Z.shiftr x 1 = x / 2.
Proof. rewrite Z.shiftr_div_pow2 by lia. reflexivity. Qed.

(** One partition of [[pl, pr]] around the median of three: the pivot
    lands at [pi], with no larger key on its left and no smaller key on
    its right. *)
Lemma partition_core_spec a pl pr a3 a5 pi :
  0 <= pl -> 15 < pr - pl -> pr < Z.of_nat (length a) ->
  Permutation a3 a -> length a3 = length a -> same_out a a3 pl pr ->
  key v a3 pl <= key v a3 (pl + Z.shiftr (pr - pl) 1) ->
  key v a3 (pl + Z.shiftr (pr - pl) 1) <= key v a3 pr ->
  partition_loop v (length a) (swap_at a3 (pl + Z.shiftr (pr - pl) 1) (pr - 1))
    (v (at_ a3 (pl + Z.shiftr (pr - pl) 1))) pl (pr - 1) = (a5, pi) ->
  let a6 := swap_at a5 pi (pr - 1) in
  Permutation a6 a /\ length a6 = length a /\ same_out a a6 pl pr /\ pl < pi <= pr - 1 /\
  (forall k, pl <= k <= pi - 1 -> key v a6 k <= key v a6 pi) /\
  (forall k, pi + 1 <= k <= pr -> key v a6 pi <= key v a6 k).
Proof.
  intros H0 H1 H2 P3 L3 S3 K1 K2 E a6.
  set (pm := pl + Z.shiftr (pr - pl) 1) in *.
  assert (Hpm : pl < pm < pr - 1)
    by (unfold pm; rewrite shiftr_1; Z.div_mod_to_equations; lia).
  set (vp := v (at_ a3 pm)) in *.
  set (a4 := swap_at a3 pm (pr - 1)) in *.
  assert (L4 : length a4 = length a3) by (apply swap_length; lia).
  assert (K4 : forall k, 0 <= k -> key v a4 k =
            if Z.eqb k (pr - 1) then vp else if Z.eqb k pm then key v a3 (pr - 1)
            else key v a3 k).
  { intros k Hk. unfold key, a4. rewrite at_swap by lia.
    destruct (Z.eqb k (pr - 1)), (Z.eqb k pm); reflexivity. }
  destruct (partition_loop_spec (length a) a4 vp pl pr pl (pr - 1))
    with (b := a5) (p := pi)
    as (P5 & S5 & B5 & Lo5 & Hi5 & Pv5); try lia; try exact E.
  - intros k Hk. replace k with pl by lia. rewrite K4 by lia.
    destruct (Z.eqb_spec pl (pr - 1)); [lia|]. destruct (Z.eqb_spec pl pm); [lia|]. exact K1.
  - intros k Hk. rewrite K4 by lia.
    destruct (Z.eqb_spec k (pr - 1)); [lia|]. destruct (Z.eqb_spec k pm); [lia|].
    replace k with pr by lia. exact K2.
  - rewrite K4 by lia. rewrite Z.eqb_refl. reflexivity.
  - assert (L5 : length a5 = length a) by (destruct S5; congruence).
    assert (K6 : forall k, 0 <= k -> key v a6 k =
              if Z.eqb k (pr - 1) then key v a5 pi else if Z.eqb k pi then key v a5 (pr - 1)
              else key v a5 k).
    { intros k Hk. unfold key, a6. rewrite at_swap by lia.
      destruct (Z.eqb k (pr - 1)), (Z.eqb k pi); reflexivity. }
    split.
    { eapply perm_trans; [apply swap_perm; lia|].
      eapply perm_trans; [exact P5|]. eapply perm_trans; [apply swap_perm; lia|exact P3]. }
    split; [unfold a6; rewrite swap_length; lia|].
    split.
    { apply same_out_trans with a3; [exact S3|].
      apply same_out_trans with a4; [apply same_out_swap; lia|].
      apply same_out_trans with a5; [exact S5|apply same_out_swap; lia]. }
    split; [lia|].
    assert (Kp : key v a6 pi = vp).
    { rewrite K6 by lia. destruct (Z.eqb_spec pi (pr - 1)) as [->|]; [exact Pv5|].
      rewrite Z.eqb_refl. exact Pv5. }
    rewrite Kp. split.
    + intros k Hk. rewrite K6 by lia.
      destruct (Z.eqb_spec k (pr - 1)); [lia|]. destruct (Z.eqb_spec k pi); [lia|].
      apply Lo5; lia.
    + intros k Hk. rewrite K6 by lia.
      destruct (Z.eqb_spec k (pr - 1)); [apply Hi5; lia|].
      destruct (Z.eqb_spec k pi); [lia|]. apply Hi5; lia.
Qed.

(* ------------------------------------------------------------------ *)
(** ** [aquicksort]: the pending stretches *)

Lemma ordered_outside a b lo hi rest :
  ordered_except v a ((lo, hi) :: rest) -> segs_disjoint ((lo, hi) :: rest) ->
  Permutation b a -> same_out a b lo hi -> 0 <= lo -> hi < Z.of_nat (length a) ->
  forall i j, 0 <= i -> i < j -> j < Z.of_nat (length b) ->
    ~ (lo <= i /\ j <= hi) -> ~ covers rest i j -> key v b i <= key v b j.
Proof.
  intros Ho [Hd _] P S Hlo Hhi i j Hi Hij Hj Hn Hc.
  pose proof S as [L E].
  pose proof (seg_from_perm a b lo hi (Permutation_sym P) S Hlo Hhi) as Hseg.
  rewrite Forall_forall in Hd. rewrite L in Hj.
  destruct (Z_le_dec lo i) as [Hli|Hli]; [destruct (Z_le_dec i hi) as [Hih|Hih]|].
  - destruct (Hseg i ltac:(lia)) as [i' [Hi' Ei]].
    unfold key. rewrite Ei, (E j) by lia.
    apply Ho; try lia. intros [s [Hs [H1 H2]]]. destruct Hs as [<-|Hs]; [simpl in *; lia|].
    specialize (Hd s Hs). simpl in Hd. lia.
  - unfold key. rewrite (E i), (E j) by lia.
    apply Ho; try lia. intros [s [Hs [H1 H2]]]. destruct Hs as [<-|Hs]; [simpl in *; lia|].
    apply Hc. exists s. auto.
  - destruct (Z_le_dec lo j) as [Hlj|Hlj]; [destruct (Z_le_dec j hi) as [Hjh|Hjh]|].
    + destruct (Hseg j ltac:(lia)) as [j' [Hj' Ej]].
      unfold key. rewrite Ej, (E i) by lia.
      apply Ho; try lia. intros [s [Hs [H1 H2]]]. destruct Hs as [<-|Hs]; [simpl in *; lia|].
      specialize (Hd s Hs). simpl in Hd. lia.
    + unfold key. rewrite (E i), (E j) by lia.
      apply Ho; try lia. intros [s [Hs [H1 H2]]]. destruct Hs as [<-|Hs]; [simpl in *; lia|].
      apply Hc. exists s. auto.
    + unfold key. rewrite (E i), (E j) by lia.
      apply Ho; try lia. intros [s [Hs [H1 H2]]]. destruct Hs as [<-|Hs]; [simpl in *; lia|].
      apply Hc. exists s. auto.
Qed.

Lemma finish_segment a b lo hi rest :
  ordered_except v a ((lo, hi) :: rest) -> segs_disjoint ((lo, hi) :: rest) ->
  Permutation b a -> same_out a b lo hi -> 0 <= lo -> hi < Z.of_nat (length a) ->
  sorted_seg v b lo hi -> ordered_except v b rest.
Proof.
  intros Ho Hd P S Hlo Hhi Hs i j Hi Hij Hj Hc.
  destruct (Z_le_dec lo i); [destruct (Z_le_dec j hi)|].
  - apply Hs; lia.
  - eapply ordered_outside; eauto; lia.
  - eapply ordered_outside; eauto; lia.
Qed.

Lemma split_segment a b lo hi p rest :
  ordered_except v a ((lo, hi) :: rest) -> segs_disjoint ((lo, hi) :: rest) ->
  Permutation b a -> same_out a b lo hi -> 0 <= lo -> hi < Z.of_nat (length a) ->
  lo <= p <= hi ->
  (forall k, lo <= k <= p - 1 -> key v b k <= key v b p) ->
  (forall k, p + 1 <= k <= hi -> key v b p <= key v b k) ->
  ordered_except v b ((lo, p - 1) :: (p + 1, hi) :: rest).
Proof.
  intros Ho Hd P S Hlo Hhi Hp Hl Hr i j Hi Hij Hj Hc.
  destruct (Z_le_dec lo i); [destruct (Z_le_dec j hi)|].
  - assert (i <= p).
    { destruct (Z_le_gt_dec i p); [assumption|]. exfalso. apply Hc.
      exists (p + 1, hi). simpl. split; [right; left; reflexivity|lia]. }
    assert (p <= j).
    { destruct (Z_le_gt_dec p j); [assumption|]. exfalso. apply Hc.
      exists (lo, p - 1). simpl. split; [left; reflexivity|lia]. }
    destruct (Z.eq_dec i p) as [->|]; [apply Hr; lia|].
    destruct (Z.eq_dec j p) as [->|]; [apply Hl; lia|].
    transitivity (key v b p); [apply Hl|apply Hr]; lia.
  - eapply ordered_outside; eauto; try lia.
    intros [s [Hs H]]. apply Hc. exists s. simpl. auto.
  - eapply ordered_outside; eauto; try lia.
    intros [s [Hs H]]. apply Hc. exists s. simpl. auto.
Qed.

Lemma ordered_except_incl a segs segs' :
  ordered_except v a segs -> (forall s, In s segs -> In s segs') ->
  ordered_except v a segs'.
Proof.
  intros Ho Hin i j Hi Hij Hj Hc. apply Ho; auto.
  intros [s [Hs H]]. apply Hc. exists s. auto.
Qed.

End SortProof.

Lemma disjoint_sub lo hi lo' hi' rest :
  Forall (fun t => snd t < lo \/ hi < fst t) rest -> lo <= lo' -> hi' <= hi ->
  Forall (fun t => snd t < lo' \/ hi' < fst t) rest.
Proof. intros H H1 H2. eapply Forall_impl; [|exact H]. simpl. intros t Ht. lia. Qed.

Lemma split_disjoint lo hi p rest :
  segs_disjoint ((lo, hi) :: rest) -> lo <= p <= hi ->
  segs_disjoint ((lo, p - 1) :: (p + 1, hi) :: rest) /\
  segs_disjoint ((p + 1, hi) :: (lo, p - 1) :: rest).
Proof.
  intros [Hd Hr] Hp. simpl in Hd.
  split; simpl; repeat split; auto;
    try (constructor; [simpl; lia|]); eapply disjoint_sub; eauto; lia.
Qed.

Lemma split_in n lo hi p rest :
  segs_in n ((lo, hi) :: rest) -> lo <= p <= hi ->
  segs_in n ((lo, p - 1) :: (p + 1, hi) :: rest) /\
  segs_in n ((p + 1, hi) :: (lo, p - 1) :: rest).
Proof.
  intros H Hp. inversion H as [|s r Hs Hr]; subst. simpl in Hs.
  split; repeat constructor; simpl; try lia; auto.
Qed.

Section SortProof2.
Variable v : nat -> Z.

Lemma partition_phase_spec fuel a pl pr cd stack :
  segs_in (Z.of_nat (length a)) ((pl, pr) :: map fst stack) ->
  segs_disjoint ((pl, pr) :: map fst stack) ->
  ordered_except v a ((pl, pr) :: map fst stack) ->
  pr - pl < Z.of_nat fuel ->
  forall b pl' pr' cd' stack',
  partition_phase v fuel a pl pr cd stack = (b, pl', pr', cd', stack') ->
  Permutation b a /\
  segs_in (Z.of_nat (length a)) ((pl', pr') :: map fst stack') /\
  segs_disjoint ((pl', pr') :: map fst stack') /\
  ordered_except v b ((pl', pr') :: map fst stack') /\
  pending_weight ((pl', pr') :: map fst stack') = pending_weight ((pl, pr) :: map fst stack).
Proof.
  revert a pl pr cd stack.
  induction fuel as [|f IH]; intros a pl pr cd stack Hin Hd Ho Hf b pl' pr' cd' stack' E.
  { cbn [partition_phase] in E. inversion E; subst.
    exact (conj (Permutation_refl _) (conj Hin (conj Hd (conj Ho eq_refl)))). }
  cbn [partition_phase] in E. unfold SMALL_QUICKSORT in E.
  revert E. destruct (Z.ltb_spec 15 (pr - pl)) as [Hbig|Hsmall]; intros E.
  2: { inversion E; subst.
       exact (conj (Permutation_refl _) (conj Hin (conj Hd (conj Ho eq_refl)))). }
  pose proof Hin as Hin0.
  inversion Hin as [|s r Hs Hr]; subst. simpl in Hs.
  set (pm := pl + Z.shiftr (pr - pl) 1) in E.
  set (a1 := if less_at v a pm pl then swap_at a pm pl else a) in E.
  set (a2 := if less_at v a1 pr pm then swap_at a1 pr pm else a1) in E.
  set (a3 := if less_at v a2 pm pl then swap_at a2 pm pl else a2) in E.
  assert (Hpm : pl < pm < pr) by (unfold pm; rewrite shiftr_1; Z.div_mod_to_equations; lia).
  destruct (median3_spec v a pl pm pr a1 a2 a3) as (P3 & L3 & S3 & K1 & K2);
    try reflexivity; try lia.
  revert E.
  destruct (partition_loop v (length a) (swap_at a3 pm (pr - 1)) (v (at_ a3 pm)) pl (pr - 1))
    as [a5 pi] eqn:E5; intros E.
  destruct (partition_core_spec v a pl pr a3 a5 pi) as (P6 & L6 & S6 & B6 & Lo6 & Hi6);
    try lia; auto.
  set (a6 := swap_at a5 pi (pr - 1)) in *.
  assert (Hsplit := split_segment v a a6 pl pr pi (map fst stack) Ho Hd P6 S6
                      ltac:(lia) ltac:(lia) ltac:(lia) Lo6 Hi6).
  destruct (split_disjoint pl pr pi (map fst stack) Hd ltac:(lia)) as [Hd1 Hd2].
  destruct (split_in (Z.of_nat (length a)) pl pr pi (map fst stack) Hin0 ltac:(lia))
    as [Hi1 Hi2].
  revert E. destruct (Z.ltb_spec (pi - pl) (pr - pi)); intros E.
  - destruct (IH a6 pl (pi - 1) (cd - 1) ((pi + 1, pr, cd - 1) :: stack))
      with (b := b) (pl' := pl') (pr' := pr') (cd' := cd') (stack' := stack')
      as (P & I & D & O & W); simpl; rewrite ?L6; auto; try lia.
    split; [eapply perm_trans; eauto|]. split; [rewrite <- L6; exact I|].
    split; [exact D|]. split; [exact O|]. simpl in W |- *. lia.
  - destruct (IH a6 (pi + 1) pr (cd - 1) ((pl, pi - 1, cd - 1) :: stack))
      with (b := b) (pl' := pl') (pr' := pr') (cd' := cd') (stack' := stack')
      as (P & I & D & O & W); simpl; rewrite ?L6; auto; try lia.
    + eapply ordered_except_incl; [exact Hsplit|]. simpl. tauto.
    + split; [eapply perm_trans; eauto|]. split; [rewrite <- L6; exact I|].
      split; [exact D|]. split; [exact O|]. simpl in W |- *. lia.
Qed.

(* ------------------------------------------------------------------ *)
(** ** [aquicksort]: insertion sort *)

Lemma insert_stop a b pl pi vi pj :
  0 <= pl -> pl <= pj -> pj <= pi -> pi < Z.of_nat (length b) -> length a = length b ->
  sorted_seg v b pl (pi - 1) ->
  (forall k, 0 <= k -> k < pj \/ pi < k -> at_ a k = at_ b k) ->
  (forall k, pj < k <= pi -> at_ a k = at_ b (k - 1) /\ v vi < key v b (k - 1)) ->
  Permutation (upd a pj vi) b ->
  (pj <= pl \/ key v a (pj - 1) <= v vi) ->
  Permutation (upd a pj vi) b /\ same_out b (upd a pj vi) pl pi /\
  sorted_seg v (upd a pj vi) pl pi.
Proof.
  intros H0 H1 H2 H3 La Hs Hf Hm P Hstop.
  assert (K : forall x, 0 <= x -> key v (upd a pj vi) x =
            if Z.eqb x pj then v vi else key v a x).
  { intros x Hx. unfold key. rewrite at_upd by lia. destruct (Z.eqb x pj); reflexivity. }
  split; [exact P|]. split.
  { split; [rewrite upd_length; lia|]. intros q Hq Ho.
    rewrite at_upd by lia. destruct (Z.eqb_spec q pj); [lia|]. apply Hf; lia. }
  apply sorted_seg_adjacent. intros k Hk1 Hk2.
  rewrite !K by lia.
  destruct (Z.eqb_spec k pj) as [Ek|Ek]; destruct (Z.eqb_spec (k + 1) pj) as [Ek'|Ek'];
    try lia.
  - subst k. destruct (Hm (pj + 1) ltac:(lia)) as [Ea Hlt].
    replace (pj + 1 - 1) with pj in Ea, Hlt by lia.
    unfold key in *. rewrite Ea. lia.
  - destruct Hstop as [Hstop|Hstop]; [lia|].
    unfold key in Hstop |- *.
    replace k with (pj - 1) by lia. exact Hstop.
  - destruct (Z_lt_ge_dec k pj).
    + unfold key. rewrite !Hf by lia. apply Hs; lia.
    + unfold key. rewrite (proj1 (Hm k ltac:(lia))), (proj1 (Hm (k + 1) ltac:(lia))).
      replace (k + 1 - 1) with k by lia. apply Hs; lia.
Qed.

Lemma insert_shift_spec fuel : forall a b pl pi vi pj,
  0 <= pl -> pl <= pj -> pj <= pi -> pi < Z.of_nat (length b) -> length a = length b ->
  sorted_seg v b pl (pi - 1) ->
  (forall k, 0 <= k -> k < pj \/ pi < k -> at_ a k = at_ b k) ->
  (forall k, pj < k <= pi -> at_ a k = at_ b (k - 1) /\ v vi < key v b (k - 1)) ->
  Permutation (upd a pj vi) b ->
  pj - pl <= Z.of_nat fuel ->
  Permutation (insert_shift v fuel a pl vi pj) b /\
  same_out b (insert_shift v fuel a pl vi pj) pl pi /\
  sorted_seg v (insert_shift v fuel a pl vi pj) pl pi.
Proof.
  induction fuel as [|f IH]; intros a b pl pi vi pj H0 H1 H2 H3 La Hs Hf Hm P Hfuel.
  { cbn [insert_shift]. apply insert_stop; auto; left; lia. }
  cbn [insert_shift].
  destruct (Z.ltb_spec pl pj) as [Hlt|Hge]; cbn [andb].
  2: { apply insert_stop; auto; left; lia. }
  destruct (Z.ltb_spec (v vi) (v (at_ a (pj - 1)))) as [Hv|Hv].
  2: { apply insert_stop; auto; right; unfold key; lia. }
  assert (Ea : at_ a (pj - 1) = at_ b (pj - 1)) by (apply Hf; lia).
  apply IH; try exact Hs; try lia.
  - rewrite upd_length; lia.
  - intros k Hk Ho. rewrite at_upd by lia. destruct (Z.eqb_spec k pj); [lia|]. apply Hf; lia.
  - intros k Hk. rewrite at_upd by lia. destruct (Z.eqb_spec k pj) as [->|].
    + unfold key. rewrite <- Ea. split; [reflexivity|lia].
    + apply Hm; lia.
  - eapply perm_trans; [apply upd_upd_perm; lia|exact P].
Qed.

Lemma insertion_sort_from_spec fuel : forall a pl pi pr,
  0 <= pl -> pl + 1 <= pi -> pr < Z.of_nat (length a) ->
  sorted_seg v a pl (pi - 1) -> pr - pi + 1 <= Z.of_nat fuel ->
  Permutation (insertion_sort_from v fuel a pl pi pr) a /\
  same_out a (insertion_sort_from v fuel a pl pi pr) pl pr /\
  sorted_seg v (insertion_sort_from v fuel a pl pi pr) pl pr.
Proof.
  induction fuel as [|f IH]; intros a pl pi pr H0 H1 H2 Hs Hf.
  { cbn [insertion_sort_from]. split; [apply Permutation_refl|].
    split; [apply same_out_refl|]. eapply sorted_seg_mono; [exact Hs|lia|lia]. }
  cbn [insertion_sort_from].
  destruct (Z.leb_spec pi pr) as [Hle|Hgt].
  2: { split; [apply Permutation_refl|].
       split; [apply same_out_refl|]. eapply sorted_seg_mono; [exact Hs|lia|lia]. }
  assert (Hm : forall k, pi < k <= pi ->
            at_ a k = at_ a (k - 1) /\ v (at_ a pi) < key v a (k - 1))
    by (intros k Hk; lia).
  assert (P0 : Permutation (upd a pi (at_ a pi)) a)
    by (rewrite upd_same by lia; apply Permutation_refl).
  destruct (insert_shift_spec (length a) a a pl pi (at_ a pi) pi ltac:(lia) ltac:(lia)
              ltac:(lia) ltac:(lia) eq_refl Hs (fun k _ _ => eq_refl) Hm P0 ltac:(lia))
    as (P & S & Hs').
  set (c := insert_shift v (length a) a pl (at_ a pi) pi) in *.
  assert (Lc : length c = length a) by (destruct S; assumption).
  assert (Hs2 : sorted_seg v c pl (pi + 1 - 1))
    by (replace (pi + 1 - 1) with pi by lia; exact Hs').
  destruct (IH c pl (pi + 1) pr ltac:(lia) ltac:(lia) ltac:(lia) Hs2 ltac:(lia))
    as (P' & S' & Hs'').
  split; [eapply perm_trans; eauto|]. split; [|exact Hs''].
  apply same_out_trans with c; [|exact S'].
  eapply same_out_widen; [| |exact S]; lia.
Qed.

(* ------------------------------------------------------------------ *)
(** ** [aquicksort]: the heapsort fallback *)

Lemma child_cases c i : 2 <= c -> c / 2 = i -> c = 2 * i \/ c = 2 * i + 1.
Proof. intros H E. Z.div_mod_to_equations. lia. Qed.

Lemma sift_stop a pl n tmp l i :
  0 <= pl -> 1 <= l -> l <= i -> i <= n -> pl + n - 1 < Z.of_nat (length a) ->
  (forall c, 2 <= c -> c <= n -> l <= c / 2 -> c <> i -> c / 2 <> i ->
     key v a (pl + c - 1) <= key v a (pl + c / 2 - 1)) ->
  (i <> l -> v tmp <= key v a (pl + i / 2 - 1)) ->
  (forall c, 2 <= c -> c <= n -> c / 2 = i -> key v a (pl + c - 1) <= v tmp) ->
  heap_from v (upd a (pl + i - 1) tmp) pl l n.
Proof.
  intros H0 H1 H2 H3 H4 Hh H2' Hc c Hc1 Hc2 Hc3.
  assert (Hd : c / 2 < c) by (Z.div_mod_to_equations; lia).
  assert (Hd' : 1 <= c / 2) by (Z.div_mod_to_equations; lia).
  unfold key. rewrite !at_upd by lia.
  destruct (Z.eqb_spec (pl + c - 1) (pl + i - 1));
    destruct (Z.eqb_spec (pl + c / 2 - 1) (pl + i - 1)); try lia.
  - replace c with i by lia. apply H2'. lia.
  - replace i with (c / 2) in * by lia. apply Hc; lia.
  - apply Hh; lia.
Qed.

Lemma sift_down_spec fuel : forall a a0 T pl n tmp l i,
  0 <= pl -> 1 <= l -> l <= i -> i <= n -> pl + n - 1 < Z.of_nat (length a) ->
  same_out a0 a pl (pl + n - 1) ->
  (forall c, 2 <= c -> c <= n -> l <= c / 2 -> c <> i -> c / 2 <> i ->
     key v a (pl + c - 1) <= key v a (pl + c / 2 - 1)) ->
  (i <> l -> v tmp <= key v a (pl + i / 2 - 1)) ->
  (i <> l -> forall c, 2 <= c -> c <= n -> c / 2 = i ->
     key v a (pl + c - 1) <= key v a (pl + i / 2 - 1)) ->
  Permutation (upd a (pl + i - 1) tmp) T ->
  n - i <= Z.of_nat fuel ->
  let r := sift_down v fuel a pl n tmp i (i + i) in
  Permutation r T /\ same_out a0 r pl (pl + n - 1) /\ heap_from v r pl l n.
Proof.
  induction fuel as [|f IH];
    intros a a0 T pl n tmp l i H0 H1 H2 H3 H4 S Hh Ht Hp P Hf r; subst r.
  { cbn [sift_down]. split; [exact P|].
    split; [apply same_out_trans with a; [exact S|apply same_out_upd; lia]|].
    apply sift_stop; auto; try lia.
    intros c Hc1 Hc2 Hc3. Z.div_mod_to_equations. lia. }
  cbn [sift_down].
  assert (Stop : (forall c, 2 <= c -> c <= n -> c / 2 = i -> key v a (pl + c - 1) <= v tmp) ->
     Permutation (upd a (pl + i - 1) tmp) T /\
     same_out a0 (upd a (pl + i - 1) tmp) pl (pl + n - 1) /\
     heap_from v (upd a (pl + i - 1) tmp) pl l n).
  { intros Hc. split; [exact P|].
    split; [apply same_out_trans with a; [exact S|apply same_out_upd; lia]|].
    apply sift_stop; auto. }
  destruct (Z.leb_spec (i + i) n) as [Hj|Hj].
  2: { apply Stop. intros c Hc1 Hc2 Hc3. apply child_cases in Hc3; lia. }
  set (j' := if Z.ltb (i + i) n && less_at v a (pl + (i + i) - 1) (pl + (i + i))
             then i + i + 1 else i + i).
  assert (Hj' : (j' = i + i \/ j' = i + i + 1) /\ j' <= n /\
                 forall c, 2 <= c -> c <= n -> c / 2 = i ->
                   key v a (pl + c - 1) <= key v a (pl + j' - 1)).
  { unfold j', less_at.
    destruct (Z.ltb_spec (i + i) n); cbn [andb];
      [destruct (Z.ltb_spec (v (at_ a (pl + (i + i) - 1))) (v (at_ a (pl + (i + i)))))|].
    - split; [lia|]. split; [lia|]. intros c Hc1 Hc2 Hc3.
      apply child_cases in Hc3; [|lia]. unfold key.
      destruct Hc3 as [->| ->]; replace (pl + (i + i + 1) - 1) with (pl + (i + i)) by lia;
        [replace (pl + 2 * i - 1) with (pl + (i + i) - 1) by lia; lia|].
      replace (pl + (2 * i + 1) - 1) with (pl + (i + i)) by lia. lia.
    - split; [lia|]. split; [lia|]. intros c Hc1 Hc2 Hc3.
      apply child_cases in Hc3; [|lia]. unfold key.
      destruct Hc3 as [->| ->];
        [replace (pl + 2 * i - 1) with (pl + (i + i) - 1) by lia; lia|].
      replace (pl + (2 * i + 1) - 1) with (pl + (i + i)) by lia. lia.
    - split; [lia|]. split; [lia|]. intros c Hc1 Hc2 Hc3.
      apply child_cases in Hc3; [|lia].
      destruct Hc3 as [->| ->]; [|lia].
      replace (2 * i) with (i + i) by lia. lia. }
  destruct Hj' as (Hj1 & Hj2 & Hmax).
  fold j'.
  destruct (Z.ltb_spec (v tmp) (v (at_ a (pl + j' - 1)))) as [Hv|Hv].
  2: { apply Stop. intros c Hc1 Hc2 Hc3. specialize (Hmax c Hc1 Hc2 Hc3).
       unfold key in *. lia. }
  assert (Hj'2 : j' / 2 = i) by (destruct Hj1 as [-> | ->]; Z.div_mod_to_equations; lia).
  set (a' := upd a (pl + i - 1) (at_ a (pl + j' - 1))).
  assert (K : forall x, 1 <= x -> key v a' (pl + x - 1) =
            if Z.eqb x i then key v a (pl + j' - 1) else key v a (pl + x - 1)).
  { intros x Hx. unfold key, a'. rewrite at_upd by lia.
    destruct (Z.eqb_spec (pl + x - 1) (pl + i - 1)); destruct (Z.eqb_spec x i);
      try lia; reflexivity. }
  assert (La : length a' = length a) by (apply upd_length; lia).
  apply (IH a' a0 T pl n tmp l j'); try lia.
  - apply same_out_trans with a; [exact S|apply same_out_upd; lia].
  - intros c Hc1 Hc2 Hc3 Hc4 Hc5.
    assert (Hd : c / 2 < c) by (Z.div_mod_to_equations; lia).
    assert (Hd' : 1 <= c / 2) by (Z.div_mod_to_equations; lia).
    rewrite !K by lia.
    destruct (Z.eqb_spec c i) as [Ec|Ec]; destruct (Z.eqb_spec (c / 2) i) as [Ed|Ed]; try lia.
    + subst c. apply Hp; [lia| | |]; lia.
    + apply Hmax; lia.
    + apply Hh; lia.
  - intros _. rewrite Hj'2. rewrite K by lia. rewrite Z.eqb_refl. unfold key. lia.
  - intros _ c Hc1 Hc2 Hc3. rewrite Hj'2.
    assert (Hd : c / 2 < c) by (Z.div_mod_to_equations; lia).
    rewrite !K by lia. rewrite Z.eqb_refl.
    destruct (Z.eqb_spec c i); [lia|].
    rewrite <- Hc3. apply Hh; lia.
  - eapply perm_trans; [|exact P]. unfold a'. apply upd_upd_perm; lia.
Qed.

Lemma shiftl_1 (x : Z) : Z.shiftl x 1 = x + x.
Proof. rewrite Z.shiftl_mul_pow2 by lia. lia. Qed.

Lemma heapify_spec fuel : forall a pl n l,
  0 <= pl -> 0 <= l -> l <= n -> pl + n - 1 < Z.of_nat (length a) ->
  heap_from v a pl (l + 1) n -> l <= Z.of_nat fuel ->
  let r := heapify v fuel a pl n l in
  Permutation r a /\ same_out a r pl (pl + n - 1) /\ heap_from v r pl 1 n.
Proof.
  induction fuel as [|f IH]; intros a pl n l H0 H1 H2 H3 Hh Hf r; subst r.
  { replace l with 0 in Hh by lia. cbn [heapify].
    split; [reflexivity|]. split; [apply same_out_refl|exact Hh]. }
  cbn [heapify]. destruct (Z.ltb_spec 0 l) as [Hl|Hl].
  2: { replace l with 0 in Hh by lia.
       split; [reflexivity|]. split; [apply same_out_refl|exact Hh]. }
  rewrite shiftl_1.
  destruct (sift_down_spec (length a) a a a pl n (at_ a (pl + l - 1)) l l)
    as (P1 & S1 & Hh1); try lia.
  - apply same_out_refl.
  - intros c Hc1 Hc2 Hc3 Hc4 Hc5. apply Hh; lia.
  - rewrite upd_same by lia. reflexivity.
  - assert (L1 : length (sift_down v (length a) a pl n (at_ a (pl + l - 1)) l (l + l)) = length a)
      by (apply Permutation_length; exact P1).
    destruct (IH (sift_down v (length a) a pl n (at_ a (pl + l - 1)) l (l + l)) pl n (l - 1))
      as (P2 & S2 & Hh2); try lia.
    + replace (l - 1 + 1) with l by lia. exact Hh1.
    + split; [eapply perm_trans; [exact P2|exact P1]|].
      split; [eapply same_out_trans; [exact S1|exact S2]|exact Hh2].
Qed.

Lemma heap_root_max a pl n :
  heap_from v a pl 1 n ->
  forall i, 1 <= i -> i <= n -> key v a (pl + i - 1) <= key v a pl.
Proof.
  intros Hh.
  assert (G : forall m : nat, forall i, 1 <= i -> i <= n -> i <= Z.of_nat m ->
            key v a (pl + i - 1) <= key v a pl).
  { induction m as [|m IHm]; intros i Hi1 Hi2 Hi3; [lia|].
    destruct (Z.eq_dec i 1) as [->|Hi].
    { replace (pl + 1 - 1) with pl by lia. lia. }
    assert (Hd : 1 <= i / 2 /\ i / 2 <= Z.of_nat m) by (Z.div_mod_to_equations; lia).
    specialize (Hh i ltac:(lia) Hi2 ltac:(lia)).
    specialize (IHm (i / 2) ltac:(lia) ltac:(Z.div_mod_to_equations; lia) ltac:(lia)).
    lia. }
  intros i Hi1 Hi2. apply (G (Z.to_nat i)); lia.
Qed.

Lemma heap_extract_stop a pl n N :
  0 <= n -> n <= 1 -> n <= N ->
  sorted_seg v a (pl + n) (pl + N - 1) ->
  (forall i k, 1 <= i -> i <= n -> n + 1 <= k -> k <= N ->
     key v a (pl + i - 1) <= key v a (pl + k - 1)) ->
  sorted_seg v a pl (pl + N - 1).
Proof.
  intros H0 H1 H2 Hs Hc i j Hi Hij Hj.
  destruct (Z.leb_spec (pl + n) i). { apply Hs; lia. }
  replace i with (pl + 1 - 1) by lia.
  destruct (Z.eq_dec j i) as [->|Hne]. { replace (pl + 1 - 1) with i by lia. lia. }
  replace j with (pl + (j - pl + 1) - 1) by lia. apply Hc; lia.
Qed.

Lemma heap_extract_spec fuel : forall a pl n N,
  0 <= pl -> 0 <= n -> n <= N -> pl + N - 1 < Z.of_nat (length a) ->
  heap_from v a pl 1 n ->
  sorted_seg v a (pl + n) (pl + N - 1) ->
  (forall i k, 1 <= i -> i <= n -> n + 1 <= k -> k <= N ->
     key v a (pl + i - 1) <= key v a (pl + k - 1)) ->
  n - 1 <= Z.of_nat fuel ->
  let r := heap_extract v fuel a pl n in
  Permutation r a /\ same_out a r pl (pl + N - 1) /\ sorted_seg v r pl (pl + N - 1).
Proof.
  induction fuel as [|f IH]; intros a pl n N H0 H1 H2 H3 Hh Hs Hc Hf r; subst r.
  { cbn [heap_extract]. split; [reflexivity|]. split; [apply same_out_refl|].
    apply (heap_extract_stop a pl n N); auto; lia. }
  cbn [heap_extract]. destruct (Z.ltb_spec 1 n) as [Hn|Hn].
  2: { split; [reflexivity|]. split; [apply same_out_refl|].
       apply (heap_extract_stop a pl n N); auto; lia. }
  set (tmp := at_ a (pl + n - 1)).
  set (a1 := upd a (pl + n - 1) (at_ a pl)).
  set (T := upd a1 pl tmp).
  set (r1 := sift_down v (length a) a1 pl (n - 1) tmp 1 2).
  assert (L1 : length a1 = length a) by (apply upd_length; lia).
  assert (A1 : forall q, 0 <= q -> at_ a1 q = if Z.eqb q (pl + n - 1) then at_ a pl else at_ a q)
    by (intros q Hq; unfold a1; apply at_upd; lia).
  assert (AT : forall q, 0 <= q -> at_ T q = if Z.eqb q pl then tmp else at_ a1 q)
    by (intros q Hq; unfold T; apply at_upd; lia).
  assert (LT : length T = length a) by (unfold T; rewrite upd_length; lia).
  assert (Sift : Permutation r1 T /\ same_out a1 r1 pl (pl + (n - 1) - 1) /\
                 heap_from v r1 pl 1 (n - 1)).
  { apply (sift_down_spec (length a) a1 a1 T pl (n - 1) tmp 1 1); try lia.
    - apply same_out_refl.
    - intros c Hc1 Hc2 Hc3 Hc4 Hc5.
      assert (Hd : c / 2 < c) by (Z.div_mod_to_equations; lia).
      unfold key. rewrite !A1 by lia.
      destruct (Z.eqb_spec (pl + c - 1) (pl + n - 1)); [lia|].
      destruct (Z.eqb_spec (pl + c / 2 - 1) (pl + n - 1)); [lia|].
      apply Hh; lia.
    - replace (pl + 1 - 1) with pl by lia. reflexivity. }
  destruct Sift as (P1 & S1 & Hh1).
  assert (Lr1 : length r1 = length a) by (rewrite (Permutation_length P1); exact LT).
  assert (TP : Permutation T a).
  { unfold T, a1, tmp.
    eapply perm_trans; [apply upd_upd_perm; lia|]. rewrite upd_same by lia. reflexivity. }
  assert (Out : forall q, pl + n - 1 <= q -> at_ r1 q = at_ a1 q).
  { intros q Hq. destruct S1 as [_ S1]. apply S1; lia. }
  assert (Root : forall q, pl + n - 1 < q -> q <= pl + N - 1 -> key v a pl <= key v a q).
  { intros q Hq1 Hq2. replace pl with (pl + 1 - 1) at 1 by lia.
    replace q with (pl + (q - pl + 1) - 1) by lia. apply Hc; lia. }
  assert (Bound : forall q, pl <= q -> q <= pl + n - 2 -> key v r1 q <= key v a pl).
  { intros q Hq1 Hq2.
    assert (STr : same_out T r1 pl (pl + n - 2)).
    { split; [lia|]. intros x Hx Hx'. destruct S1 as [_ S1].
      rewrite S1 by lia. rewrite AT by lia.
      destruct (Z.eqb_spec x pl); [lia|reflexivity]. }
    destruct (seg_from_perm T r1 pl (pl + n - 2) (Permutation_sym P1) STr ltac:(lia)
                ltac:(lia) q ltac:(lia)) as (q' & Hq' & E).
    unfold key. rewrite E, AT by lia.
    destruct (Z.eqb_spec q' pl).
    - unfold tmp. apply (heap_root_max a pl n Hh n); lia.
    - rewrite A1 by lia. destruct (Z.eqb_spec q' (pl + n - 1)); [lia|].
      replace q' with (pl + (q' - pl + 1) - 1) by lia.
      apply (heap_root_max a pl n Hh); lia. }
  destruct (IH r1 pl (n - 1) N) as (P2 & S2 & Hs2); try lia.
  - exact Hh1.
  - intros i j Hi Hij Hj. unfold key. rewrite !Out by lia. rewrite !A1 by lia.
    destruct (Z.eqb_spec i (pl + n - 1)); destruct (Z.eqb_spec j (pl + n - 1)); try lia.
    + apply (Root j); lia.
    + apply Hs; lia.
  - intros i k Hi1 Hi2 Hk1 Hk2.
    eapply Z.le_trans; [apply Bound; lia|].
    unfold key. rewrite Out by lia. rewrite A1 by lia.
    destruct (Z.eqb_spec (pl + k - 1) (pl + n - 1)); [lia|].
    apply (Root (pl + k - 1)); lia.
  - split; [eapply perm_trans; [exact P2|eapply perm_trans; [exact P1|exact TP]]|].
    split; [|exact Hs2].
    apply same_out_trans with a1; [unfold a1; apply same_out_upd; lia|].
    apply same_out_trans with r1; [|exact S2].
    apply (same_out_widen a1 r1 pl (pl + (n - 1) - 1)); auto; lia.
Qed.

Lemma aheapsort_spec a pl n :
  0 <= pl -> 0 <= n -> pl + n - 1 < Z.of_nat (length a) ->
  let r := aheapsort v a pl n in
  Permutation r a /\ same_out a r pl (pl + n - 1) /\ sorted_seg v r pl (pl + n - 1).
Proof.
  intros H0 H1 H2 r. unfold r, aheapsort. rewrite shiftr_1.
  destruct (heapify_spec (length a) a pl n (n / 2)) as (P1 & S1 & Hh1);
    try (Z.div_mod_to_equations; lia).
  { intros c Hc1 Hc2 Hc3. Z.div_mod_to_equations. lia. }
  set (h := heapify v (length a) a pl n (n / 2)) in *.
  assert (Lh : length h = length a) by exact (Permutation_length P1).
  destruct (heap_extract_spec (length a) h pl n n) as (P2 & S2 & Hs2);
    try exact Hh1; try (unfold sorted_seg; intros; lia).
  - split; [eapply perm_trans; [exact P2|exact P1]|].
    split; [eapply same_out_trans; [exact S1|exact S2]|exact Hs2].
Qed.

(* ------------------------------------------------------------------ *)
(** ** [aquicksort]: the outer loop *)

Lemma pending_weight_pos segs n :
  segs_in n segs -> 0 <= pending_weight segs.
Proof.
  induction 1 as [|s r Hs Hr IHr]; simpl; lia.
Qed.

Lemma aquicksort_loop_spec fuel : forall a pl pr cd stack,
  segs_in (Z.of_nat (length a)) ((pl, pr) :: map fst stack) ->
  segs_disjoint ((pl, pr) :: map fst stack) ->
  ordered_except v a ((pl, pr) :: map fst stack) ->
  pending_weight ((pl, pr) :: map fst stack) <= Z.of_nat fuel ->
  let r := aquicksort_loop v fuel a pl pr cd stack in
  Permutation r a /\ ordered_except v r [].
Proof.
  induction fuel as [|f IH]; intros a pl pr cd stack Hin Hd Ho Hw r; subst r.
  { exfalso. pose proof (pending_weight_pos _ _ Hin).
    inversion Hin as [|s rs Hs Hrs]; subst. simpl in Hs, Hw, H.
    pose proof (pending_weight_pos _ _ Hrs). lia. }
  (* what happens once the current stretch [(p, q)] has been sorted *)
  assert (Next : forall a' p q stack',
    Permutation a' a ->
    segs_in (Z.of_nat (length a)) ((p, q) :: map fst stack') ->
    segs_disjoint ((p, q) :: map fst stack') ->
    ordered_except v a' (map fst stack') ->
    pending_weight ((p, q) :: map fst stack') <= Z.of_nat (S f) ->
    Permutation
      match stack' with
      | [] => a'
      | (pl', pr', cd') :: rest => aquicksort_loop v f a' pl' pr' cd' rest
      end a /\
    ordered_except v
      match stack' with
      | [] => a'
      | (pl', pr', cd') :: rest => aquicksort_loop v f a' pl' pr' cd' rest
      end []).
  { intros a' p q stack' P Hin' Hd' Ho' Hw'.
    destruct stack' as [|[[pl' pr'] cd'] rest].
    - exact (conj P Ho').
    - inversion Hin' as [|s rs Hs Hrs]; subst. simpl in Hs.
      destruct Hd' as [_ Hdr].
      assert (La : length a' = length a) by exact (Permutation_length P).
      destruct (IH a' pl' pr' cd' rest) as [P2 Ho2].
      + rewrite La. exact Hrs.
      + exact Hdr.
      + exact Ho'.
      + simpl in Hw' |- *. lia.
      + split; [eapply perm_trans; [exact P2|exact P]|exact Ho2]. }
  cbn [aquicksort_loop].
  inversion Hin as [|s rs Hs Hrs]; subst. simpl in Hs.
  destruct (Z.ltb_spec cd 0) as [Hc|Hc].
  - destruct (aheapsort_spec a pl (pr - pl + 1)) as (P & S & Hs'); try lia.
    replace (pl + (pr - pl + 1) - 1) with pr in S, Hs' by lia.
    apply (Next _ pl pr); auto.
    apply (finish_segment v a _ pl pr (map fst stack)); auto; lia.
  - destruct (partition_phase v (length a) a pl pr cd stack)
      as [[[[a1 pl1] pr1] cd1] stack1] eqn:E.
    destruct (partition_phase_spec (length a) a pl pr cd stack Hin Hd Ho
                ltac:(lia) a1 pl1 pr1 cd1 stack1 E) as (P1 & Hin1 & Hd1 & Ho1 & Hw1).
    assert (La1 : length a1 = length a) by exact (Permutation_length P1).
    inversion Hin1 as [|s1 rs1 Hs1 Hrs1]; subst. simpl in Hs1.
    destruct (insertion_sort_from_spec (length a) a1 pl1 (pl1 + 1) pr1)
      as (P2 & S2 & Hs2); try lia.
    { intros i j Hi Hij Hj. replace i with j by lia. lia. }
    apply (Next _ pl1 pr1); auto.
    + eapply perm_trans; [exact P2|exact P1].
    + apply (finish_segment v a1 _ pl1 pr1 (map fst stack1)); auto; lia.
    + lia.
Qed.

Lemma aquicksort_spec num :
  let r := aquicksort v num in
  Permutation r (seq 0 num) /\
  forall i j, 0 <= i -> i < j -> j < Z.of_nat num -> key v r i <= key v r j.
Proof.
  intros r. unfold r, aquicksort.
  destruct (aquicksort_loop_spec (S num) (seq 0 num) 0 (Z.of_nat num - 1)
              (npy_get_msb (Z.of_nat num) * 2) []) as [P Ho].
  - rewrite length_seq. repeat constructor; simpl; lia.
  - simpl. split; [constructor|exact I].
  - intros i j Hi Hij Hj Hc. exfalso. apply Hc.
    exists (0, Z.of_nat num - 1). rewrite length_seq in Hj. simpl. split; [left; reflexivity|lia].
  - simpl. lia.
  - split; [exact P|]. intros i j Hi Hij Hj. apply Ho; auto.
    + rewrite (Permutation_length P), length_seq. exact Hj.
    + intros [s [[] _]].
Qed.
End SortProof2.

(* ------------------------------------------------------------------ *)
(** ** [sort_values] *)

Lemma map_nth_seq_self {A} (l : list A) (d : A) :
  map (fun i => nth i l d) (seq 0 (length l)) = l.
Proof.
  induction l as [|x l IHl]; [reflexivity|].
  cbn [length seq map nth]. f_equal.
  rewrite <- seq_shift, map_map. exact IHl.
Qed.

Lemma nth_map_lt {A B} (f : A -> B) (l : list A) i d d0 :
  (i < length l)%nat -> nth i (map f l) d = f (nth i l d0).
Proof.
  intros H. rewrite (nth_indep _ d (f d0)) by (rewrite length_map; exact H).
  apply map_nth.
Qed.

Lemma strongly_sorted_of_nth {A} (R : A -> A -> Prop) (l : list A) (d : A) :
  (forall i j, (i < j)%nat -> (j < length l)%nat -> R (nth i l d) (nth j l d)) ->
  StronglySorted R l.
Proof.
  induction l as [|x l IHl]; intros H; constructor.
  - apply IHl. intros i j Hij Hj. apply (H (S i) (S j)); simpl; lia.
  - apply Forall_forall. intros y Hy.
    destruct (In_nth l y d Hy) as [k [Hk <-]].
    apply (H 0%nat (S k)); simpl; lia.
Qed.

Lemma sort_values_perm df : Permutation (sort_values df) df.
Proof.
  unfold sort_values.
  set (d := mk_reading (mk_ts 0 0 0 0 0 0 0) 0).
  set (v := fun i => ts_key (displayTime (nth i df d))).
  destruct (aquicksort_spec v (length df)) as [P _].
  transitivity (map (fun i => nth i df d) (seq 0 (length df))).
  - apply Permutation_map. exact P.
  - rewrite map_nth_seq_self. reflexivity.
Qed.

Lemma sort_values_ordered df :
  StronglySorted (fun r1 r2 => ts_key (displayTime r1) <= ts_key (displayTime r2))
    (sort_values df).
Proof.
  set (d := mk_reading (mk_ts 0 0 0 0 0 0 0) 0).
  apply (strongly_sorted_of_nth _ _ d).
  intros i j Hij Hj.
  assert (L : length (sort_values df) = length df)
    by exact (Permutation_length (sort_values_perm df)).
  unfold sort_values in *. fold d in L, Hj |- *.
  set (v := fun i => ts_key (displayTime (nth i df d))) in *.
  destruct (aquicksort_spec v (length df)) as [P S].
  set (r := aquicksort v (length df)) in *.
  assert (Lr : length r = length df) by (rewrite (Permutation_length P), length_seq; reflexivity).
  rewrite length_map in Hj.
  rewrite !(nth_map_lt _ r _ d 0%nat) by lia.
  specialize (S (Z.of_nat i) (Z.of_nat j) ltac:(lia) ltac:(lia) ltac:(lia)).
  unfold key, at_ in S. rewrite !Nat2Z.id in S. exact S.
Qed.

Lemma filter_perm {A} (f : A -> bool) (l l' : list A) :
  Permutation l l' -> Permutation (filter f l) (filter f l').
Proof.
  induction 1 as [|x l l' _ IH|x y l|l l' l'' _ IH1 _ IH2]; simpl.
  - constructor.
  - destruct (f x); [constructor|]; exact IH.
  - destruct (f x), (f y); try constructor; reflexivity.
  - eapply perm_trans; eauto.
Qed.

Lemma in_range_count_perm df df' :
  Permutation df df' -> in_range_count df = in_range_count df'.
Proof.
  intros P. unfold in_range_count, values_of. f_equal.
  apply Permutation_length. apply filter_perm. apply Permutation_map. exact P.
Qed.

(* ------------------------------------------------------------------ *)
(** ** C5 *)

(** C5: for every non-empty reading list, [plot_glucose_data] reports
    time in range as the number of readings with a value in [[70, 180]]
    divided by the number of readings, times 100 (line 194; the rows are
    only reordered by the sort, which keeps both counts).  An empty list
    stops at the "No glucose readings" warning before any statistic is
    computed, and the guard of line 194 makes the empty case 0 with 0
    readings, so no division by zero occurs. *)
Theorem time_in_range_is_in_range_share :
  (forall df,
     match plot_glucose_data (Some df) with
     | Plotted _ st =>
         df <> [] /\
         total_readings st = Z.of_nat (length df) /\
         time_in_range st =
           (inject_Z (in_range_count df) / inject_Z (Z.of_nat (length df)) * 100)%Q
     | NoReadingsWarning => df = []
     | NoDataWarning => False
     end) /\
  compute_time_in_range [] = 0%Q /\ total_readings (compute_stats []) = 0.
Proof.
  split; [|split; reflexivity].
  intros df. destruct df as [|r0 rs]; [reflexivity|].
  cbn [plot_glucose_data]. set (df := r0 :: rs).
  assert (P : Permutation (sort_values df) df) by apply sort_values_perm.
  assert (L : length (sort_values df) = length df) by exact (Permutation_length P).
  split; [discriminate|].
  unfold compute_stats, compute_time_in_range. cbn [total_readings time_in_range].
  rewrite L, (in_range_count_perm _ _ P).
  split; [reflexivity|].
  destruct (Z.ltb_spec 0 (Z.of_nat (length df))); [reflexivity|].
  subst df. simpl in *. lia.
Qed.

(* ------------------------------------------------------------------ *)
(** ** C7 *)

(** C7 (as the code does it): the chart series holds the readings of
    the input, reordered, and sorted non-decreasing by timestamp. *)
Theorem chart_series_sorted_by_timestamp : forall df,
  Sorted (fun r1 r2 => ts_key (displayTime r1) <= ts_key (displayTime r2))
    (map fst (to_chart_series df)) /\
  Permutation (map fst (to_chart_series df)) df.
Proof.
  intros df. unfold to_chart_series. rewrite map_map. cbn [fst].
  rewrite map_id. split.
  - apply StronglySorted_Sorted. apply sort_values_ordered.
  - apply sort_values_perm.
Qed.

(** C7 counterexample: seventeen readings share one timestamp, so a
    stable sort would leave them as they are.  numpy's quicksort, which
    [sort_values] uses by default, partitions a stretch of more than
    [SMALL_QUICKSORT + 1 = 16] entries and reorders them; sixteen tied
    readings, sorted by insertion alone, keep their order. *)
Lemma tied_readings_reordered :
  (forall r, In r tied_readings -> displayTime r = mk_ts 2025 1 1 8 0 0 0) /\
  map value tied_readings = map Z.of_nat (seq 0 17) /\
  map (fun p => value (fst p)) (to_chart_series tied_readings) =
    [0; 14; 13; 12; 11; 10; 9; 15; 8; 6; 5; 4; 3; 2; 1; 7; 16] /\
  map fst (to_chart_series tied_readings) <> tied_readings /\
  map fst (to_chart_series (firstn 16 tied_readings)) = firstn 16 tied_readings.
Proof.
  split; [|split; [reflexivity|split; [|split]]].
  - intros r Hr. unfold tied_readings in Hr. apply in_map_iff in Hr.
    destruct Hr as [k [<- _]]. reflexivity.
  - vm_compute. reflexivity.
  - intros E. apply (f_equal (map value)) in E. vm_compute in E. discriminate E.
  - vm_compute. reflexivity.
Qed.

(* ------------------------------------------------------------------ *)
(** ** Digits *)

Lemma digit_char_val d : 0 <= d < 10 -> digit_val (digit_char d) = d.
Proof.
  intros H. unfold digit_val, digit_char.
  rewrite nat_ascii_embedding by lia. lia.
Qed.

Lemma digit_char_is_digit d : 0 <= d < 10 -> is_digit (digit_char d) = true.
Proof.
  intros H. unfold is_digit, digit_char.
  rewrite nat_ascii_embedding by lia.
  apply andb_true_intro; split; apply Nat.leb_le; lia.
Qed.

Lemma digits_value_app ds c :
  digits_value (ds ++ [c]) = digits_value ds * 10 + digit_val c.
Proof. unfold digits_value. rewrite fold_left_app. reflexivity. Qed.

Lemma dec_digits_spec f : forall z acc,
  (1 <= f)%nat -> 0 <= z -> z < 10 ^ Z.of_nat f ->
  exists ds, dec_digits f z acc = ds ++ acc /\ ds <> [] /\
    Forall (fun c => is_digit c = true) ds /\ digits_value ds = z /\
    (forall k, 1 <= k -> z < 10 ^ k -> Z.of_nat (length ds) <= k).
Proof.
  induction f as [|f IH]; intros z acc Hf Hz Hlt; [lia|].
  cbn [dec_digits].
  assert (Hm : 0 <= z mod 10 < 10) by (apply Z.mod_pos_bound; lia).
  destruct (Z.ltb_spec z 10) as [H10|H10].
  - exists [digit_char (z mod 10)]. split; [reflexivity|].
    split; [discriminate|]. split; [constructor; [apply digit_char_is_digit; lia|constructor]|].
    split.
    + unfold digits_value. simpl. rewrite digit_char_val by lia.
      rewrite Z.mod_small by lia. reflexivity.
    + intros k Hk _. simpl. lia.
  - assert (Hf' : (1 <= f)%nat).
    { destruct f; [|lia]. simpl in Hlt. lia. }
    destruct (IH (z / 10) (digit_char (z mod 10) :: acc) Hf')
      as (ds & E & Hne & Hd & Hv & Hl).
    + apply Z.div_pos; lia.
    + rewrite Nat2Z.inj_succ, Z.pow_succ_r in Hlt by lia.
      apply Z.div_lt_upper_bound; lia.
    + exists (ds ++ [digit_char (z mod 10)]). split.
      { rewrite E, <- app_assoc. reflexivity. }
      split; [destruct ds; simpl; discriminate|].
      split; [apply Forall_app; split; [exact Hd|constructor; [apply digit_char_is_digit; lia|constructor]]|].
      split.
      * rewrite digits_value_app, Hv, digit_char_val by lia.
        pose proof (Z.div_mod z 10). lia.
      * intros k Hk Hzk. rewrite length_app. simpl.
        assert (k <> 1) by (intros ->; lia).
        assert (z / 10 < 10 ^ (k - 1)).
        { apply Z.div_lt_upper_bound; [lia|].
          replace (10 * 10 ^ (k - 1)) with (10 ^ k); [lia|].
          rewrite <- Z.pow_succ_r by lia. f_equal. lia. }
        specialize (Hl (k - 1) ltac:(lia) ltac:(assumption)). lia.
Qed.

Lemma show_nonneg_spec z : 0 <= z ->
  let ds := show_nonneg z in
  ds <> [] /\ Forall (fun c => is_digit c = true) ds /\ digits_value ds = z /\
  (forall k, 1 <= k -> z < 10 ^ k -> Z.of_nat (length ds) <= k).
Proof.
  intros Hz ds. unfold ds, show_nonneg.
  destruct (dec_digits_spec (S (Z.to_nat (Z.log2 z))) z [] ltac:(lia) Hz)
    as (ds' & E & H); [|rewrite E, app_nil_r; exact H].
  destruct (Z.eq_dec z 0) as [->|Hnz]; [simpl; lia|].
  pose proof (Z.log2_spec z ltac:(lia)) as [_ H2].
  pose proof (Z.log2_nonneg z).
  rewrite Nat2Z.inj_succ, Z2Nat.id by lia.
  eapply Z.lt_le_trans; [exact H2|].
  rewrite <- Z.add_1_r. apply Z.pow_le_mono_l. lia.
Qed.

Lemma digits_value_zeros n ds :
  digits_value (repeat "0"%char n ++ ds) = digits_value ds.
Proof.
  unfold digits_value. rewrite fold_left_app.
  assert (fold_left (fun acc c => acc * 10 + digit_val c) (repeat "0"%char n) 0 = 0)
    as ->; [|reflexivity].
  induction n as [|n IHn]; [reflexivity|]. cbn [repeat fold_left].
  replace (0 * 10 + digit_val "0"%char) with 0 by reflexivity. exact IHn.
Qed.

Lemma show_padded_spec n z :
  0 <= z -> z < 10 ^ Z.of_nat n -> (1 <= n)%nat ->
  let ds := show_padded n z in
  length ds = n /\ Forall (fun c => is_digit c = true) ds /\ digits_value ds = z.
Proof.
  intros Hz Hlt Hn ds. unfold ds, show_padded.
  destruct (show_nonneg_spec z Hz) as (Hne & Hd & Hv & Hl).
  specialize (Hl (Z.of_nat n) ltac:(lia) Hlt).
  split; [rewrite length_app, repeat_length; lia|].
  split; [apply Forall_app; split; [apply Forall_forall; intros c Hc;
           apply repeat_spec in Hc; subst c; reflexivity|exact Hd]|].
  rewrite digits_value_zeros. exact Hv.
Qed.

Lemma span_digits_app ds rest :
  Forall (fun c => is_digit c = true) ds ->
  match rest with [] => True | c :: _ => is_digit c = false end ->
  span_digits (ds ++ rest) = (ds, rest).
Proof.
  intros Hd Hr. induction Hd as [|c ds Hc Hds IH]; simpl.
  - destruct rest as [|c rest]; [reflexivity|]. simpl. rewrite Hr. reflexivity.
  - rewrite Hc, IH. reflexivity.
Qed.

Lemma fixed_digits_padded n z rest :
  0 <= z -> z < 10 ^ Z.of_nat n -> (1 <= n)%nat ->
  match rest with [] => True | c :: _ => is_digit c = false end ->
  fixed_digits n (show_padded n z ++ rest) = Some (z, rest).
Proof.
  intros H1 H2 H3 Hr. destruct (show_padded_spec n z H1 H2 H3) as (L & D & V).
  unfold fixed_digits. rewrite span_digits_app by assumption.
  rewrite L, Nat.eqb_refl, V. reflexivity.
Qed.

Lemma parse_int_show z : parse_int (show_int z) = Some z.
Proof.
  unfold parse_int, show_int.
  destruct (Z.ltb_spec z 0) as [Hn|Hn].
  - destruct (show_nonneg_spec (- z) ltac:(lia)) as (Hne & Hd & Hv & _).
    cbv [Ascii.eqb Bool.eqb].
    rewrite <- (app_nil_r (show_nonneg (- z))), span_digits_app by (auto; exact I).
    destruct (show_nonneg (- z)) as [|c cs]; [congruence|].
    cbn -[digits_value]. rewrite Hv. f_equal. lia.
  - destruct (show_nonneg_spec z ltac:(lia)) as (Hne & Hd & Hv & _).
    destruct (show_nonneg z) as [|c cs] eqn:E; [congruence|].
    inversion Hd as [|c' cs' Hc Hcs]; subst.
    assert (Hm : Ascii.eqb c "-"%char = false).
    { destruct (Ascii.eqb_spec c "-"%char); [subst c; discriminate|reflexivity]. }
    rewrite Hm.
    rewrite <- (app_nil_r (c :: cs)), span_digits_app by (auto; exact I).
    cbn -[digits_value]. rewrite app_nil_r. reflexivity.
Qed.

Lemma reso_stamp_ns t :
  0 <= ts_nanosecond t ->
  (reso_rank RESO_US <= reso_rank (reso_stamp t))%nat -> ts_nanosecond t mod 1000 = 0.
Proof.
  intros H0. unfold reso_stamp.
  destruct (Z.eqb_spec ((ts_nanosecond t mod 1000) * 1000) 0); [lia|].
  simpl. lia.
Qed.

Lemma reso_stamp_us t :
  0 <= ts_nanosecond t ->
  (reso_rank RESO_MS <= reso_rank (reso_stamp t))%nat -> (ts_nanosecond t / 1000) mod 1000 = 0.
Proof.
  intros H0. unfold reso_stamp.
  destruct (Z.eqb_spec ((ts_nanosecond t mod 1000) * 1000) 0); [|simpl; lia].
  destruct (Z.eqb_spec (ts_nanosecond t / 1000) 0) as [E|E]; [rewrite E; reflexivity|].
  simpl. destruct (Z.eqb_spec ((ts_nanosecond t / 1000) mod 1000) 0); [auto|simpl; lia].
Qed.

Lemma reso_stamp_sec t :
  0 <= ts_nanosecond t ->
  (reso_rank RESO_SEC <= reso_rank (reso_stamp t))%nat -> ts_nanosecond t = 0.
Proof.
  intros H0. unfold reso_stamp.
  destruct (Z.eqb_spec ((ts_nanosecond t mod 1000) * 1000) 0); [|simpl; lia].
  destruct (Z.eqb_spec (ts_nanosecond t / 1000) 0) as [E|E].
  - intros _. pose proof (Z.div_mod (ts_nanosecond t) 1000). lia.
  - simpl. destruct (Z.eqb ((ts_nanosecond t / 1000) mod 1000) 0); simpl; lia.
Qed.

Lemma parse_ts_base y mo d h mi s ns frac :
  1 <= y -> 0 <= mo < 100 -> 0 <= d < 100 -> 0 <= h < 100 -> 0 <= mi < 100 -> 0 <= s < 100 ->
  (frac = [] /\ ns = 0) \/
  (exists k x, frac = "."%char :: show_padded k x /\ (1 <= k <= 9)%nat /\
     0 <= x < 10 ^ Z.of_nat k /\ ns = x * 10 ^ Z.of_nat (9 - k)) ->
  parse_ts (show_nonneg y ++ "-"%char :: show_padded 2 mo ++ "-"%char :: show_padded 2 d
            ++ " "%char :: show_padded 2 h ++ ":"%char :: show_padded 2 mi ++ ":"%char
            :: show_padded 2 s ++ frac) = Some (mk_ts y mo d h mi s ns).
Proof.
  intros Hy Hmo Hd Hh Hmi Hs Hf.
  destruct (show_nonneg_spec y ltac:(lia)) as (Yne & Yd & Yv & _).
  assert (P2 : forall z rest, 0 <= z < 100 ->
            match rest with [] => True | c :: _ => is_digit c = false end ->
            fixed_digits 2 (show_padded 2 z ++ rest) = Some (z, rest))
    by (intros z rest Hz Hrest; apply fixed_digits_padded; simpl; auto; lia).
  unfold parse_ts.
  rewrite span_digits_app by (auto; reflexivity).
  destruct (show_nonneg y) as [|yc ys]; [congruence|].
  cbv beta iota.
  rewrite P2 by (auto; reflexivity). cbv beta iota.
  rewrite P2 by (auto; reflexivity). cbv beta iota.
  rewrite P2 by (auto; reflexivity). cbv beta iota.
  rewrite P2 by (auto; reflexivity). cbv beta iota.
  destruct Hf as [[-> ->] | (k & x & -> & Hk & Hx & ->)].
  - rewrite P2 by (auto; exact I). cbv beta iota. rewrite Yv. reflexivity.
  - rewrite P2 by (auto; reflexivity). cbv beta iota.
    destruct (show_padded_spec k x ltac:(lia) ltac:(lia) ltac:(lia)) as (L & D & V).
    rewrite <- (app_nil_r (show_padded k x)), span_digits_app by (auto; exact I).
    cbv beta iota. rewrite L.
    replace (Nat.leb 1 k && Nat.leb k 9) with true
      by (symmetry; apply andb_true_intro; split; apply Nat.leb_le; lia).
    rewrite V, Yv. reflexivity.
Qed.

Lemma parse_ts_format (b : bool) r t :
  valid_ts t ->
  (b = true -> ts_hour t = 0 /\ ts_minute t = 0 /\ ts_second t = 0 /\ ts_nanosecond t = 0) ->
  (reso_rank r <= reso_rank (reso_stamp t))%nat ->
  parse_ts (format_ts b r t) = Some t.
Proof.
  intros (Hy & Hmo & Hd & Hh & Hmi & Hs & Hns) Hb Hr.
  assert (Y : show_int (ts_year t) = show_nonneg (ts_year t))
    by (unfold show_int; destruct (Z.ltb_spec (ts_year t) 0); [lia|reflexivity]).
  unfold format_ts. rewrite Y.
  destruct b.
  - destruct (Hb eq_refl) as (H1 & H2 & H3 & H4).
    destruct (show_nonneg_spec (ts_year t) ltac:(lia)) as (Yne & Yd & Yv & _).
    assert (P2 : forall z rest, 0 <= z < 100 ->
              match rest with [] => True | c :: _ => is_digit c = false end ->
              fixed_digits 2 (show_padded 2 z ++ rest) = Some (z, rest))
      by (intros z rest Hz Hrest; apply fixed_digits_padded; simpl; auto; lia).
    unfold parse_ts.
    rewrite span_digits_app by (auto; reflexivity).
    destruct (show_nonneg (ts_year t)) as [|yc ys]; [congruence|].
    rewrite P2 by (auto; lia || reflexivity).
    rewrite <- (app_nil_r (show_padded 2 (ts_day t))), P2 by (auto; lia || exact I).
    rewrite Yv. destruct t; simpl in *; subst; reflexivity.
  - assert (E : forall ns, ns = ts_nanosecond t ->
              mk_ts (ts_year t) (ts_month t) (ts_day t) (ts_hour t) (ts_minute t)
                (ts_second t) ns = t)
      by (intros ns ->; destruct t; reflexivity).
    destruct r; repeat (rewrite <- app_assoc || rewrite <- app_comm_cons);
      [idtac|idtac|idtac|rewrite <- (app_nil_r (show_padded 2 (ts_second t)))..];
      (rewrite (parse_ts_base _ _ _ _ _ _ (ts_nanosecond t)); [f_equal; apply E; reflexivity|lia..|]).
    + right. exists 9%nat, (ts_nanosecond t). simpl. repeat split; lia.
    + right. exists 6%nat, (ts_nanosecond t / 1000).
      pose proof (reso_stamp_ns t ltac:(lia) Hr).
      split; [reflexivity|]. split; [lia|]. split; [simpl; Z.div_mod_to_equations; lia|].
      simpl. pose proof (Z.div_mod (ts_nanosecond t) 1000). lia.
    + right. exists 3%nat, (ts_nanosecond t / 1000 / 1000).
      pose proof (reso_stamp_ns t ltac:(lia) ltac:(simpl in *; lia)).
      pose proof (reso_stamp_us t ltac:(lia) Hr).
      split; [reflexivity|]. split; [lia|]. split; [simpl; Z.div_mod_to_equations; lia|].
      simpl. pose proof (Z.div_mod (ts_nanosecond t) 1000).
      pose proof (Z.div_mod (ts_nanosecond t / 1000) 1000). lia.
    + left. split; [reflexivity|]. apply reso_stamp_sec; [lia|exact Hr].
    + left. split; [reflexivity|]. apply reso_stamp_sec; [lia|simpl in *; lia].
    + left. split; [reflexivity|]. apply reso_stamp_sec; [lia|simpl in *; lia].
    + left. split; [reflexivity|]. apply reso_stamp_sec; [lia|simpl in *; lia].
Qed.

(* ------------------------------------------------------------------ *)
(** ** The CSV tokenizer on unquoted fields *)

Lemma needs_quote_app f g : needs_quote (f ++ g) = needs_quote f || needs_quote g.
Proof. unfold needs_quote. apply existsb_app. Qed.

Lemma needs_quote_cons c f :
  needs_quote (c :: f) =
    (Ascii.eqb c COMMA || Ascii.eqb c QUOTE || Ascii.eqb c NL || Ascii.eqb c CR)
    || needs_quote f.
Proof. reflexivity. Qed.

Lemma digits_no_quote ds :
  Forall (fun c => is_digit c = true) ds -> needs_quote ds = false.
Proof.
  induction 1 as [|c ds Hc _ IH]; [reflexivity|].
  rewrite needs_quote_cons, IH, orb_false_r.
  destruct (Ascii.eqb_spec c COMMA); [subst; discriminate|].
  destruct (Ascii.eqb_spec c QUOTE); [subst; discriminate|].
  destruct (Ascii.eqb_spec c NL); [subst; discriminate|].
  destruct (Ascii.eqb_spec c CR); [subst; discriminate|].
  reflexivity.
Qed.

Lemma show_nonneg_no_quote z : 0 <= z -> needs_quote (show_nonneg z) = false.
Proof.
  intros Hz. destruct (show_nonneg_spec z Hz) as (_ & Hd & _).
  apply digits_no_quote. exact Hd.
Qed.

Lemma show_padded_no_quote n z : 0 <= z -> needs_quote (show_padded n z) = false.
Proof.
  intros Hz. unfold show_padded. rewrite needs_quote_app, show_nonneg_no_quote by exact Hz.
  rewrite orb_false_r. apply digits_no_quote.
  apply Forall_forall. intros c Hc. apply repeat_spec in Hc. subst c. reflexivity.
Qed.

Lemma show_int_no_quote z : needs_quote (show_int z) = false.
Proof.
  unfold show_int. destruct (Z.ltb_spec z 0).
  - rewrite needs_quote_cons, show_nonneg_no_quote by lia. reflexivity.
  - apply show_nonneg_no_quote. lia.
Qed.

Lemma format_ts_no_quote b r t :
  valid_ts t -> needs_quote (format_ts b r t) = false.
Proof.
  intros (Hy & Hmo & Hd & Hh & Hmi & Hs & Hns).
  assert (0 <= ts_nanosecond t / 1000) by (apply Z.div_pos; lia).
  assert (0 <= ts_nanosecond t / 1000 / 1000) by (apply Z.div_pos; lia).
  unfold format_ts.
  destruct b; [|destruct r];
    repeat (rewrite needs_quote_app || rewrite needs_quote_cons);
    rewrite ?show_int_no_quote, ?show_padded_no_quote by lia; reflexivity.
Qed.

Lemma csv_field_plain f : needs_quote f = false -> csv_field f = f.
Proof. intros H. unfold csv_field. rewrite H. reflexivity. Qed.

Lemma tokenize_in_field f : forall cs fld row,
  needs_quote f = false ->
  csv_tokenize (f ++ cs) InField fld row = csv_tokenize cs InField (fld ++ f) row.
Proof.
  induction f as [|c f IH]; intros cs fld row Hq.
  - rewrite app_nil_r. reflexivity.
  - rewrite needs_quote_cons in Hq.
    apply orb_false_elim in Hq as [Hc Hq].
    apply orb_false_elim in Hc as [Hc Hcr].
    apply orb_false_elim in Hc as [Hc Hnl].
    apply orb_false_elim in Hc as [Hcm Hqt].
    cbn [app csv_tokenize]. rewrite Hnl, Hcm.
    rewrite IH by exact Hq. rewrite <- app_assoc. reflexivity.
Qed.

Lemma tokenize_row2 t x rest :
  needs_quote t = false -> needs_quote x = false ->
  csv_tokenize (csv_row [t; x] ++ rest) StartRecord [] [] =
    option_map (cons [t; x]) (csv_tokenize rest StartRecord [] []).
Proof.
  intros Ht Hx. unfold csv_row. cbn [join_fields].
  rewrite !csv_field_plain by assumption.
  repeat (rewrite <- app_assoc || rewrite <- app_comm_cons). rewrite app_nil_l.
  assert (Second : forall row,
    csv_tokenize (x ++ NL :: rest) StartField [] row =
      option_map (cons (row ++ [x])) (csv_tokenize rest StartRecord [] [])).
  { intros row. destruct x as [|c x'].
    - reflexivity.
    - rewrite needs_quote_cons in Hx.
      apply orb_false_elim in Hx as [Hc Hq].
      apply orb_false_elim in Hc as [Hc Hcr].
      apply orb_false_elim in Hc as [Hc Hnl].
      apply orb_false_elim in Hc as [Hcm Hqt].
      cbn [app csv_tokenize]. rewrite Hnl, Hqt, Hcm.
      rewrite tokenize_in_field by exact Hq. reflexivity. }
  destruct t as [|c t'].
  - cbn [app csv_tokenize]. exact (Second [[]]).
  - rewrite needs_quote_cons in Ht.
    apply orb_false_elim in Ht as [Hc Hq].
    apply orb_false_elim in Hc as [Hc Hcr].
    apply orb_false_elim in Hc as [Hc Hnl].
    apply orb_false_elim in Hc as [Hcm Hqt].
    cbn [app csv_tokenize]. rewrite Hnl, Hqt, Hcm.
    rewrite tokenize_in_field by exact Hq. cbn [app csv_tokenize]. exact (Second _).
Qed.

Lemma tokenize_rows pairs :
  Forall (fun p => needs_quote (fst p) = false /\ needs_quote (snd p) = false) pairs ->
  csv_tokenize (flat_map (fun '(t, x) => csv_row [t; x]) pairs) StartRecord [] [] =
    Some (map (fun '(t, x) => [t; x]) pairs).
Proof.
  induction 1 as [|[t x] ps [Ht Hx] _ IH]; [reflexivity|].
  cbn [flat_map map]. rewrite tokenize_row2 by assumption. rewrite IH. reflexivity.
Qed.

Lemma get_resolution_finest ts :
  forall t, In t ts -> (reso_rank (get_resolution ts) <= reso_rank (reso_stamp t))%nat.
Proof.
  unfold get_resolution.
  set (F := fun r t => if Nat.ltb (reso_rank (reso_stamp t)) (reso_rank r)
                       then reso_stamp t else r).
  assert (G : forall ts acc,
    (reso_rank (fold_left F ts acc) <= reso_rank acc)%nat /\
    forall t, In t ts -> (reso_rank (fold_left F ts acc) <= reso_rank (reso_stamp t))%nat).
  { intros ts0. induction ts0 as [|t0 ts0 IH]; intros acc; [split; [cbn [fold_left]; lia|intros t []]|].
    cbn [fold_left]. destruct (IH (F acc t0)) as [H1 H2].
    assert (HF : (reso_rank (F acc t0) <= reso_rank acc)%nat /\
                 (reso_rank (F acc t0) <= reso_rank (reso_stamp t0))%nat).
    { unfold F. destruct (Nat.ltb_spec (reso_rank (reso_stamp t0)) (reso_rank acc)); cbv beta iota; lia. }
    split; [lia|]. intros t [<-|Ht]; [lia|]. apply H2. exact Ht. }
  intros t Ht. apply (G ts RESO_DAY). exact Ht.
Qed.

Lemma is_dates_only_midnight ts :
  is_dates_only ts = true -> forall t, In t ts ->
  ts_hour t = 0 /\ ts_minute t = 0 /\ ts_second t = 0 /\ ts_nanosecond t = 0.
Proof.
  unfold is_dates_only. rewrite forallb_forall. intros H t Ht.
  specialize (H t Ht). repeat rewrite andb_true_iff in H.
  destruct H as [[[H1 H2] H3] H4]. apply Z.eqb_eq in H1, H2, H3, H4. auto.
Qed.

Lemma combine_map_same {A B C} (f : A -> B) (g : A -> C) l :
  combine (map f l) (map g l) = map (fun a => (f a, g a)) l.
Proof. induction l as [|a l IH]; simpl; [reflexivity|rewrite IH; reflexivity]. Qed.

(* ------------------------------------------------------------------ *)
(** ** C8 *)

(** C8: for every list of readings whose timestamps have the field
    ranges of a pandas [Timestamp], reading back the text of
    [df.to_csv(index=False)] (header, then one [displayTime,value] row per
    reading) gives the same (timestamp, value) pairs in the same order. *)
Theorem csv_export_round_trip : forall df,
  Forall (fun r => valid_ts (displayTime r)) df ->
  read_csv (to_csv df) = Some (map (fun r => (displayTime r, value r)) df).
Proof.
  intros df Hv. unfold to_csv, read_csv, format_ts_column.
  rewrite map_map, combine_map_same.
  set (ts := map displayTime df).
  set (b := is_dates_only ts). set (r := get_resolution ts).
  rewrite tokenize_row2 by reflexivity.
  rewrite tokenize_rows.
  2: { apply Forall_map. eapply Forall_impl; [|exact Hv].
       intros rd Hrd. split; [apply format_ts_no_quote; exact Hrd|apply show_int_no_quote]. }
  cbn [option_map].
  destruct (list_eq_dec (list_eq_dec ascii_dec) [chars "displayTime"; chars "value"]
              [chars "displayTime"; chars "value"]) as [_|Hne]; [|congruence].
  rewrite map_map.
  assert (Hrow : forall rd, In rd df ->
    parse_row [format_ts b r (displayTime rd); show_int (value rd)] =
      Some (displayTime rd, value rd)).
  { intros rd Hin. unfold parse_row.
    rewrite parse_ts_format, parse_int_show; [reflexivity| | |].
    - rewrite Forall_forall in Hv. apply Hv. exact Hin.
    - intros Hb. apply (is_dates_only_midnight ts Hb). apply in_map. exact Hin.
    - apply get_resolution_finest. apply in_map. exact Hin. }
  clearbody b r. clear Hv.
  induction df as [|rd df IH]; [reflexivity|].
  cbn [map parse_rows]. rewrite Hrow by (left; reflexivity).
  rewrite IH by (intros rd' Hin; apply Hrow; right; exact Hin). reflexivity.
Qed.

(** A concrete export: two readings, one at a whole minute and one with
    milliseconds, so the column is printed with three decimals. *)
Lemma csv_export_round_trip_witness :
  Forall (fun r => valid_ts (displayTime r))
    [reading_at 5 120; mk_reading (mk_ts 2025 1 1 8 7 30 250000000) 95] /\
  read_csv (to_csv [reading_at 5 120; mk_reading (mk_ts 2025 1 1 8 7 30 250000000) 95]) =
    Some [(mk_ts 2025 1 1 8 5 0 0, 120); (mk_ts 2025 1 1 8 7 30 250000000, 95)].
Proof.
  assert (H : Forall (fun r => valid_ts (displayTime r))
                [reading_at 5 120; mk_reading (mk_ts 2025 1 1 8 7 30 250000000) 95]).
  { repeat constructor; unfold valid_ts; simpl; lia. }
  split; [exact H|].
  exact (csv_export_round_trip _ H).
Defined.

(* ------------------------------------------------------------------ *)
(** ** The login URL: [quote_plus] and [parse_qsl] *)

Lemma hex_upper_spec d : (d < 16)%nat ->
  is_hex (hex_upper d) = true /\ hex_val (hex_upper d) = d /\
  hex_upper d <> "+"%char /\ hex_upper d <> "&"%char /\ hex_upper d <> "="%char.
Proof.
  intros H.
  do 16 (destruct d as [|d]; [repeat split; discriminate|]). lia.
Qed.

Lemma quote_byte_cases c :
  (quote_byte c = [c] /\ c <> "%"%char /\ c <> "+"%char /\ c <> "&"%char /\ c <> "="%char) \/
  (quote_byte c = ["+"%char] /\ c = " "%char) \/
  (exists h1 h2, quote_byte c = ["%"%char; h1; h2] /\
     is_hex h1 = true /\ is_hex h2 = true /\
     ascii_of_nat (hex_val h1 * 16 + hex_val h2) = c /\
     h1 <> "+"%char /\ h1 <> "&"%char /\ h1 <> "="%char /\
     h2 <> "+"%char /\ h2 <> "&"%char /\ h2 <> "="%char).
Proof.
  unfold quote_byte.
  destruct (always_safe c) eqn:Hs.
  - left. repeat split; try reflexivity; intros E; subst c; discriminate Hs.
  - destruct (Ascii.eqb_spec c " "%char) as [E|E].
    + right; left. split; [reflexivity|exact E].
    + right; right. set (n := nat_of_ascii c).
      assert (Hn : (n < 256)%nat) by apply nat_ascii_bounded.
      assert (H1 : (n / 16 < 16)%nat) by (apply Nat.Div0.div_lt_upper_bound; lia).
      assert (H2 : (n mod 16 < 16)%nat) by (apply Nat.mod_upper_bound; lia).
      destruct (hex_upper_spec _ H1) as (A1 & B1 & C1 & D1 & E1).
      destruct (hex_upper_spec _ H2) as (A2 & B2 & C2 & D2 & E2).
      exists (hex_upper (n / 16)), (hex_upper (n mod 16)).
      repeat split; try assumption.
      rewrite B1, B2. rewrite (Nat.mul_comm (n / 16) 16), <- Nat.div_mod_eq.
      apply ascii_nat_embedding.
Qed.

Lemma unquote_plain c rest :
  c <> "%"%char -> unquote (c :: rest) = c :: unquote rest.
Proof.
  intros H. destruct rest as [|a [|b r]]; try reflexivity.
  cbn [unquote]. apply Ascii.eqb_neq in H. rewrite H. reflexivity.
Qed.

Lemma plus_to_space_app x y : plus_to_space (x ++ y) = plus_to_space x ++ plus_to_space y.
Proof. apply map_app. Qed.

Lemma plus_to_space_plain c : c <> "+"%char -> plus_to_space [c] = [c].
Proof. intros H. unfold plus_to_space. simpl. apply Ascii.eqb_neq in H. rewrite H. reflexivity. Qed.

Lemma unquote_quote_plus s rest :
  unquote (plus_to_space (quote_plus s) ++ rest) = s ++ unquote rest.
Proof.
  induction s as [|c s IH]; [reflexivity|].
  unfold quote_plus. cbn [flat_map]. fold (quote_plus s).
  rewrite plus_to_space_app, <- app_assoc.
  destruct (quote_byte_cases c) as [(Q & H1 & H2 & _)|[(Q & E)|(h1 & h2 & Q & X1 & X2 & V & P1 & _ & _ & P2 & _)]];
    rewrite Q.
  - rewrite plus_to_space_plain by exact H2. simpl app.
    rewrite unquote_plain by exact H1. rewrite IH. reflexivity.
  - subst c. change (plus_to_space ["+"%char]) with [" "%char]. simpl app.
    rewrite unquote_plain by discriminate. rewrite IH. reflexivity.
  - unfold plus_to_space at 1. simpl map.
    apply Ascii.eqb_neq in P1. apply Ascii.eqb_neq in P2. rewrite P1, P2.
    cbn [app unquote]. rewrite X1, X2. simpl andb. cbv iota. rewrite V.
    fold (plus_to_space (quote_plus s)). rewrite IH. reflexivity.
Qed.

Lemma decode_quote_plus s :
  string_of_list_ascii (unquote (plus_to_space (quote_plus (chars s)))) = s.
Proof.
  rewrite <- (app_nil_r (plus_to_space _)), unquote_quote_plus, app_nil_r.
  apply string_of_list_ascii_of_string.
Qed.

Lemma quote_plus_clean s : ~ In "&"%char (quote_plus s) /\ ~ In "="%char (quote_plus s).
Proof.
  induction s as [|c s [IH1 IH2]]; [simpl; tauto|].
  unfold quote_plus. cbn [flat_map]. fold (quote_plus s).
  destruct (quote_byte_cases c) as [(Q & _ & _ & H3 & H4)|[(Q & E)|(h1 & h2 & Q & _ & _ & _ & _ & P1 & P2 & _ & P3 & P4)]];
    rewrite Q; split; intros H; apply in_app_or in H; simpl in H;
    repeat (destruct H as [H|H]; [try congruence|]); try tauto.
Qed.

Lemma quote_plus_nonempty s : s <> [] -> quote_plus s <> [].
Proof.
  destruct s as [|c s]; [congruence|]. intros _.
  unfold quote_plus. cbn [flat_map].
  destruct (quote_byte_cases c) as [(Q & _)|[(Q & _)|(h1 & h2 & Q & _)]]; rewrite Q; discriminate.
Qed.

Lemma split_on_nonempty sep cs : split_on sep cs <> [].
Proof.
  induction cs as [|c cs IH]; simpl; [discriminate|].
  destruct (Ascii.eqb c sep); [discriminate|].
  destruct (split_on sep cs); discriminate.
Qed.

Lemma split_on_app sep x y : ~ In sep x ->
  split_on sep (x ++ y) =
  match split_on sep y with z :: zs => (x ++ z) :: zs | [] => [x] end.
Proof.
  induction x as [|c x IH]; intros H.
  - simpl. destruct (split_on sep y) eqn:E; [|reflexivity].
    exfalso; exact (split_on_nonempty _ _ E).
  - simpl. assert (Hc : Ascii.eqb c sep = false)
      by (apply Ascii.eqb_neq; intros E; apply H; left; auto).
    rewrite Hc, IH by (intros I; apply H; right; exact I).
    destruct (split_on sep y) eqn:E; [|reflexivity].
    exfalso; exact (split_on_nonempty _ _ E).
Qed.

Lemma split_join xs : xs <> [] -> Forall (fun x => ~ In "&"%char x) xs ->
  split_on "&"%char (join_amp xs) = xs.
Proof.
  induction xs as [|x xs IH]; [congruence|]. intros _ F. inversion F; subst.
  destruct xs as [|y ys].
  - simpl. rewrite <- (app_nil_r x) at 1. rewrite split_on_app by assumption.
    simpl. rewrite app_nil_r. reflexivity.
  - change (join_amp (x :: y :: ys)) with (x ++ "&"%char :: join_amp (y :: ys)).
    rewrite split_on_app by assumption. cbn [split_on]. rewrite Ascii.eqb_refl.
    rewrite IH by (discriminate || assumption). rewrite app_nil_r. reflexivity.
Qed.

Lemma split_eq_app n v : ~ In "="%char n -> split_eq (n ++ "="%char :: v) = Some (n, v).
Proof.
  induction n as [|c n IH]; intros H; simpl.
  - reflexivity.
  - assert (Hc : Ascii.eqb c "="%char = false)
      by (apply Ascii.eqb_neq; intros E; apply H; left; auto).
    rewrite Hc, IH by (intros I; apply H; right; exact I). reflexivity.
Qed.

Definition url_field (kv : string * string) : list ascii :=
  let '(k, v) := kv in quote_plus (chars k) ++ "="%char :: quote_plus (chars v).

Lemma parse_qsl_field_url k v : v <> ""%string ->
  parse_qsl_field (url_field (k, v)) = [(k, v)].
Proof.
  intros Hv. unfold parse_qsl_field, url_field.
  destruct (quote_plus_clean (chars k)) as [_ Hk].
  destruct (quote_plus (chars k) ++ "="%char :: quote_plus (chars v)) as [|a b] eqn:E.
  - destruct (quote_plus (chars k)); discriminate.
  - rewrite <- E, split_eq_app by exact Hk.
    assert (Nv : quote_plus (chars v) <> []).
    { apply quote_plus_nonempty. destruct v; [congruence|discriminate]. }
    destruct (quote_plus (chars v)) as [|c qv] eqn:Ev; [congruence|].
    rewrite <- Ev, !decode_quote_plus. reflexivity.
Qed.

Theorem urlencode_round_trip params :
  Forall (fun kv => snd kv <> ""%string) params ->
  parse_qsl (urlencode params) = params.
Proof.
  intros F. unfold parse_qsl.
  assert (U : urlencode params = join_amp (map url_field params)).
  { unfold urlencode, url_field. reflexivity. }
  assert (A : match urlencode params with [] => [] | _ => split_on "&"%char (urlencode params) end
              = map url_field params).
  { destruct params as [|p ps]; [reflexivity|].
    rewrite U. rewrite split_join.
    - destruct p as [k v]. cbn [map].
      destruct (join_amp (url_field (k, v) :: map url_field ps)) eqn:E; [|reflexivity].
      exfalso. destruct ps; simpl in E; unfold url_field in E;
        destruct (quote_plus (chars k)); discriminate.
    - discriminate.
    - apply Forall_forall. intros x Hx. apply in_map_iff in Hx.
      destruct Hx as [[k v] [<- _]]. unfold url_field. intros I.
      apply in_app_or in I. destruct (quote_plus_clean (chars k)) as [Ck _].
      destruct (quote_plus_clean (chars v)) as [Cv _].
      destruct I as [I|[I|I]]; [exact (Ck I)|discriminate|exact (Cv I)]. }
  cbv zeta. rewrite A. clear A U.
  induction F as [|[k v] ps Hv F IH]; [reflexivity|].
  cbn [map flat_map]. rewrite parse_qsl_field_url by exact Hv. rewrite IH. reflexivity.
Qed.

(* ------------------------------------------------------------------ *)
(** ** The login URL and the callback *)

(** X1: [get_auth_url] (lines 40-53) draws a new state only when the
    session has none, and stores it; calling it again, with whatever
    value [secrets.token_urlsafe] would return, gives back the same
    session and the same URL, so every rerun shows the same login link. *)
Theorem get_auth_url_keeps_state : forall cfg t1 t2 s,
  oauth_state (fst (get_auth_url_v1 cfg t1 s))
    = Some (match oauth_state s with Some x => x | None => t1 end) /\
  get_auth_url_v1 cfg t2 (fst (get_auth_url_v1 cfg t1 s)) = get_auth_url_v1 cfg t1 s.
Proof.
  intros cfg t1 t2 s. unfold get_auth_url_v1.
  destruct (oauth_state s) eqn:E; simpl; rewrite ?E; split; reflexivity.
Qed.

(** X2: the query of the login URL, read back with [parse_qsl], gives
    exactly [client_id], [redirect_uri], [response_type], [scope] and,
    for the first [get_auth_url], the session's [state] (values
    non-empty); the second [get_auth_url] and the working app's give the
    first four and no [state].  A callback carrying that [state] to a
    session without access token passes the check of lines 55-88: the
    first event of the callback (lines 236-253) is the POST of the code. *)
Theorem login_url_round_trip : forall cfg tok s net now code,
  CLIENT_ID cfg <> ""%string -> REDIRECT_URI cfg <> ""%string ->
  match oauth_state s with Some x => x | None => tok end <> ""%string ->
  is_None (access_token s) = true ->
  let st := match oauth_state s with Some x => x | None => tok end in
  let '(s1, url) := get_auth_url_v1 cfg tok s in
  (exists qs, url = (AUTH_URL ++ "?" ++ string_of_list_ascii qs)%string /\
              parse_qsl qs = auth_params cfg ++ [("state", st)]) /\
  (exists qs, get_auth_url_v2 cfg = (AUTH_URL ++ "?" ++ string_of_list_ascii qs)%string /\
              parse_qsl qs = auth_params cfg) /\
  let '(_, _, evs, _) := handle_callback_v1 cfg net now (mk_query (Some code) (Some st)) s1 in
  hd_error evs = Some (EvPost TOKEN_URL (auth_code_payload cfg code)).
Proof.
  intros cfg tok s net now code Hc Hr Hs Ha st.
  assert (F : Forall (fun kv => snd kv <> ""%string) (auth_params cfg)).
  { repeat constructor; simpl; try assumption; discriminate. }
  assert (S1 : oauth_state (fst (get_auth_url_v1 cfg tok s)) = Some st).
  { unfold get_auth_url_v1, st. destruct (oauth_state s) eqn:E; simpl; rewrite ?E; reflexivity. }
  assert (A1 : access_token (fst (get_auth_url_v1 cfg tok s)) = access_token s).
  { unfold get_auth_url_v1. destruct (oauth_state s) eqn:E; reflexivity. }
  assert (U : snd (get_auth_url_v1 cfg tok s) =
              (AUTH_URL ++ "?" ++ string_of_list_ascii
                 (urlencode (auth_params cfg ++ [("state", st)])))%string).
  { unfold get_auth_url_v1, st. destruct (oauth_state s) eqn:E; simpl; rewrite ?E; reflexivity. }
  destruct (get_auth_url_v1 cfg tok s) as [s1 url]. simpl in S1, A1, U.
  split; [|split].
  - exists (urlencode (auth_params cfg ++ [("state", st)])). split; [exact U|].
    apply urlencode_round_trip. apply Forall_app. split; [exact F|].
    constructor; [exact Hs|constructor].
  - exists (urlencode (auth_params cfg)). split; [reflexivity|].
    apply urlencode_round_trip. exact F.
  - unfold handle_callback_v1. cbn [q_code q_state]. rewrite A1, Ha.
    assert (H : hd_error (fst (exchange_code_for_token_v1 cfg net (Some st) code st))
                = Some (EvPost TOKEN_URL (auth_code_payload cfg code))).
    { unfold exchange_code_for_token_v1. rewrite String.eqb_refl. simpl.
      destruct (net _ _) as [x [b|]| |]; try destruct (raise_for_status x); reflexivity. }
    rewrite S1.
    destruct (exchange_code_for_token_v1 cfg net (Some st) code st) as [evs [td|]];
      simpl in H; [|exact H].
    destruct (truthy td); [|exact H].
    destruct (store_token now td s1) as [s2 [|]]; [|exact H].
    destruct evs; simpl in *; [discriminate|exact H].
Qed.

(* ------------------------------------------------------------------ *)
(** ** Token responses the callbacks mishandle *)

Lemma store_token_dict now kvs s :
  let '(s1, _) := store_token now (PDict kvs) s in
  access_token s1 = dict_get kvs "access_token" PNone /\
  refresh_token s1 = dict_get kvs "refresh_token" PNone /\
  oauth_state s1 = oauth_state s.
Proof.
  unfold store_token.
  destruct (timedelta_seconds _) as [d|]; [destruct (datetime_add now d)|];
    simpl; repeat split.
Qed.

Lemma exchange_v1_ok cfg net st code status v :
  net TOKEN_URL (auth_code_payload cfg code) = HResp status (Some v) ->
  raise_for_status status = false ->
  exchange_code_for_token_v1 cfg net (Some st) code st
    = ([EvPost TOKEN_URL (auth_code_payload cfg code)], Some v).
Proof.
  intros Hn Hr. unfold exchange_code_for_token_v1. rewrite String.eqb_refl. simpl.
  rewrite Hn, Hr. reflexivity.
Qed.

(** X4: when a 2xx token response is a non-empty object whose
    [access_token] is falsy but not [None] (such as [""]), the callback
    stores that value; the page then shows the login link (line 256
    tests truthiness), but every later callback is ignored without a
    request, since line 237 tests [is None]. *)
Theorem falsy_access_token_locks_login : forall cfg net now s code st status kvs,
  oauth_state s = Some st -> is_None (access_token s) = true ->
  net TOKEN_URL (auth_code_payload cfg code) = HResp status (Some (PDict kvs)) ->
  raise_for_status status = false -> kvs <> [] ->
  truthy (dict_get kvs "access_token" PNone) = false ->
  dict_get kvs "access_token" PNone <> PNone ->
  let '(s1, _, _, _) := handle_callback_v1 cfg net now (mk_query (Some code) (Some st)) s in
  access_token s1 = dict_get kvs "access_token" PNone /\
  shows_dashboard_v1 s1 = false /\
  forall net' now' q, handle_callback_v1 cfg net' now' q s1 = (s1, q, [], RunDone).
Proof.
  intros cfg net now s code st status kvs Hs Ha Hn Hr Hk Ht Hnn.
  unfold handle_callback_v1 at 1. cbn [q_code q_state]. rewrite Ha, Hs.
  rewrite (exchange_v1_ok _ _ _ _ _ _ Hn Hr).
  assert (T : truthy (PDict kvs) = true) by (destruct kvs; [congruence|reflexivity]).
  rewrite T. pose proof (store_token_dict now kvs s) as D.
  destruct (store_token now (PDict kvs) s) as [s1 ok]. destruct D as [D _].
  assert (G : access_token s1 = dict_get kvs "access_token" PNone /\
              shows_dashboard_v1 s1 = false /\
              forall net' now' q, handle_callback_v1 cfg net' now' q s1 = (s1, q, [], RunDone)).
  { split; [exact D|]. split; [unfold shows_dashboard_v1; rewrite D; exact Ht|].
    intros net' now' q. unfold handle_callback_v1.
    destruct (q_code q); [|reflexivity]. destruct (q_state q); [|reflexivity].
    rewrite D. destruct (dict_get kvs "access_token" PNone); try reflexivity. congruence. }
  destruct ok; exact G.
Qed.

(** X5: when the token endpoint answers a callback's code with a 2xx
    status and a falsy JSON body ([null], [false], [0], [""], [[]] or
    [{}]) in time, the page load of [dexcom_streamlit_app.py] posts the
    code twice -- the first [main]'s callback, then the second [main]'s
    (lines 547-558) -- and shows neither a success nor an error: it
    ends with the session and the query parameters as they were. *)
Theorem falsy_token_response_silent : forall cfg net late tok now fuel s code st status v,
  validate_credentials cfg = true ->
  oauth_state s = Some st -> access_token s = PNone ->
  late TOKEN_URL (auth_code_payload cfg code) = false ->
  net TOKEN_URL (auth_code_payload cfg code) = HResp status (Some v) ->
  raise_for_status status = false -> truthy v = false ->
  page_load_dx cfg net late tok now fuel (mk_query (Some code) (Some st)) s
    = (s, mk_query (Some code) (Some st),
       [EvPost TOKEN_URL (auth_code_payload cfg code);
        EvPost TOKEN_URL (auth_code_payload cfg code)]).
Proof.
  intros cfg net late tok now fuel s code st status v Hv Hs Ha Hl Hn Hr Ht.
  assert (H1 : handle_callback_v1 cfg (with_timeout_30 net late) now
                 (mk_query (Some code) (Some st)) s
               = (s, mk_query (Some code) (Some st),
                  [EvPost TOKEN_URL (auth_code_payload cfg code)], RunDone)).
  { unfold handle_callback_v1. cbn [q_code q_state]. rewrite Ha, Hs. cbn [is_None].
    assert (Hn' : with_timeout_30 net late TOKEN_URL (auth_code_payload cfg code)
                  = HResp status (Some v)).
    { unfold with_timeout_30. rewrite Hl. exact Hn. }
    rewrite (exchange_v1_ok cfg (with_timeout_30 net late) st code status v Hn' Hr), Ht.
    reflexivity. }
  assert (H2 : handle_callback_v2 cfg net (mk_query (Some code) (Some st)) s
               = (s, [EvPost TOKEN_URL (auth_code_payload cfg code)], RunDone)).
  { unfold handle_callback_v2. cbn [q_code]. rewrite Ha. cbn [is_None].
    unfold exchange_code_for_token_v2. rewrite Hn, Hr, Ht. reflexivity. }
  assert (E : page_run_dx cfg net late tok now (mk_query (Some code) (Some st)) s
              = (s, mk_query (Some code) (Some st),
                 [EvPost TOKEN_URL (auth_code_payload cfg code);
                  EvPost TOKEN_URL (auth_code_payload cfg code)], RunDone)).
  { unfold page_run_dx. rewrite Hv. cbn [negb]. rewrite H1.
    unfold shows_dashboard_v1. rewrite Ha. cbn [truthy].
    rewrite (get_auth_url_v1_session_kept cfg tok s st Hs), H2. reflexivity. }
  destruct fuel; cbn [page_load_dx]; rewrite E; reflexivity.
Qed.

(** X6: when a token response's [expires_in] is [null], a string, a
    list or an object (a [TypeError] in [timedelta]), or an integer that
    puts the expiry outside the [datetime] range (an [OverflowError]),
    the callback raises after storing the access and refresh tokens: no
    success message, the query parameters stay, and [token_expires_at]
    keeps its old value. *)
Theorem expiry_failure_crashes_after_storing_tokens : forall cfg net now s code st status kvs,
  oauth_state s = Some st -> is_None (access_token s) = true ->
  net TOKEN_URL (auth_code_payload cfg code) = HResp status (Some (PDict kvs)) ->
  raise_for_status status = false -> kvs <> [] ->
  match dict_get kvs "expires_in" (PInt 7200) with
  | PNone | PStr _ | PList _ | PDict _ => True
  | PInt z => datetime_add now (z * USEC) = None
  | PBool _ => False
  end ->
  let '(s1, q1, evs, e) := handle_callback_v1 cfg net now (mk_query (Some code) (Some st)) s in
  e = RunCrash /\ q1 = mk_query (Some code) (Some st) /\ ~ In EvSuccess evs /\
  access_token s1 = dict_get kvs "access_token" PNone /\
  refresh_token s1 = dict_get kvs "refresh_token" PNone /\
  token_expires_at s1 = token_expires_at s.
Proof.
  intros cfg net now s code st status kvs Hs Ha Hn Hr Hk Hx.
  unfold handle_callback_v1. cbn [q_code q_state]. rewrite Ha, Hs.
  rewrite (exchange_v1_ok _ _ _ _ _ _ Hn Hr).
  assert (T : truthy (PDict kvs) = true) by (destruct kvs; [congruence|reflexivity]).
  rewrite T. unfold store_token.
  assert (C : ~ In EvSuccess [EvPost TOKEN_URL (auth_code_payload cfg code)])
    by (intros [H|H]; [discriminate|exact H]).
  destruct (dict_get kvs "expires_in" (PInt 7200)); try contradiction;
    cbn [timedelta_seconds].
  all: lazymatch type of Hx with True => idtac | _ => rewrite Hx end.
  all: repeat split; assumption.
Qed.

(** X7: in [working_dexcom_app.py] (lines 160-183), a truthy 2xx token
    response that is not a JSON object makes [token_data.get] raise
    after [processing_callback] was set and the query cleared; the flag
    stays [True], no token is stored, and every later callback of the
    session is ignored without a request. *)
Theorem callback_crash_locks_working_app : forall cfg net q s code status v,
  q_code q = Some code -> processing_callback s = false -> is_None (access_token s) = true ->
  net TOKEN_URL (auth_code_payload cfg code) = HResp status (Some v) ->
  raise_for_status status = false ->
  truthy v = true -> (forall kvs, v <> PDict kvs) ->
  let '(s1, q1, _, e) := handle_callback_w cfg net q s in
  e = RunCrash /\ q1 = query_cleared /\ processing_callback s1 = true /\
  access_token s1 = access_token s /\
  forall net' q', handle_callback_w cfg net' q' s1 = (s1, q', [], RunDone).
Proof.
  intros cfg net q s code status v Hq Hp Ha Hn Hr Ht Hd.
  unfold handle_callback_w at 1. rewrite Hq, Hp, Ha. simpl negb. cbv beta iota.
  unfold exchange_code_for_token_w at 1. rewrite Hn, Hr. simpl. rewrite Ht.
  destruct v; try (exfalso; eapply Hd; reflexivity);
    (repeat split; [intros net' q'; unfold handle_callback_w; simpl;
                    destruct (q_code q'); reflexivity]).
Qed.

(* ------------------------------------------------------------------ *)
(** ** Statistics and the chart order *)

Lemma fold_add_acc vs : forall a, fold_left Z.add vs a = a + fold_left Z.add vs 0.
Proof.
  induction vs as [|x vs IH]; intros a; simpl; [lia|].
  rewrite (IH (a + x)), (IH x). lia.
Qed.

Lemma fold_left_perm (f : Z -> Z -> Z) :
  (forall a x y, f (f a x) y = f (f a y) x) ->
  forall vs vs', Permutation vs vs' -> forall a, fold_left f vs a = fold_left f vs' a.
Proof.
  intros C vs vs' P. induction P as [|x l l' _ IH|x y l|l l' l'' _ IH1 _ IH2];
    intros a; simpl.
  - reflexivity.
  - apply IH.
  - rewrite C. reflexivity.
  - rewrite IH1. apply IH2.
Qed.

Lemma fold_min_spec l : forall a,
  fold_left Z.min l a <= a /\ (forall y, In y l -> fold_left Z.min l a <= y) /\
  (fold_left Z.min l a = a \/ In (fold_left Z.min l a) l).
Proof.
  induction l as [|x l IH]; intros a; simpl.
  - split; [lia|]. split; [tauto|]. left; reflexivity.
  - destruct (IH (Z.min a x)) as (H1 & H2 & H3). split; [lia|]. split.
    + intros y [<-|Hy]; [lia|]. apply H2, Hy.
    + destruct H3 as [H3|H3]; [|right; right; exact H3].
      rewrite H3. destruct (Z.min_spec a x) as [[_ E]|[_ E]]; rewrite E;
        [left; reflexivity|right; left; reflexivity].
Qed.

Lemma fold_max_spec l : forall a,
  a <= fold_left Z.max l a /\ (forall y, In y l -> y <= fold_left Z.max l a) /\
  (fold_left Z.max l a = a \/ In (fold_left Z.max l a) l).
Proof.
  induction l as [|x l IH]; intros a; simpl.
  - split; [lia|]. split; [tauto|]. left; reflexivity.
  - destruct (IH (Z.max a x)) as (H1 & H2 & H3). split; [lia|]. split.
    + intros y [<-|Hy]; [lia|]. apply H2, Hy.
    + destruct H3 as [H3|H3]; [|right; right; exact H3].
      rewrite H3. destruct (Z.max_spec a x) as [[_ E]|[_ E]]; rewrite E;
        [right; left; reflexivity|left; reflexivity].
Qed.

(** The minimum of a non-empty list, as [fold_left Z.min vs (hd 0 vs)]. *)
Lemma list_min_spec vs : vs <> [] ->
  In (fold_left Z.min vs (hd 0 vs)) vs /\
  forall y, In y vs -> fold_left Z.min vs (hd 0 vs) <= y.
Proof.
  destruct vs as [|x r]; [congruence|]. intros _. change (hd 0 (x :: r)) with x.
  destruct (fold_min_spec (x :: r) x) as (_ & H2 & H3). split; [|exact H2].
  destruct H3 as [H3|H3]; [rewrite H3; left; reflexivity|exact H3].
Qed.

Lemma list_max_spec vs : vs <> [] ->
  In (fold_left Z.max vs (hd 0 vs)) vs /\
  forall y, In y vs -> y <= fold_left Z.max vs (hd 0 vs).
Proof.
  destruct vs as [|x r]; [congruence|]. intros _. change (hd 0 (x :: r)) with x.
  destruct (fold_max_spec (x :: r) x) as (_ & H2 & H3). split; [|exact H2].
  destruct H3 as [H3|H3]; [rewrite H3; left; reflexivity|exact H3].
Qed.

Lemma list_min_perm vs vs' : Permutation vs vs' ->
  fold_left Z.min vs (hd 0 vs) = fold_left Z.min vs' (hd 0 vs').
Proof.
  intros P. destruct vs as [|x r].
  - apply Permutation_nil in P. subst. reflexivity.
  - assert (N' : vs' <> []) by (intros ->; apply Permutation_sym, Permutation_nil in P; discriminate).
    destruct (list_min_spec (x :: r)) as [I1 L1]; [discriminate|].
    destruct (list_min_spec vs' N') as [I2 L2].
    apply Z.le_antisymm.
    + apply L1. apply (Permutation_in _ (Permutation_sym P)), I2.
    + apply L2. apply (Permutation_in _ P), I1.
Qed.

Lemma list_max_perm vs vs' : Permutation vs vs' ->
  fold_left Z.max vs (hd 0 vs) = fold_left Z.max vs' (hd 0 vs').
Proof.
  intros P. destruct vs as [|x r].
  - apply Permutation_nil in P. subst. reflexivity.
  - assert (N' : vs' <> []) by (intros ->; apply Permutation_sym, Permutation_nil in P; discriminate).
    destruct (list_max_spec (x :: r)) as [I1 L1]; [discriminate|].
    destruct (list_max_spec vs' N') as [I2 L2].
    apply Z.le_antisymm.
    + apply L2. apply (Permutation_in _ P), I1.
    + apply L1. apply (Permutation_in _ (Permutation_sym P)), I2.
Qed.

Lemma compute_stats_perm df df' : Permutation df df' -> compute_stats df = compute_stats df'.
Proof.
  intros P. unfold compute_stats, compute_time_in_range.
  assert (V : Permutation (values_of df) (values_of df')) by (apply Permutation_map, P).
  rewrite (Permutation_length P), (in_range_count_perm _ _ P),
    (fold_left_perm Z.add ltac:(intros; lia) _ _ V),
    (list_min_perm _ _ V), (list_max_perm _ _ V).
  reflexivity.
Qed.

(** X8: the statistics of [plot_glucose_data] (lines 190-194) do not
    depend on the order of the readings: any reordering gives the same
    average, minimum, maximum, time in range and count, and so does the
    sort by [displayTime]. *)
Theorem statistics_independent_of_order : forall df df',
  Permutation df df' ->
  compute_stats df = compute_stats df' /\ compute_stats (sort_values df) = compute_stats df.
Proof.
  intros df df' P. split; apply compute_stats_perm; [exact P|apply sort_values_perm].
Qed.

Lemma sum_lower_bound m vs : (forall y, In y vs -> m <= y) ->
  m * Z.of_nat (length vs) <= fold_left Z.add vs 0.
Proof.
  induction vs as [|x vs IH]; intros H; simpl; [lia|].
  rewrite fold_add_acc.
  assert (m <= x) by (apply H; left; reflexivity).
  assert (m * Z.of_nat (length vs) <= fold_left Z.add vs 0) by (apply IH; intros y Hy; apply H; right; exact Hy).
  lia.
Qed.

Lemma sum_upper_bound m vs : (forall y, In y vs -> y <= m) ->
  fold_left Z.add vs 0 <= m * Z.of_nat (length vs).
Proof.
  induction vs as [|x vs IH]; intros H; simpl; [lia|].
  rewrite fold_add_acc.
  assert (x <= m) by (apply H; left; reflexivity).
  assert (fold_left Z.add vs 0 <= m * Z.of_nat (length vs)) by (apply IH; intros y Hy; apply H; right; exact Hy).
  lia.
Qed.

(** X9: for a non-empty set of readings, the minimum and the maximum
    shown are values of readings and bound every reading, the average
    lies between them, and the time in range lies between 0 and 100. *)
Theorem statistics_bounds : forall df, df <> [] ->
  let st := compute_stats df in
  In (min_glucose st) (values_of df) /\ In (max_glucose st) (values_of df) /\
  (forall r, In r df -> min_glucose st <= value r <= max_glucose st) /\
  (inject_Z (min_glucose st) <= avg_glucose st <= inject_Z (max_glucose st))%Q /\
  (0 <= time_in_range st <= 100)%Q.
Proof.
  intros df Hdf st.
  assert (Hv : values_of df <> []) by (unfold values_of; destruct df; [congruence|discriminate]).
  destruct (list_min_spec _ Hv) as [I1 L1]. destruct (list_max_spec _ Hv) as [I2 L2].
  assert (Ln : length (values_of df) = length df) by apply length_map.
  assert (Npos : 0 < Z.of_nat (length df)) by (destruct df; [congruence|simpl; lia]).
  assert (Nq : (0 < inject_Z (Z.of_nat (length df)))%Q)
    by (change 0%Q with (inject_Z 0); rewrite <- Zlt_Qlt; exact Npos).
  unfold st, compute_stats. cbn [min_glucose max_glucose avg_glucose time_in_range].
  split; [exact I1|]. split; [exact I2|]. split.
  { intros r Hr. assert (In (value r) (values_of df)) by (apply in_map, Hr).
    split; [apply L1|apply L2]; assumption. }
  split; [split|].
  - apply Qle_shift_div_l; [exact Nq|].
    rewrite <- inject_Z_mult, <- Zle_Qle. rewrite <- Ln. apply sum_lower_bound, L1.
  - apply Qle_shift_div_r; [exact Nq|].
    rewrite <- inject_Z_mult, <- Zle_Qle. rewrite <- Ln. apply sum_upper_bound, L2.
  - unfold compute_time_in_range. destruct (Z.ltb_spec 0 (Z.of_nat (length df))); [|lia].
    assert (C : 0 <= in_range_count df <= Z.of_nat (length df)).
    { unfold in_range_count. split; [lia|]. apply Nat2Z.inj_le.
      rewrite <- Ln. apply filter_length_le. }
    assert (R1 : (0 <= inject_Z (in_range_count df) / inject_Z (Z.of_nat (length df)))%Q).
    { apply Qle_shift_div_l; [exact Nq|]. rewrite Qmult_0_l.
      change 0%Q with (inject_Z 0). rewrite <- Zle_Qle. lia. }
    assert (R2 : (inject_Z (in_range_count df) / inject_Z (Z.of_nat (length df)) <= 1)%Q).
    { apply Qle_shift_div_r; [exact Nq|]. rewrite Qmult_1_l. rewrite <- Zle_Qle. lia. }
    split.
    + apply Qmult_le_0_compat; [exact R1|discriminate].
    + exact (Qmult_le_compat_r _ _ 100 R2 ltac:(discriminate)).
Qed.

(** X10: the second [plot_glucose_data] (lines 470-522) warns in the
    same cases as the first; when it plots, it draws the rows in the
    order received (the first draws them reordered) and shows the same
    average, minimum, maximum and in-range share as the first. *)
Theorem plot_v2_same_figures_input_order : forall egvs,
  match plot_glucose_data egvs, plot_glucose_data_v2 egvs with
  | NoDataWarning, NoDataWarning2 => egvs = None
  | NoReadingsWarning, NoReadingsWarning2 => egvs = Some []
  | Plotted series st, Plotted2 rows a mn mx tir =>
      egvs = Some rows /\ rows <> [] /\ Permutation (map fst series) rows /\
      a = avg_glucose st /\ mn = min_glucose st /\ mx = max_glucose st /\
      tir = time_in_range st
  | _, _ => False
  end.
Proof.
  intros [[|r0 rs]|]; try reflexivity.
  cbn [plot_glucose_data plot_glucose_data_v2]. set (df := r0 :: rs).
  rewrite (compute_stats_perm _ _ (sort_values_perm df)).
  split; [reflexivity|]. split; [discriminate|]. split.
  { unfold to_chart_series. rewrite map_map. cbn [fst]. rewrite map_id.
    apply sort_values_perm. }
  unfold compute_stats, compute_time_in_range. cbn [avg_glucose min_glucose max_glucose time_in_range].
  repeat split.
Qed.

Lemma sorted_perm_unique (key : reading -> Z) : forall A B,
  StronglySorted (fun r1 r2 => key r1 <= key r2) A ->
  StronglySorted (fun r1 r2 => key r1 <= key r2) B ->
  Permutation A B -> NoDup (map key A) -> A = B.
Proof.
  induction A as [|a A IH]; intros B SA SB P N.
  - apply Permutation_nil in P. congruence.
  - destruct B as [|b B]; [apply Permutation_sym, Permutation_nil in P; discriminate|].
    apply StronglySorted_inv in SA as [SA FA].
    apply StronglySorted_inv in SB as [SB FB].
    inversion N as [|? ? Na Nd]; subst.
    assert (Ka : key b <= key a).
    { assert (I : In a (b :: B)) by (apply (Permutation_in _ P); left; reflexivity).
      destruct I as [<-|I]; [lia|]. rewrite Forall_forall in FB. apply FB, I. }
    assert (Kb : key a <= key b).
    { assert (I : In b (a :: A)) by (apply (Permutation_in _ (Permutation_sym P)); left; reflexivity).
      destruct I as [<-|I]; [lia|]. rewrite Forall_forall in FA. apply FA, I. }
    assert (E : a = b).
    { assert (I : In b (a :: A)) by (apply (Permutation_in _ (Permutation_sym P)); left; reflexivity).
      destruct I as [E|I]; [exact E|]. exfalso. apply Na.
      replace (key a) with (key b) by lia. apply in_map, I. }
    subst b. f_equal. apply IH; try assumption.
    apply (Permutation_cons_inv P).
Qed.

(** X11: when no two readings share a timestamp, the chart series of
    [plot_glucose_data] is the one arrangement of the readings sorted by
    timestamp: any sorted reordering of the input equals it (readings
    received newest first are drawn in reverse). *)
Theorem chart_order_unique_for_distinct_times : forall df l,
  NoDup (map (fun r => ts_key (displayTime r)) df) ->
  Permutation l df ->
  Sorted (fun r1 r2 => ts_key (displayTime r1) <= ts_key (displayTime r2)) l ->
  map fst (to_chart_series df) = l.
Proof.
  intros df l N P S.
  unfold to_chart_series. rewrite map_map. cbn [fst]. rewrite map_id.
  apply (sorted_perm_unique (fun r => ts_key (displayTime r))).
  - apply sort_values_ordered.
  - apply Sorted_StronglySorted; [intros x y z; lia|exact S].
  - rewrite sort_values_perm. apply Permutation_sym, P.
  - apply (Permutation_NoDup (Permutation_map _ (Permutation_sym (sort_values_perm df)))), N.
Qed.

(* ------------------------------------------------------------------ *)
(** ** Fetching the readings *)

(** X12: for the dates picked in the first [main()] (lines 324-329),
    [get_glucose_data] (lines 109-131) asks for [startDate] at
    [T00:00:00] of the start date and [endDate] at [T23:59:59.999999] of
    the end date, with the bearer token.  It shows at most one message,
    and returns [None] when it shows one; it shows none exactly for a
    non-error response with a JSON body, and then returns that body as
    it is (so a JSON [null] body gives [None] with no message); the
    "token expired" message appears exactly on a 401 and "forbidden"
    exactly on a 403. *)
Theorem glucose_request_whole_days : forall api tok d1 d2,
  let day d := show_padded 4 (d_year d) ++ "-"%char :: show_padded 2 (d_month d)
               ++ "-"%char :: show_padded 2 (d_day d) in
  let sent := api egvs_url ("Bearer " ++ tok)%string
                [("startDate", day d1 ++ chars "T00:00:00");
                 ("endDate", day d2 ++ chars "T23:59:59.999999")] in
  let '(errs, data) := get_glucose_data_v1 api tok (combine_min d1) (combine_max d2) in
  (length errs <= 1)%nat /\ (errs <> [] -> data = PNone) /\
  (forall v, (errs = [] /\ data = v) <->
     exists status, sent = HResp status (Some v) /\ raise_for_status status = false) /\
  (In FExpired errs <-> exists body, sent = HResp 401 body) /\
  (In FForbidden errs <-> exists body, sent = HResp 403 body).
Proof.
  intros api tok d1 d2 day sent.
  assert (E : egvs_params (combine_min d1) (combine_max d2) =
              [("startDate", day d1 ++ chars "T00:00:00");
               ("endDate", day d2 ++ chars "T23:59:59.999999")]).
  { unfold egvs_params, isoformat, day. cbn.
    repeat (rewrite <- app_assoc || rewrite <- app_comm_cons). reflexivity. }
  unfold get_glucose_data_v1. rewrite E. fold sent.
  destruct sent as [st b| |] eqn:Es.
  - destruct (raise_for_status st) eqn:Er; [|destruct b as [v|]].
    + destruct (Z.eqb_spec st 401) as [->|N1]; [|destruct (Z.eqb_spec st 403) as [->|N2]];
        (split; [simpl; lia|]); (split; [intros _; reflexivity|]);
        (split; [intros w; split; [intros [H _]; discriminate H
                                  |intros (x & Hx & Rx); inversion Hx; subst; congruence]|]);
        split; (split; [intros [H|[]]; try discriminate; eauto
                       |intros [b' Hb]; inversion Hb; subst; try congruence; left; reflexivity]).
    + split; [simpl; lia|]. split; [intros H; congruence|].
      split; [intros w; split; [intros [_ H]; subst w; exists st; split; [reflexivity|exact Er]
                               |intros (x & Hx & Rx); inversion Hx; split; reflexivity]|].
      split; (split; [intros []|intros [b' Hb]; inversion Hb; subst; discriminate Er]).
    + split; [simpl; lia|]. split; [intros _; reflexivity|].
      split; [intros w; split; [intros [H _]; discriminate H|intros (x & Hx & Rx); inversion Hx]|].
      split; (split; [intros [H|[]]; discriminate H
                     |intros [b' Hb]; inversion Hb; subst; discriminate Er]).
  - split; [simpl; lia|]. split; [intros _; reflexivity|].
    split; [intros w; split; [intros [H _]; discriminate H|intros (x & Hx & Rx); discriminate Hx]|].
    split; (split; [intros [H|[]]; discriminate H|intros [b' Hb]; discriminate Hb]).
  - split; [simpl; lia|]. split; [intros _; reflexivity|].
    split; [intros w; split; [intros [H _]; discriminate H|intros (x & Hx & Rx); discriminate Hx]|].
    split; (split; [intros [H|[]]; discriminate H|intros [b' Hb]; discriminate Hb]).
Qed.

(* ------------------------------------------------------------------ *)
(** ** Witnesses of the extra properties *)

Lemma login_url_round_trip_witness :
  CLIENT_ID cfg0 <> ""%string /\ REDIRECT_URI cfg0 <> ""%string /\
  "tok"%string <> ""%string /\ is_None (access_token (fresh_session None)) = true /\
  let '(s1, url) := get_auth_url_v1 cfg0 "tok" (fresh_session None) in
  (exists qs, url = (AUTH_URL ++ "?" ++ string_of_list_ascii qs)%string /\
              parse_qsl qs = auth_params cfg0 ++ [("state", "tok"%string)]) /\
  (exists qs, get_auth_url_v2 cfg0 = (AUTH_URL ++ "?" ++ string_of_list_ascii qs)%string /\
              parse_qsl qs = auth_params cfg0) /\
  let '(_, _, evs, _) := handle_callback_v1 cfg0 (ok_server full_token_response) now0
                           (mk_query (Some "code") (Some "tok")) s1 in
  hd_error evs = Some (EvPost TOKEN_URL (auth_code_payload cfg0 "code")).
Proof.
  assert (H1 : CLIENT_ID cfg0 <> ""%string) by discriminate.
  assert (H2 : REDIRECT_URI cfg0 <> ""%string) by discriminate.
  assert (H3 : "tok"%string <> ""%string) by discriminate.
  assert (H4 : is_None (access_token (fresh_session None)) = true) by reflexivity.
  refine (conj H1 (conj H2 (conj H3 (conj H4 _)))).
  exact (login_url_round_trip cfg0 "tok" (fresh_session None) (ok_server full_token_response)
           now0 "code" H1 H2 H3 H4).
Defined.


Lemma falsy_access_token_locks_login_witness :
  oauth_state (fresh_session (Some "s0")) = Some "s0"%string /\
  is_None (access_token (fresh_session (Some "s0"))) = true /\
  ok_server empty_token_kvs TOKEN_URL (auth_code_payload cfg0 "c")
    = HResp 200 (Some (PDict empty_token_kvs)) /\
  raise_for_status 200 = false /\ empty_token_kvs <> [] /\
  truthy (dict_get empty_token_kvs "access_token" PNone) = false /\
  dict_get empty_token_kvs "access_token" PNone <> PNone /\
  let '(s1, _, _, _) := handle_callback_v1 cfg0 (ok_server empty_token_kvs) now0
                          (mk_query (Some "c") (Some "s0")) (fresh_session (Some "s0")) in
  access_token s1 = dict_get empty_token_kvs "access_token" PNone /\
  shows_dashboard_v1 s1 = false /\
  forall net' now' q, handle_callback_v1 cfg0 net' now' q s1 = (s1, q, [], RunDone).
Proof.
  assert (H1 : oauth_state (fresh_session (Some "s0")) = Some "s0"%string) by reflexivity.
  assert (H2 : is_None (access_token (fresh_session (Some "s0"))) = true) by reflexivity.
  assert (H3 : ok_server empty_token_kvs TOKEN_URL (auth_code_payload cfg0 "c")
               = HResp 200 (Some (PDict empty_token_kvs))) by reflexivity.
  assert (H4 : raise_for_status 200 = false) by reflexivity.
  assert (H5 : empty_token_kvs <> []) by discriminate.
  assert (H6 : truthy (dict_get empty_token_kvs "access_token" PNone) = false) by reflexivity.
  assert (H7 : dict_get empty_token_kvs "access_token" PNone <> PNone) by discriminate.
  refine (conj H1 (conj H2 (conj H3 (conj H4 (conj H5 (conj H6 (conj H7 _))))))).
  exact (falsy_access_token_locks_login cfg0 (ok_server empty_token_kvs) now0
           (fresh_session (Some "s0")) "c" "s0" 200 empty_token_kvs H1 H2 H3 H4 H5 H6 H7).
Defined.

Lemma falsy_token_response_silent_witness :
  validate_credentials cfg0 = true /\
  oauth_state (fresh_session (Some "s0")) = Some "s0"%string /\
  access_token (fresh_session (Some "s0")) = PNone /\
  (fun _ _ => false) TOKEN_URL (auth_code_payload cfg0 "c") = false /\
  ok_server [] TOKEN_URL (auth_code_payload cfg0 "c") = HResp 200 (Some (PDict [])) /\
  raise_for_status 200 = false /\ truthy (PDict []) = false /\
  page_load_dx cfg0 (ok_server []) (fun _ _ => false) "tok" now0 2
    (mk_query (Some "c") (Some "s0")) (fresh_session (Some "s0"))
  = (fresh_session (Some "s0"), mk_query (Some "c") (Some "s0"),
     [EvPost TOKEN_URL (auth_code_payload cfg0 "c");
      EvPost TOKEN_URL (auth_code_payload cfg0 "c")]).
Proof.
  assert (H0 : validate_credentials cfg0 = true) by reflexivity.
  assert (H1 : oauth_state (fresh_session (Some "s0")) = Some "s0"%string) by reflexivity.
  assert (H2 : access_token (fresh_session (Some "s0")) = PNone) by reflexivity.
  assert (H2' : (fun _ _ => false) TOKEN_URL (auth_code_payload cfg0 "c") = false)
    by reflexivity.
  assert (H3 : ok_server [] TOKEN_URL (auth_code_payload cfg0 "c") = HResp 200 (Some (PDict [])))
    by reflexivity.
  assert (H4 : raise_for_status 200 = false) by reflexivity.
  assert (H5 : truthy (PDict []) = false) by reflexivity.
  refine (conj H0 (conj H1 (conj H2 (conj H2' (conj H3 (conj H4 (conj H5 _))))))).
  exact (falsy_token_response_silent cfg0 (ok_server []) (fun _ _ => false) "tok" now0 2
           (fresh_session (Some "s0")) "c" "s0" 200 (PDict []) H0 H1 H2 H2' H3 H4 H5).
Defined.

Lemma expiry_failure_crashes_after_storing_tokens_witness :
  oauth_state (fresh_session (Some "s0")) = Some "s0"%string /\
  is_None (access_token (fresh_session (Some "s0"))) = true /\
  ok_server string_expiry_kvs TOKEN_URL (auth_code_payload cfg0 "c")
    = HResp 200 (Some (PDict string_expiry_kvs)) /\
  raise_for_status 200 = false /\ string_expiry_kvs <> [] /\
  dict_get string_expiry_kvs "expires_in" (PInt 7200) = PStr "3600" /\
  let '(s1, q1, evs, e) := handle_callback_v1 cfg0 (ok_server string_expiry_kvs) now0
                             (mk_query (Some "c") (Some "s0")) (fresh_session (Some "s0")) in
  e = RunCrash /\ q1 = mk_query (Some "c") (Some "s0") /\ ~ In EvSuccess evs /\
  access_token s1 = dict_get string_expiry_kvs "access_token" PNone /\
  refresh_token s1 = dict_get string_expiry_kvs "refresh_token" PNone /\
  token_expires_at s1 = token_expires_at (fresh_session (Some "s0")).
Proof.
  assert (H1 : oauth_state (fresh_session (Some "s0")) = Some "s0"%string) by reflexivity.
  assert (H2 : is_None (access_token (fresh_session (Some "s0"))) = true) by reflexivity.
  assert (H3 : ok_server string_expiry_kvs TOKEN_URL (auth_code_payload cfg0 "c")
               = HResp 200 (Some (PDict string_expiry_kvs))) by reflexivity.
  assert (H4 : raise_for_status 200 = false) by reflexivity.
  assert (H5 : string_expiry_kvs <> []) by discriminate.
  assert (H6 : dict_get string_expiry_kvs "expires_in" (PInt 7200) = PStr "3600")
    by reflexivity.
  refine (conj H1 (conj H2 (conj H3 (conj H4 (conj H5 (conj H6 _)))))).
  refine (expiry_failure_crashes_after_storing_tokens cfg0 (ok_server string_expiry_kvs) now0
           (fresh_session (Some "s0")) "c" "s0" 200 string_expiry_kvs H1 H2 H3 H4 H5 _).
  rewrite H6. exact I.
Defined.

Lemma callback_crash_locks_working_app_witness :
  q_code (mk_query (Some "c") None) = Some "c"%string /\
  processing_callback (fresh_session None) = false /\
  is_None (access_token (fresh_session None)) = true /\
  (fun _ _ => HResp 200 (Some (PList [PStr "a"]))) TOKEN_URL (auth_code_payload cfg0 "c")
    = HResp 200 (Some (PList [PStr "a"])) /\
  raise_for_status 200 = false /\ truthy (PList [PStr "a"]) = true /\
  (forall kvs, PList [PStr "a"] <> PDict kvs) /\
  let '(s1, q1, _, e) := handle_callback_w cfg0 (fun _ _ => HResp 200 (Some (PList [PStr "a"])))
                           (mk_query (Some "c") None) (fresh_session None) in
  e = RunCrash /\ q1 = query_cleared /\ processing_callback s1 = true /\
  access_token s1 = access_token (fresh_session None) /\
  forall net' q', handle_callback_w cfg0 net' q' s1 = (s1, q', [], RunDone).
Proof.
  assert (H1 : q_code (mk_query (Some "c") None) = Some "c"%string) by reflexivity.
  assert (H2 : processing_callback (fresh_session None) = false) by reflexivity.
  assert (H3 : is_None (access_token (fresh_session None)) = true) by reflexivity.
  assert (H4 : (fun _ _ => HResp 200 (Some (PList [PStr "a"]))) TOKEN_URL (auth_code_payload cfg0 "c")
               = HResp 200 (Some (PList [PStr "a"]))) by reflexivity.
  assert (H5 : raise_for_status 200 = false) by reflexivity.
  assert (H6 : truthy (PList [PStr "a"]) = true) by reflexivity.
  assert (H7 : forall kvs, PList [PStr "a"] <> PDict kvs) by discriminate.
  refine (conj H1 (conj H2 (conj H3 (conj H4 (conj H5 (conj H6 (conj H7 _))))))).
  exact (callback_crash_locks_working_app cfg0 (fun _ _ => HResp 200 (Some (PList [PStr "a"])))
           (mk_query (Some "c") None) (fresh_session None) "c" 200 (PList [PStr "a"])
           H1 H2 H3 H4 H5 H6 H7).
Defined.

Lemma statistics_independent_of_order_witness :
  Permutation [reading_at 0 60; reading_at 5 190] [reading_at 5 190; reading_at 0 60] /\
  compute_stats [reading_at 0 60; reading_at 5 190]
    = compute_stats [reading_at 5 190; reading_at 0 60] /\
  compute_stats (sort_values [reading_at 0 60; reading_at 5 190])
    = compute_stats [reading_at 0 60; reading_at 5 190].
Proof.
  assert (P : Permutation [reading_at 0 60; reading_at 5 190] [reading_at 5 190; reading_at 0 60])
    by apply perm_swap.
  split; [exact P|].
  exact (statistics_independent_of_order _ _ P).
Defined.

Lemma statistics_bounds_witness :
  [reading_at 0 60; reading_at 5 190] <> [] /\
  let st := compute_stats [reading_at 0 60; reading_at 5 190] in
  In (min_glucose st) (values_of [reading_at 0 60; reading_at 5 190]) /\
  In (max_glucose st) (values_of [reading_at 0 60; reading_at 5 190]) /\
  (forall r, In r [reading_at 0 60; reading_at 5 190] -> min_glucose st <= value r <= max_glucose st) /\
  (inject_Z (min_glucose st) <= avg_glucose st <= inject_Z (max_glucose st))%Q /\
  (0 <= time_in_range st <= 100)%Q.
Proof.
  assert (H : [reading_at 0 60; reading_at 5 190] <> []) by discriminate.
  split; [exact H|]. exact (statistics_bounds _ H).
Defined.

Lemma chart_order_unique_for_distinct_times_witness :
  NoDup (map (fun r => ts_key (displayTime r)) [reading_at 5 190; reading_at 0 60]) /\
  Permutation [reading_at 0 60; reading_at 5 190] [reading_at 5 190; reading_at 0 60] /\
  Sorted (fun r1 r2 => ts_key (displayTime r1) <= ts_key (displayTime r2))
    [reading_at 0 60; reading_at 5 190] /\
  map fst (to_chart_series [reading_at 5 190; reading_at 0 60])
    = [reading_at 0 60; reading_at 5 190].
Proof.
  assert (N : NoDup (map (fun r => ts_key (displayTime r)) [reading_at 5 190; reading_at 0 60])).
  { vm_compute. constructor; [intros [H|[]]; discriminate H|].
    constructor; [intros []|constructor]. }
  assert (P : Permutation [reading_at 0 60; reading_at 5 190] [reading_at 5 190; reading_at 0 60])
    by apply perm_swap.
  assert (S : Sorted (fun r1 r2 => ts_key (displayTime r1) <= ts_key (displayTime r2))
                [reading_at 0 60; reading_at 5 190]).
  { repeat constructor. vm_compute. discriminate. }
  refine (conj N (conj P (conj S _))).
  exact (chart_order_unique_for_distinct_times _ _ N P S).
Defined.
